(** * CozyQuiz backend: the round orchestration engine

    A shallow embedding of the game server of the repository (the part of
    [src/gameState.js] that starts the socket server and exports [game]):
    the [state] object and the [teams] map, the methods of [game], the
    action-id guard, the socket listeners, the two background intervals and
    the JSON persistence, followed by the properties of the wagering
    ledger, the buzzer, the guard and the snapshot round trip.

    Conventions of the embedding.
    - The process-wide [state] object and the [teams] map are threaded
      explicitly: every method of [game] is a function on a [World].
    - JavaScript objects used as dictionaries ([stakes], [roundWins],
      [categoryEarnings], the [teams] Map, [_recentActions]) are [gmap]s with
      string keys.  The loops over them touch one key per entry, so their
      result does not depend on the iteration order.
    - Coin amounts, pots and counters are integers ([Z]); [Math.floor(a / b)]
      on integers with [b > 0] is [Z.div].  Numbers that arrive in a payload
      and are tested or rounded before use (the stake, the undo snapshot)
      are [jsnum]s; numbers that are stored as they come (the admin patch,
      the team limit, the timer seconds) are taken as integers.
    - [null] and [undefined] are both [None] where the code does not tell
      them apart; where it does ([winnerId]) the type [jsid] keeps them.
    - [Date.now()] is an explicit argument [now] (milliseconds, [Z]).
    - A stored submission and the payload of a submission are kept as the
      text of their object; the spread [{ ...prev, ...payload, ts }] that
      [teamSubmit] stores is a parameter of the listeners.
    - Socket emissions, logging and the debounced disk write have no effect
      on the state and are left out. *)

From Stdlib Require Import ZArith QArith Qround Lia Ascii String.
From stdpp Require Import base gmap sets list strings pretty.

Open Scope Z_scope.

(** ** JavaScript values that reach the engine *)

(** The result of [Number(x)]: a finite double (a rational) or
    NaN / +-Infinity. *)
Inductive jsnum : Type :=
  | Fin (q : Q)
  | NonFinite.

(** An identifier as it arrives in a payload: [undefined], [null], or a value
    whose [String(...)] image is given. *)
Inductive jsid : Type :=
  | Undefined
  | Null
  | Str (s : string).

(** [l.filter(id => id !== null && id !== undefined).map(id => String(id))] *)
Definition given_strings (l : list jsid) : list string :=
  omap (fun v => match v with Str s => Some s | _ => None end) l.

(** Truthiness of a string: the empty string is falsy. *)
Definition truthy (s : string) : bool := negb (String.eqb s "").

(** [[...new Set(l)]]: first occurrences, in order. *)
Fixpoint uniq (l : list string) : list string :=
  match l with
  | [] => []
  | x :: r => x :: filter (fun y => y <> x) (uniq r)
  end.

(** ** Data model *)

Inductive Phase : Type := LOBBY | STAKE | CATEGORY | FINISHED.

Global Instance Phase_eq_dec : EqDecision Phase.
Proof. solve_decision. Defined.

Inductive ElchPhase : Type := IDLE | ANNOUNCE | BUZZ_READY | LOCK.

Inductive RaceMode : Type := PRE | RACE | POST | FINAL.

Module Team.
(** [{ id, name, avatar, coins, quizJoker, joinedAt }] *)
Record t : Type := mk {
  id : string;
  name : string;
  avatar : string;
  coins : Z;
  quizJoker : Z;
  joinedAt : Z;
}.
Definition set_coins (c : Z) (x : t) : t :=
  mk (id x) (name x) (avatar x) c (quizJoker x) (joinedAt x).
Definition set_quizJoker (j : Z) (x : t) : t :=
  mk (id x) (name x) (avatar x) (coins x) j (joinedAt x).
Definition set_name (n : string) (x : t) : t :=
  mk (id x) n (avatar x) (coins x) (quizJoker x) (joinedAt x).
Definition set_avatar (a : string) (x : t) : t :=
  mk (id x) (name x) a (coins x) (quizJoker x) (joinedAt x).
End Team.

(** One entry of [state.stakes]: [{ stake, useJoker }]. *)
Record StakeEntry : Type := mkStake {
  stake : Z;
  useJoker : bool;
}.

Module Elch.
(** [state.elch].  [phase] and [buzzAnswerEndsAt] are optional because
    [adminResetAll] installs an object without them. *)
Record t : Type := mk {
  category : option string;
  used : list string;
  buzzOrder : list (string * Z);
  buzzLocked : bool;
  exhausted : bool;
  phase : option ElchPhase;
  buzzAnswerEndsAt : option Z;
}.
Definition init : t := mk None [] [] false false (Some IDLE) None.
End Elch.

Module Result.
(** The record stored in [state.pendingResult] by [adminResolveRound]. *)
Record t : Type := mk {
  winnerId : option string;
  winnerIds : list string;
  category : option string;
  roundIndex : Z;
  payout : Z;
  carry : Z;
  tiePayouts : option (gmap string Z);
  carriedAmount : Z;
  at_ : Z;
}.
End Result.

(** A round key [`${category}:${roundIdx}`].  The index is a number and so
    prints without a colon: the text after the last colon determines it, and
    the text before determines the category.  The pair therefore stands for
    the string one to one. *)
Definition RoundKey : Type := (string * Z)%type.

(** The [state] object. *)
Record State : Type := mkState {
  phase : Phase;
  currentCategory : option string;
  roundIndex : Z;
  stakes : gmap string StakeEntry;
  categoryPot : Z;
  carryRound : Z;
  submissions : gmap string string;
  fuchsHistory : gmap string (list (string * Z));
  joinCode : option string;
  teamLimit : Z;
  timerEndsAt : option Z;
  timerDuration : Z;
  timerPausedRemaining : Z;
  lastTimerEnd : option Z;
  elch : Elch.t;
  raceMode : RaceMode;
  roundWins : gmap string Z;
  resolvedRounds : gset RoundKey;
  categoryEarnings : gmap string Z;
  pendingResult : option Result.t;
  lastResult : option Result.t;
}.

(** The [state] literal the process starts with. *)
Definition initial_state : State :=
  {| phase := LOBBY; currentCategory := None; roundIndex := 0;
     stakes := ∅; categoryPot := 0; carryRound := 0;
     submissions := ∅; fuchsHistory := ∅; joinCode := None; teamLimit := 3;
     timerEndsAt := None; timerDuration := 0; timerPausedRemaining := 0;
     lastTimerEnd := None; elch := Elch.init; raceMode := POST;
     roundWins := ∅; resolvedRounds := ∅; categoryEarnings := ∅;
     pendingResult := None; lastResult := None |}.

(** The two process-wide objects. *)
Record World : Type := mkWorld {
  st : State;
  teams : gmap string Team.t;
}.

Definition initial_world : World := mkWorld initial_state ∅.

(** ** Field assignments [state.f = v] *)

Definition set_phase (v : Phase) (s : State) : State :=
  mkState v (currentCategory s) (roundIndex s) (stakes s) (categoryPot s)
    (carryRound s) (submissions s) (fuchsHistory s) (joinCode s)
    (teamLimit s) (timerEndsAt s) (timerDuration s) (timerPausedRemaining s)
    (lastTimerEnd s) (elch s) (raceMode s) (roundWins s) (resolvedRounds s)
    (categoryEarnings s) (pendingResult s) (lastResult s).

Definition set_currentCategory (v : option string) (s : State) : State :=
  mkState (phase s) v (roundIndex s) (stakes s) (categoryPot s)
    (carryRound s) (submissions s) (fuchsHistory s) (joinCode s)
    (teamLimit s) (timerEndsAt s) (timerDuration s) (timerPausedRemaining s)
    (lastTimerEnd s) (elch s) (raceMode s) (roundWins s) (resolvedRounds s)
    (categoryEarnings s) (pendingResult s) (lastResult s).

Definition set_roundIndex (v : Z) (s : State) : State :=
  mkState (phase s) (currentCategory s) v (stakes s) (categoryPot s)
    (carryRound s) (submissions s) (fuchsHistory s) (joinCode s)
    (teamLimit s) (timerEndsAt s) (timerDuration s) (timerPausedRemaining s)
    (lastTimerEnd s) (elch s) (raceMode s) (roundWins s) (resolvedRounds s)
    (categoryEarnings s) (pendingResult s) (lastResult s).

Definition set_stakes (v : gmap string StakeEntry) (s : State) : State :=
  mkState (phase s) (currentCategory s) (roundIndex s) v (categoryPot s)
    (carryRound s) (submissions s) (fuchsHistory s) (joinCode s)
    (teamLimit s) (timerEndsAt s) (timerDuration s) (timerPausedRemaining s)
    (lastTimerEnd s) (elch s) (raceMode s) (roundWins s) (resolvedRounds s)
    (categoryEarnings s) (pendingResult s) (lastResult s).

Definition set_categoryPot (v : Z) (s : State) : State :=
  mkState (phase s) (currentCategory s) (roundIndex s) (stakes s) v
    (carryRound s) (submissions s) (fuchsHistory s) (joinCode s)
    (teamLimit s) (timerEndsAt s) (timerDuration s) (timerPausedRemaining s)
    (lastTimerEnd s) (elch s) (raceMode s) (roundWins s) (resolvedRounds s)
    (categoryEarnings s) (pendingResult s) (lastResult s).

Definition set_carryRound (v : Z) (s : State) : State :=
  mkState (phase s) (currentCategory s) (roundIndex s) (stakes s)
    (categoryPot s) v (submissions s) (fuchsHistory s) (joinCode s)
    (teamLimit s) (timerEndsAt s) (timerDuration s) (timerPausedRemaining s)
    (lastTimerEnd s) (elch s) (raceMode s) (roundWins s) (resolvedRounds s)
    (categoryEarnings s) (pendingResult s) (lastResult s).

Definition set_submissions (v : gmap string string) (s : State) : State :=
  mkState (phase s) (currentCategory s) (roundIndex s) (stakes s)
    (categoryPot s) (carryRound s) v (fuchsHistory s) (joinCode s)
    (teamLimit s) (timerEndsAt s) (timerDuration s) (timerPausedRemaining s)
    (lastTimerEnd s) (elch s) (raceMode s) (roundWins s) (resolvedRounds s)
    (categoryEarnings s) (pendingResult s) (lastResult s).

Definition set_fuchsHistory (v : gmap string (list (string * Z))) (s : State) : State :=
  mkState (phase s) (currentCategory s) (roundIndex s) (stakes s)
    (categoryPot s) (carryRound s) (submissions s) v (joinCode s)
    (teamLimit s) (timerEndsAt s) (timerDuration s) (timerPausedRemaining s)
    (lastTimerEnd s) (elch s) (raceMode s) (roundWins s) (resolvedRounds s)
    (categoryEarnings s) (pendingResult s) (lastResult s).

Definition set_joinCode (v : option string) (s : State) : State :=
  mkState (phase s) (currentCategory s) (roundIndex s) (stakes s)
    (categoryPot s) (carryRound s) (submissions s) (fuchsHistory s) v
    (teamLimit s) (timerEndsAt s) (timerDuration s) (timerPausedRemaining s)
    (lastTimerEnd s) (elch s) (raceMode s) (roundWins s) (resolvedRounds s)
    (categoryEarnings s) (pendingResult s) (lastResult s).

Definition set_teamLimit (v : Z) (s : State) : State :=
  mkState (phase s) (currentCategory s) (roundIndex s) (stakes s)
    (categoryPot s) (carryRound s) (submissions s) (fuchsHistory s)
    (joinCode s) v (timerEndsAt s) (timerDuration s)
    (timerPausedRemaining s) (lastTimerEnd s) (elch s) (raceMode s)
    (roundWins s) (resolvedRounds s) (categoryEarnings s) (pendingResult s)
    (lastResult s).

Definition set_timerEndsAt (v : option Z) (s : State) : State :=
  mkState (phase s) (currentCategory s) (roundIndex s) (stakes s)
    (categoryPot s) (carryRound s) (submissions s) (fuchsHistory s)
    (joinCode s) (teamLimit s) v (timerDuration s) (timerPausedRemaining s)
    (lastTimerEnd s) (elch s) (raceMode s) (roundWins s) (resolvedRounds s)
    (categoryEarnings s) (pendingResult s) (lastResult s).

Definition set_timerDuration (v : Z) (s : State) : State :=
  mkState (phase s) (currentCategory s) (roundIndex s) (stakes s)
    (categoryPot s) (carryRound s) (submissions s) (fuchsHistory s)
    (joinCode s) (teamLimit s) (timerEndsAt s) v (timerPausedRemaining s)
    (lastTimerEnd s) (elch s) (raceMode s) (roundWins s) (resolvedRounds s)
    (categoryEarnings s) (pendingResult s) (lastResult s).

Definition set_timerPausedRemaining (v : Z) (s : State) : State :=
  mkState (phase s) (currentCategory s) (roundIndex s) (stakes s)
    (categoryPot s) (carryRound s) (submissions s) (fuchsHistory s)
    (joinCode s) (teamLimit s) (timerEndsAt s) (timerDuration s) v
    (lastTimerEnd s) (elch s) (raceMode s) (roundWins s) (resolvedRounds s)
    (categoryEarnings s) (pendingResult s) (lastResult s).

Definition set_lastTimerEnd (v : option Z) (s : State) : State :=
  mkState (phase s) (currentCategory s) (roundIndex s) (stakes s)
    (categoryPot s) (carryRound s) (submissions s) (fuchsHistory s)
    (joinCode s) (teamLimit s) (timerEndsAt s) (timerDuration s)
    (timerPausedRemaining s) v (elch s) (raceMode s) (roundWins s)
    (resolvedRounds s) (categoryEarnings s) (pendingResult s) (lastResult s).

Definition set_elch (v : Elch.t) (s : State) : State :=
  mkState (phase s) (currentCategory s) (roundIndex s) (stakes s)
    (categoryPot s) (carryRound s) (submissions s) (fuchsHistory s)
    (joinCode s) (teamLimit s) (timerEndsAt s) (timerDuration s)
    (timerPausedRemaining s) (lastTimerEnd s) v (raceMode s) (roundWins s)
    (resolvedRounds s) (categoryEarnings s) (pendingResult s) (lastResult s).

Definition set_raceMode (v : RaceMode) (s : State) : State :=
  mkState (phase s) (currentCategory s) (roundIndex s) (stakes s)
    (categoryPot s) (carryRound s) (submissions s) (fuchsHistory s)
    (joinCode s) (teamLimit s) (timerEndsAt s) (timerDuration s)
    (timerPausedRemaining s) (lastTimerEnd s) (elch s) v (roundWins s)
    (resolvedRounds s) (categoryEarnings s) (pendingResult s) (lastResult s).

Definition set_roundWins (v : gmap string Z) (s : State) : State :=
  mkState (phase s) (currentCategory s) (roundIndex s) (stakes s)
    (categoryPot s) (carryRound s) (submissions s) (fuchsHistory s)
    (joinCode s) (teamLimit s) (timerEndsAt s) (timerDuration s)
    (timerPausedRemaining s) (lastTimerEnd s) (elch s) (raceMode s) v
    (resolvedRounds s) (categoryEarnings s) (pendingResult s) (lastResult s).

Definition set_resolvedRounds (v : gset RoundKey) (s : State) : State :=
  mkState (phase s) (currentCategory s) (roundIndex s) (stakes s)
    (categoryPot s) (carryRound s) (submissions s) (fuchsHistory s)
    (joinCode s) (teamLimit s) (timerEndsAt s) (timerDuration s)
    (timerPausedRemaining s) (lastTimerEnd s) (elch s) (raceMode s)
    (roundWins s) v (categoryEarnings s) (pendingResult s) (lastResult s).

Definition set_categoryEarnings (v : gmap string Z) (s : State) : State :=
  mkState (phase s) (currentCategory s) (roundIndex s) (stakes s)
    (categoryPot s) (carryRound s) (submissions s) (fuchsHistory s)
    (joinCode s) (teamLimit s) (timerEndsAt s) (timerDuration s)
    (timerPausedRemaining s) (lastTimerEnd s) (elch s) (raceMode s)
    (roundWins s) (resolvedRounds s) v (pendingResult s) (lastResult s).

Definition set_pendingResult (v : option Result.t) (s : State) : State :=
  mkState (phase s) (currentCategory s) (roundIndex s) (stakes s)
    (categoryPot s) (carryRound s) (submissions s) (fuchsHistory s)
    (joinCode s) (teamLimit s) (timerEndsAt s) (timerDuration s)
    (timerPausedRemaining s) (lastTimerEnd s) (elch s) (raceMode s)
    (roundWins s) (resolvedRounds s) (categoryEarnings s) v (lastResult s).

Definition set_lastResult (v : option Result.t) (s : State) : State :=
  mkState (phase s) (currentCategory s) (roundIndex s) (stakes s)
    (categoryPot s) (carryRound s) (submissions s) (fuchsHistory s)
    (joinCode s) (teamLimit s) (timerEndsAt s) (timerDuration s)
    (timerPausedRemaining s) (lastTimerEnd s) (elch s) (raceMode s)
    (roundWins s) (resolvedRounds s) (categoryEarnings s) (pendingResult s)
    v.

(** Apply a state change inside a world. *)
Definition on_state (f : State -> State) (w : World) : World :=
  mkWorld (f (st w)) (teams w).

(** ** Helpers of the engine *)

Definition ROUNDS_PER_CATEGORY : Z := 3.

(** [roundKeyFor]: no key for a falsy category ([null], [undefined], [""]). *)
Definition roundKeyFor (category : option string) (roundIdx : Z)
  : option RoundKey :=
  match category with
  | None => None
  | Some c => if truthy c then Some (c, roundIdx) else None
  end.

Definition currentRoundKey (s : State) : option RoundKey :=
  roundKeyFor (currentCategory s) (roundIndex s).

(** [isRoundResolved()] with its default argument. *)
Definition isRoundResolved (s : State) : bool :=
  match currentRoundKey s with
  | Some k => bool_decide (k ∈ resolvedRounds s)
  | None => false
  end.

(** [markRoundResolved(flag)] with its default key. *)
Definition markRoundResolved (flag : bool) (s : State) : State :=
  match currentRoundKey s with
  | None => s
  | Some k =>
      if flag then set_resolvedRounds ({[k]} ∪ resolvedRounds s) s
      else set_resolvedRounds (resolvedRounds s ∖ {[k]}) s
  end.

(** [emitPendingResult]: besides the broadcast it records the result as
    [lastResult]. *)
Definition emitPendingResult (s : State) : State :=
  match pendingResult s with
  | None => s
  | Some r => set_lastResult (Some r) s
  end.

(** [normalizeCategory] on a non-empty category name. *)
Definition normalizeCategoryName (cat : string) : string :=
  if (String.eqb cat "BÃ¤r" || String.eqb cat "Baer" || String.eqb cat "B??r")%bool
  then "Bär" else cat.

(** [normalizeCategory]: falsy values are returned as they are. *)
Definition normalizeCategory (cat : option string) : option string :=
  match cat with
  | None => None
  | Some c => if truthy c then Some (normalizeCategoryName c) else Some c
  end.

(** ** Team flow: [teamSetStake] *)

(** [state.teamLimit > 2 ? [0,3,6,9] : [0,3,6]] *)
Definition dynamicValid (s : State) : list Z :=
  if 2 <? teamLimit s then [0; 3; 6; 9] else [0; 3; 6].

(** [l.includes(n)], returning the member that was found. *)
Definition includes (l : list Z) (n : jsnum) : option Z :=
  match n with
  | Fin q => List.find (fun v => Qeq_bool q (inject_Z v)) l
  | NonFinite => None
  end.

(** The stake that is stored for a request: [0] unless the amount is allowed
    and the bank holds at least 3. *)
Definition coerceStake (s : State) (t : Team.t) (requested : jsnum) : Z :=
  let s0 := default 0 (includes (dynamicValid s) requested) in
  if ((Team.coins t <? 3) && (0 <? s0))%bool then 0 else s0.

(** [teamSetStake(io, socket, { stake, useJoker })]; [id] is
    [ensureTeam(socket)], [requested] is [Number(stake)] and [joker] the
    truthiness of [useJoker]. *)
Definition teamSetStake (id : string) (requested : jsnum) (joker : bool)
    (w : World) : World :=
  if decide (phase (st w) = STAKE) then
    match teams w !! id with
    | None => w
    | Some t =>
        let s := coerceStake (st w) t requested in
        let allowJoker := (joker && (0 <? Team.quizJoker t) && (0 <? s))%bool in
        on_state (set_stakes (<[id := mkStake s allowJoker]> (stakes (st w)))) w
    end
  else w.

(** ** Admin flow: [adminLockStakes] *)

(** One iteration of the debit loop on the team it concerns. *)
Definition debit (e : StakeEntry) (t : Team.t) : Team.t :=
  let t1 := Team.set_coins (Z.max 0 (Team.coins t - stake e)) t in
  if useJoker e then Team.set_quizJoker 0 t1 else t1.

(** [for (const [tid, s] of Object.entries(state.stakes)) ...] *)
Definition debitStakes (sk : gmap string StakeEntry)
    (ts : gmap string Team.t) : gmap string Team.t :=
  map_fold (fun tid e acc =>
              match acc !! tid with
              | Some t => <[tid := debit e t]> acc
              | None => acc
              end) ts sk.

(** [Object.values(state.stakes).reduce((a,s)=>a+(s.stake||0),0)] *)
Definition sumEinsatz (sk : gmap string StakeEntry) : Z :=
  map_fold (fun _ e a => a + stake e) 0 sk.

(** [... .reduce((a,s)=>a+(s.useJoker?(s.stake||0):0),0)] *)
Definition jokerExtra (sk : gmap string StakeEntry) : Z :=
  map_fold (fun _ e a => a + (if useJoker e then stake e else 0)) 0 sk.

(** [adminLockStakes(io)].  The method has no test of the phase. *)
Definition adminLockStakes (w : World) : World :=
  let sk := stakes (st w) in
  let ts := debitStakes sk (teams w) in
  let s1 := set_categoryPot (sumEinsatz sk + jokerExtra sk + 3) (st w) in
  mkWorld (set_phase CATEGORY s1) ts.

(** ** Admin flow: [adminResolveRound] *)

(** [uniqueIds]: the given ids, as strings, without repetition, registered. *)
Definition uniqueIds (ts : gmap string Team.t) (winnerIds : option (list jsid))
  : list string :=
  filter (fun id => is_Some (ts !! id))
         (uniq (given_strings (default [] winnerIds))).

(** What the winner loops change: the teams and the two per-category
    tallies. *)
Record Books : Type := mkBooks {
  b_teams : gmap string Team.t;
  b_roundWins : gmap string Z;
  b_categoryEarnings : gmap string Z;
}.

(** The body run for one winner [id] with gain [gain]. *)
Definition credit (gain : Z) (b : Books) (id : string) : Books :=
  match b_teams b !! id with
  | None => b
  | Some t =>
      mkBooks
        (<[id := Team.set_coins (Team.coins t + gain) t]> (b_teams b))
        (<[id := default 0 (b_roundWins b !! id) + 1]> (b_roundWins b))
        (<[id := default 0 (b_categoryEarnings b !! id) + gain]>
           (b_categoryEarnings b))
  end.

(** The outcome of the branches of [adminResolveRound] when [resolved] ends
    up [true]. *)
Record Settlement : Type := mkSettlement {
  s_books : Books;
  s_carryRound : Z;
  s_winnerId : option string;
  s_winnerIds : list string;
  s_tieShare : option Z;
}.

Definition booksOf (w : World) : Books :=
  mkBooks (teams w) (roundWins (st w)) (categoryEarnings (st w)).

(** The branches between [let tieShare = null] and [if (resolved)];
    [None] stands for [resolved === false], in which case nothing was
    written. *)
Definition settle (winnerId : jsid) (winnerIds : option (list jsid))
    (w : World) : option Settlement :=
  let s := st w in
  let payout := categoryPot s / ROUNDS_PER_CATEGORY in
  let ids := uniqueIds (teams w) winnerIds in
  let totalPot := payout + carryRound s in
  if 1 <? Z.of_nat (length ids) then
    let n := Z.of_nat (length ids) in
    let share := if n =? 0 then 0 else totalPot / n in
    let remainder := if n =? 0 then 0 else totalPot - share * n in
    let b := foldl (credit share) (booksOf w) ids in
    let carry :=
      if roundIndex s <? ROUNDS_PER_CATEGORY - 1
      then carryRound s + remainder else carryRound s in
    Some (mkSettlement b carry None ids (Some share))
  else
    let rawSingle := match ids with [x] => Str x | _ => winnerId end in
    let singleId := match rawSingle with Str x => Some x | _ => None end in
    let noWinner :=
      match winnerId with
      | Null =>
          Some (mkSettlement (booksOf w) (carryRound s + payout) None [] None)
      | _ => None
      end in
    match singleId with
    | Some x =>
        if (truthy x && bool_decide (is_Some (teams w !! x)))%bool then
          Some (mkSettlement (credit totalPot (booksOf w) x) 0
                             (Some x) [x] None)
        else noWinner
    | None => noWinner
    end.

(** The [tiePayouts] object of a result. *)
Definition tiePayoutsOf (ids : list string) (tieShare : option Z)
  : option (gmap string Z) :=
  if 1 <? Z.of_nat (length ids) then
    match tieShare with
    | Some sh => Some (foldl (fun acc id => <[id := sh]> acc) ∅ ids)
    | None => None
    end
  else None.

(** The block under [if (resolved)]. *)
Definition recordResolution (now : Z) (x : Settlement) (w : World) : World :=
  let s := st w in
  let payout := categoryPot s / ROUNDS_PER_CATEGORY in
  let b := s_books x in
  let s1 := set_categoryEarnings (b_categoryEarnings b)
              (set_roundWins (b_roundWins b)
                 (set_carryRound (s_carryRound x) s)) in
  let s2 := markRoundResolved true s1 in
  let carried :=
    match s_winnerId x, s_winnerIds x with
    | None, [] => if 0 <? carryRound s2 then carryRound s2 else 0
    | _, _ => 0
    end in
  let r := Result.mk (s_winnerId x) (s_winnerIds x) (currentCategory s2)
             (roundIndex s2) payout (carryRound s2)
             (tiePayoutsOf (s_winnerIds x) (s_tieShare x)) carried now in
  mkWorld (emitPendingResult (set_pendingResult (Some r) s2)) (b_teams b).

(** [adminResolveRound(io, { winnerId, winnerIds })] *)
Definition adminResolveRound (now : Z) (winnerId : jsid)
    (winnerIds : option (list jsid)) (w : World) : World :=
  if decide (phase (st w) = CATEGORY) then
    if isRoundResolved (st w) then w
    else
      match settle winnerId winnerIds w with
      | Some x => recordResolution now x w
      | None => w
      end
  else w.

(** ** Admin flow: announcing, undoing and moving between rounds *)

(** [adminRoundEnd]: announce and clear a pending result of the current
    round. *)
Definition adminRoundEnd (w : World) : World :=
  let s := st w in
  match pendingResult s with
  | None => w
  | Some r =>
      if decide (Result.category r = currentCategory s) then
        if decide (Result.roundIndex r = roundIndex s) then
          on_state (set_pendingResult None) w
        else w
      else w
  end.

(** [Math.max(0, Math.floor(x))] on a finite number. *)
Definition floorClamp (q : Q) : Z := Z.max 0 (Qfloor q).

(** The loop of [adminRoundUndo] over [Object.entries(coinMap)]. *)
Definition restoreCoins (coinMap : gmap string jsnum)
    (ts : gmap string Team.t) : gmap string Team.t :=
  map_fold (fun teamId value acc =>
              match value, acc !! teamId with
              | Fin q, Some t => <[teamId := Team.set_coins (floorClamp q) t]> acc
              | _, _ => acc
              end) ts coinMap.

(** The result the undo refers to: the pending one if it belongs to the
    current round, otherwise the last one if that does. *)
Definition resultOfRound (s : State) : option Result.t :=
  let matches (r : Result.t) :=
    (bool_decide (Result.category r = currentCategory s)
     && bool_decide (Result.roundIndex r = roundIndex s))%bool in
  match pendingResult s with
  | Some r =>
      if matches r then Some r
      else match lastResult s with
           | Some l => if matches l then Some l else None
           | None => None
           end
  | None =>
      match lastResult s with
      | Some l => if matches l then Some l else None
      | None => None
      end
  end.

(** One iteration of [winners.forEach] in [adminRoundUndo]. *)
Definition uncredit (last : Result.t) (s : State) (id : string) : State :=
  let s1 :=
    match roundWins s !! id with
    | Some n =>
        if n =? 0 then s
        else set_roundWins (<[id := Z.max 0 (n - 1)]> (roundWins s)) s
    | None => s
    end in
  let viaWinnerId :=
    if decide (Result.winnerId last = Some id)
    then Result.payout last + Result.carry last else 0 in
  let gain :=
    match Result.tiePayouts last with
    | Some tp => default viaWinnerId (tp !! id)
    | None => viaWinnerId
    end in
  match categoryEarnings s1 !! id with
  | Some e =>
      if ((gain =? 0) || (e =? 0))%bool then s1
      else set_categoryEarnings
             (<[id := Z.max 0 (e - gain)]> (categoryEarnings s1)) s1
  | None => s1
  end.

(** [adminRoundUndo(io, { snapshot })]: [coinMap] is [snapshot.coins] when
    it is an object, [carry] is [snapshot.carryRound] ([NonFinite] when it
    is not a finite number). *)
Definition adminRoundUndo (coinMap : option (gmap string jsnum))
    (carry : jsnum) (w : World) : World :=
  if decide (phase (st w) = CATEGORY) then
    if isRoundResolved (st w) then
      let ts := match coinMap with
                | Some m => restoreCoins m (teams w)
                | None => teams w
                end in
      let s1 := match carry with
                | Fin q => set_carryRound (floorClamp q) (st w)
                | NonFinite => st w
                end in
      let s2 :=
        match resultOfRound s1 with
        | Some last =>
            let winners :=
              match Result.winnerIds last with
              | [] => match Result.winnerId last with
                      | Some x => [x]
                      | None => []
                      end
              | l => l
              end in
            foldl (uncredit last) s1 winners
        | None => s1
        end in
      mkWorld
        (markRoundResolved false (set_lastResult None (set_pendingResult None s2)))
        ts
    else w
  else w.

(** The table [fixed] of labels per round; [cfg] is
    [fixed.find(r => r.round === roundIndex) || fixed[0]] as the pair
    [(primary, fallback)]. *)
Definition elchCfg (ri : Z) : string * string :=
  if ri =? 1 then ("Tiere", "Marken")
  else if ri =? 2 then ("Länder", "Dinge aus der Küche")
  else ("Städte", "Berufe").

Definition includesStr (l : list string) (x : string) : bool :=
  bool_decide (x ∈ l).

(** The label choice shared by [adminStartCategory], [adminRoundNext] and
    [adminRoundPrev]: primary, else fallback, else exhausted. *)
Definition elchPick (ri : Z) (e : Elch.t) : Elch.t :=
  let cfg := elchCfg ri in
  let pick := if includesStr (Elch.used e) (fst cfg) then snd cfg else fst cfg in
  if includesStr (Elch.used e) pick then
    Elch.mk None (Elch.used e) (Elch.buzzOrder e) (Elch.buzzLocked e) true
            (Some LOCK) (Elch.buzzAnswerEndsAt e)
  else
    Elch.mk (Some pick) (Elch.used e ++ [pick]) (Elch.buzzOrder e)
            (Elch.buzzLocked e) (Elch.exhausted e) (Some BUZZ_READY) None.

(** [state.elch.buzzOrder = []; state.elch.buzzLocked = false] *)
Definition elchClearOrder (e : Elch.t) : Elch.t :=
  Elch.mk (Elch.category e) (Elch.used e) [] false (Elch.exhausted e)
          (Elch.phase e) (Elch.buzzAnswerEndsAt e).

(** The part of [adminRoundNext] and [adminRoundPrev] that differs only in
    the new round index. *)
Definition moveRound (ri' : Z) (w : World) : World :=
  let s1 := markRoundResolved false
              (set_lastResult None (set_pendingResult None (st w))) in
  let s2 := set_submissions ∅ (set_roundIndex ri' s1) in
  let s3 :=
    if decide (currentCategory s2 = Some "Elch")
    then set_elch (elchPick (roundIndex s2) (elchClearOrder (elch s2))) s2
    else s2 in
  mkWorld s3 (teams w).

(** [adminRoundNext(io)] *)
Definition adminRoundNext (w : World) : World :=
  if decide (phase (st w) = CATEGORY) then
    moveRound (Z.min (ROUNDS_PER_CATEGORY - 1) (roundIndex (st w) + 1)) w
  else w.

(** [adminRoundPrev(io)] *)
Definition adminRoundPrev (w : World) : World :=
  if decide (phase (st w) = CATEGORY) then
    moveRound (Z.max 0 (roundIndex (st w) - 1)) w
  else w.

(** ** Admin flow: category transitions and resets *)

(** [adminStartCategory(io, { category })] *)
Definition adminStartCategory (category : option string) (w : World) : World :=
  let s := st w in
  let e := if decide (category = Some "Elch") then elchPick 0 Elch.init
           else Elch.init in
  mkWorld
    {| phase := STAKE; currentCategory := normalizeCategory category;
       roundIndex := 0; stakes := ∅; categoryPot := 0; carryRound := 0;
       submissions := ∅; fuchsHistory := fuchsHistory s;
       joinCode := joinCode s; teamLimit := teamLimit s;
       timerEndsAt := timerEndsAt s; timerDuration := timerDuration s;
       timerPausedRemaining := timerPausedRemaining s;
       lastTimerEnd := lastTimerEnd s; elch := e; raceMode := raceMode s;
       roundWins := ∅; resolvedRounds := ∅; categoryEarnings := ∅;
       pendingResult := pendingResult s; lastResult := lastResult s |}
    (teams w).

(** [adminSetTeamLimit(io, { limit })]; [limit] is [Number(limit)] for an
    integer payload. *)
Definition adminSetTeamLimit (limit : Z) (w : World) : World :=
  let n := Z.max 2 (Z.min 5 (if limit =? 0 then 3 else limit)) in
  if n =? teamLimit (st w) then w else on_state (set_teamLimit n) w.

(** The fields written by both [adminFinishCategory] and [adminGotoLobby]. *)
Definition toLobby (s : State) : State :=
  {| phase := LOBBY; currentCategory := None; roundIndex := 0;
     stakes := ∅; categoryPot := 0; carryRound := 0; submissions := ∅;
     fuchsHistory := fuchsHistory s; joinCode := joinCode s;
     teamLimit := teamLimit s; timerEndsAt := timerEndsAt s;
     timerDuration := timerDuration s;
     timerPausedRemaining := timerPausedRemaining s;
     lastTimerEnd := lastTimerEnd s; elch := Elch.init;
     raceMode := raceMode s; roundWins := ∅; resolvedRounds := ∅;
     categoryEarnings := ∅; pendingResult := None; lastResult := None |}.

(** [adminFinishCategory(io)] (the summary event is an emission only). *)
Definition adminFinishCategory (w : World) : World := on_state toLobby w.

(** [adminGotoLobby(io)] *)
Definition adminGotoLobby (w : World) : World := on_state toLobby w.

(** [adminResetAll(io)] *)
Definition adminResetAll (w : World) : World :=
  let s := st w in
  mkWorld
    {| phase := LOBBY; currentCategory := None; roundIndex := 0;
       stakes := ∅; categoryPot := 0; carryRound := 0; submissions := ∅;
       fuchsHistory := fuchsHistory s; joinCode := None;
       teamLimit := teamLimit s; timerEndsAt := None; timerDuration := 0;
       timerPausedRemaining := 0; lastTimerEnd := lastTimerEnd s;
       elch := Elch.mk None [] [] false false None None;
       raceMode := POST; roundWins := roundWins s;
       resolvedRounds := resolvedRounds s;
       categoryEarnings := categoryEarnings s;
       pendingResult := pendingResult s; lastResult := lastResult s |}
    ∅.

(** ** Team registry: join, admin update, kick *)

Definition AVATAR_POOL : list string :=
  [ "/avatars/seekuh.png"; "/avatars/waschbaer.png";
    "/avatars/roter_panda.png"; "/avatars/igel.png";
    "/avatars/faultier.png"; "/avatars/einhorn.png";
    "/avatars/eichhoernchen.png"; "/avatars/capybara.png";
    "/avatars/wombat.png"; "/avatars/koala.png"; "/avatars/alpaka.png";
    "/avatars/pinguin.png"; "/avatars/otter.png"; "/avatars/giraffe.png";
    "/avatars/eisbaer.png"; "/avatars/drache.png"; "/avatars/katze.png";
    "/avatars/hund.png"; "/avatars/teamjenny.png"; "/avatars/teamjana.png";
    "/avatars/teammartin.png" ].

(** [if (!avatar.startsWith('/')) avatar = '/' + avatar] *)
Definition normalizeAvatar (a : string) : string :=
  match a with
  | String "/"%char _ => a
  | _ => String "/"%char a
  end.

(** [new Set(Array.from(teams.values()).map(t => t.avatar))] *)
Definition takenAvatars (ts : gmap string Team.t) : gset string :=
  map_fold (fun _ t acc => {[Team.avatar t]} ∪ acc) ∅ ts.

(** [teamJoin(io, socket, { name, avatar })]; [cleanName] is
    [name?.trim()] and [avatar] the payload field when it is a string. *)
Definition teamJoin (now : Z) (id : string) (cleanName : option string)
    (avatar : option string) (w : World) : World :=
  let av := normalizeAvatar <$> avatar in
  let taken := takenAvatars (teams w) in
  let usable :=
    match av with
    | Some a => if (includesStr AVATAR_POOL a
                    && bool_decide (a ∉ taken))%bool then Some a else None
    | None => None
    end in
  let named := match cleanName with
               | Some n => if truthy n then Some n else None
               | None => None
               end in
  match teams w !! id with
  | None =>
      let finalAvatar :=
        match usable with
        | Some a => a
        | None =>
            default (default "" (head AVATAR_POOL))
              (List.find (fun a => bool_decide (a ∉ taken)) AVATAR_POOL)
        end in
      let nm := default ("Team " +:+ pretty (S (size (teams w)))) named in
      mkWorld (st w)
        (<[id := Team.mk id nm finalAvatar 24 1 now]> (teams w))
  | Some t =>
      let t1 := match named with Some n => Team.set_name n t | None => t end in
      let t2 := match usable with
                | Some a => Team.set_avatar a t1
                | None => t1
                end in
      mkWorld (st w) (<[id := t2]> (teams w))
  end.

(** [adminTeamUpdate(io, { id, ...patch })]; each field of the patch is
    present when it has the type the method tests for.  The numbers are
    stored as they come. *)
Definition adminTeamUpdate (id : string) (coins quizJoker : option Z)
    (name avatar : option string) (w : World) : World :=
  match teams w !! id with
  | None => w
  | Some t =>
      let t1 := match coins with Some c => Team.set_coins c t | None => t end in
      let t2 := match quizJoker with
                | Some j => Team.set_quizJoker j t1
                | None => t1
                end in
      let t3 := match name with Some n => Team.set_name n t2 | None => t2 end in
      let t4 := match avatar with
                | Some a => Team.set_avatar a t3
                | None => t3
                end in
      mkWorld (st w) (<[id := t4]> (teams w))
  end.

(** [adminTeamKick(io, { id })] *)
Definition adminTeamKick (id : string) (w : World) : World :=
  if (truthy id && bool_decide (is_Some (teams w !! id)))%bool then
    let s := st w in
    let e := elch s in
    let e' := Elch.mk (Elch.category e) (Elch.used e)
                (filter (fun b => fst b <> id) (Elch.buzzOrder e))
                (Elch.buzzLocked e) (Elch.exhausted e) (Elch.phase e)
                (Elch.buzzAnswerEndsAt e) in
    mkWorld
      (set_elch e'
         (set_roundWins (delete id (roundWins s))
            (set_categoryEarnings (delete id (categoryEarnings s))
               (set_submissions (delete id (submissions s))
                  (set_stakes (delete id (stakes s)) s)))))
      (delete id (teams w))
  else w.

(** ** Timer *)

(** Truthiness of an optional epoch value: [null] and [0] are falsy. *)
Definition truthyZ (o : option Z) : bool :=
  match o with Some z => negb (z =? 0) | None => false end.

(** [Math.ceil(a / 1000)] on an integer [a]. *)
Definition ceilDiv1000 (a : Z) : Z := - ((- a) / 1000).

(** [adminTimerStart(io, { seconds })] for an integer payload. *)
Definition adminTimerStart (now seconds : Z) (w : World) : World :=
  let s := Z.max 1 (Z.min 999 seconds) in
  on_state (fun x =>
    set_lastTimerEnd None
      (set_timerPausedRemaining 0
         (set_timerEndsAt (Some (now + s * 1000)) (set_timerDuration s x)))) w.

(** [adminTimerStop(io)] *)
Definition adminTimerStop (now : Z) (w : World) : World :=
  on_state (fun x =>
    let x1 :=
      match timerEndsAt x with
      | Some e =>
          if truthyZ (Some e)
          then set_timerPausedRemaining (Z.max 0 (ceilDiv1000 (e - now))) x
          else x
      | None => x
      end in
    set_timerEndsAt None x1) w.

(** [adminTimerReset(io)] *)
Definition adminTimerReset (w : World) : World :=
  on_state (fun x =>
    set_timerPausedRemaining 0 (set_timerDuration 0 (set_timerEndsAt None x))) w.

(** [adminTimerResume(io)] *)
Definition adminTimerResume (now : Z) (w : World) : World :=
  let x := st w in
  if (negb (truthyZ (timerEndsAt x)) && (0 <? timerPausedRemaining x))%bool then
    let s := Z.max 1 (timerPausedRemaining x) in
    on_state (fun x =>
      set_timerPausedRemaining 0 (set_timerEndsAt (Some (now + s * 1000)) x)) w
  else w.

(** The 300 ms interval that records the natural expiry of the timer. *)
Definition timerTick (now : Z) (w : World) : World :=
  let x := st w in
  match timerEndsAt x with
  | Some e =>
      if (bool_decide (phase x = CATEGORY) && truthyZ (Some e) && (e <=? now))%bool
      then on_state (fun x => set_lastTimerEnd (Some e) (set_timerEndsAt None x)) w
      else w
  | None => w
  end.

(** ** Buzzer (category "Elch") *)

(** The answer window after the first buzz, from the environment variable
    of the same name: its value when that is a positive number, else 45 s. *)
Definition ELCH_ANSWER_WINDOW_MS (raw : option Z) : Z :=
  match raw with
  | Some r => if 0 <? r then r else 45000
  | None => 45000
  end.

(** [used.includes(x) ? used : used.concat(x)] *)
Definition pushUnused (x : string) (used : list string) : list string :=
  if includesStr used x then used else used ++ [x].

(** [adminElchDraw(io)] *)
Definition adminElchDraw (w : World) : World :=
  let s := st w in
  if decide (currentCategory s = Some "Elch") then
    let primary := fst (elchCfg (roundIndex s)) in
    on_state (set_elch
      (Elch.mk (Some primary) (pushUnused primary (Elch.used (elch s)))
               [] false false (Some BUZZ_READY) None)) w
  else w.

(** [adminElchSetLock(io, { locked })] *)
Definition adminElchSetLock (locked : bool) (w : World) : World :=
  let s := st w in
  let e := elch s in
  if decide (currentCategory s = Some "Elch") then
    on_state (set_elch
      (Elch.mk (Elch.category e) (Elch.used e) (Elch.buzzOrder e) locked
               (Elch.exhausted e)
               (if locked then Some LOCK else Elch.phase e)
               (Elch.buzzAnswerEndsAt e))) w
  else w.

(** [adminElchClearBuzz(io)] *)
Definition adminElchClearBuzz (w : World) : World :=
  let s := st w in
  let e := elch s in
  if decide (currentCategory s = Some "Elch") then
    let cfg := elchCfg (roundIndex s) in
    let next := if decide (Elch.category e = Some (fst cfg))
                then snd cfg else fst cfg in
    on_state (set_elch
      (Elch.mk (Some next) (pushUnused next (Elch.used e)) [] false false
               (Some BUZZ_READY) None)) w
  else w.

(** [adminElchUnlock(io)] *)
Definition adminElchUnlock (w : World) : World :=
  let s := st w in
  let e := elch s in
  if decide (currentCategory s = Some "Elch") then
    if Elch.exhausted e then w
    else
      on_state (set_elch
        (Elch.mk (Elch.category e) (Elch.used e) [] false (Elch.exhausted e)
                 (Some BUZZ_READY) None)) w
  else w.

(** [adminElchConfirm(io, { teamId })] *)
Definition adminElchConfirm (now : Z) (teamId : jsid) (w : World) : World :=
  let s := st w in
  let e := elch s in
  if decide (currentCategory s = Some "Elch") then
    if decide (phase s = CATEGORY) then
      if isRoundResolved s then w
      else
        let registered (x : string) :=
          (truthy x && bool_decide (is_Some (teams w !! x)))%bool in
        let fromOrder := fst <$> head (Elch.buzzOrder e) in
        let winnerId :=
          match teamId with
          | Str x => if registered x then Some x else fromOrder
          | _ => fromOrder
          end in
        match winnerId with
        | Some x =>
            if registered x then
              adminResolveRound now (Str x) None
                (on_state (set_elch
                   (Elch.mk (Elch.category e) (Elch.used e) (Elch.buzzOrder e)
                            true (Elch.exhausted e) (Some LOCK) None)) w)
            else w
        | None => w
        end
    else w
  else w.

(** The one-second interval that reopens the buzzer when the answer window
    has passed on an unresolved round. *)
Definition elchAutoUnlock (now : Z) (w : World) : World :=
  let s := st w in
  let e := elch s in
  if (bool_decide (phase s = CATEGORY)
      && bool_decide (currentCategory s = Some "Elch"))%bool then
    match Elch.buzzAnswerEndsAt e with
    | Some t =>
        if (truthyZ (Some t) && (t <? now) && negb (isRoundResolved s))%bool then
          on_state (set_elch
            (Elch.mk (Elch.category e) (Elch.used e) [] false
                     (Elch.exhausted e) (Some BUZZ_READY) None)) w
        else w
    | None => w
    end
  else w.

(** The test at the head of [teamSubmit] that drops a submission arriving
    more than 300 ms after the timer ran out. *)
Definition tooLate (now : Z) (s : State) : bool :=
  match lastTimerEnd s with
  | Some l =>
      ((0 <? timerDuration s) && negb (truthyZ (timerEndsAt s))
       && truthyZ (Some l) && (300 <? now - l))%bool
  | None => false
  end.

(** [teamSubmit(io, socket, 'Elch', { buzz: true })], the call made by the
    [team:elch:buzz] listener; [window] is [ELCH_ANSWER_WINDOW_MS]. *)
Definition teamSubmitBuzz (window now : Z) (id : string) (w : World) : World :=
  let s := st w in
  let e := elch s in
  if (bool_decide (phase s = CATEGORY)
      && bool_decide (normalizeCategory (currentCategory s) = Some "Elch"))%bool
  then
    if tooLate now s then w
    else
      match Elch.category e with
      | None => w
      | Some c =>
          if truthy c then
            let already := existsb (fun b => String.eqb (fst b) id)
                                   (Elch.buzzOrder e) in
            if (negb (Elch.buzzLocked e) && negb already)%bool then
              let order := Elch.buzzOrder e ++ [(id, now)] in
              if Nat.eqb (length order) 1 then
                on_state (set_elch
                  (Elch.mk (Elch.category e) (Elch.used e) order true
                           (Elch.exhausted e) (Some LOCK)
                           (if truthyZ (Elch.buzzAnswerEndsAt e)
                            then Elch.buzzAnswerEndsAt e
                            else Some (now + window)))) w
              else
                on_state (set_elch
                  (Elch.mk (Elch.category e) (Elch.used e) order
                           (Elch.buzzLocked e) (Elch.exhausted e)
                           (Elch.phase e) (Elch.buzzAnswerEndsAt e))) w
            else w
          else w
      end
  else w.

(** ** Scoreboard race mode *)

(** [adminRaceSet(io, { mode })]; [None] is a mode outside the four names. *)
Definition adminRaceSet (mode : option RaceMode) (w : World) : World :=
  match mode with
  | Some m => on_state (set_raceMode m) w
  | None => w
  end.

(** The timeout armed by a switch to [RACE]. *)
Definition raceAutoPost (w : World) : World := on_state (set_raceMode POST) w.

(** ** Idempotency guard *)

Definition IDEMP_WINDOW_MS : Z := 10000.

(** [_recentActions] (action id to first arrival) with its [_lastPurge]
    property. *)
Record Guard : Type := mkGuard {
  recent : gmap string Z;
  lastPurge : option Z;
}.

Definition initial_guard : Guard := mkGuard ∅ None.

(** The purge at the head of [isDuplicateAction]: at most once a minute,
    entries older than the window are deleted. *)
Definition purge (now : Z) (g : Guard) : Guard :=
  if (negb (Nat.eqb (size (recent g)) 0)
      && (default 0 (lastPurge g) + 60000 <? now))%bool
  then mkGuard (filter (fun kv => ~ (now - snd kv > IDEMP_WINDOW_MS)) (recent g))
               (Some now)
  else g.

(** [isDuplicateAction(actionId)]: the answer and the guard afterwards.
    [None] is a missing action id; the empty string is falsy as well. *)
Definition isDuplicateAction (now : Z) (actionId : option string) (g : Guard)
  : bool * Guard :=
  match actionId with
  | None => (false, g)
  | Some a =>
      if truthy a then
        let g1 := purge now g in
        match recent g1 !! a with
        | Some _ => (true, g1)
        | None => (false, mkGuard (<[a := now]> (recent g1)) (lastPurge g1))
        end
      else (false, g)
  end.

(** The process: the guard and the game. *)
Record Server : Type := mkServer {
  guard : Guard;
  world : World;
}.

(** The listener of [team:setStake]:
    [if (isDuplicateAction(p.actionId)) return; game.teamSetStake(...)]. *)
Definition onTeamSetStake (now : Z) (id : string) (actionId : option string)
    (requested : jsnum) (joker : bool) (sv : Server) : Server :=
  let '(dup, g) := isDuplicateAction now actionId (guard sv) in
  if dup then mkServer g (world sv)
  else mkServer g (teamSetStake id requested joker (world sv)).

(** The guarded call of a listener,
    [if (isDuplicateAction(id)) return; game.method(...)]; [act] is the
    method call.  What else the listeners of an event do is part of
    [dispatch] below. *)
Definition guarded (now : Z) (actionId : option string)
    (act : World -> World) (sv : Server) : Server :=
  let '(dup, g) := isDuplicateAction now actionId (guard sv) in
  if dup then mkServer g (world sv) else mkServer g (act (world sv)).

(** A call that does not consult the guard. *)
Definition unguarded (act : World -> World) (sv : Server) : Server :=
  mkServer (guard sv) (act (world sv)).

(** ** The socket listeners *)

(** The body of the second listener registered for [admin:category:start],
    [admin:round:next], [admin:round:prev] and [admin:category:finish]:
    [state.fuchsHistory = {}; state.submissions = {}]. *)
Definition clearEntries (w : World) : World :=
  on_state (fun s => set_submissions ∅ (set_fuchsHistory ∅ s)) w.

(** The cap of a guess history in the listener of [team:fuchs:submit]. *)
Definition FUCHS_HISTORY_CAP : nat := 50.

(** The head of the listener of [team:fuchs:submit], which runs before the
    guard is consulted; [val] is [(p?.guess || '').trim()].  A guess that
    differs from the last one of the team is appended and the history cut
    to its last 50 entries. *)
Definition recordGuess (now : Z) (id val : string) (w : World) : World :=
  if truthy val then
    let hist := default [] (fuchsHistory (st w) !! id) in
    let pushed :=
      let h' := hist ++ [(val, now)] in
      if (FUCHS_HISTORY_CAP <? length h')%nat
      then drop (length h' - FUCHS_HISTORY_CAP) h' else h' in
    let hist' :=
      match last hist with
      | Some l => if decide (fst l <> val) then pushed else hist
      | None => pushed
      end in
    on_state (set_fuchsHistory (<[id := hist']> (fuchsHistory (st w)))) w
  else w.

Section Listeners.

(** A stored submission and a received payload are kept as the text of
    their object; [spread prev payload now] is the object
    [{ ...prev, ...payload, ts: now }], where [prev] is the stored
    submission of the team, if any. *)
Variable spread : option string -> string -> Z -> string.

(** [teamSubmit(io, socket, category, payload)] for a [category] among
    "Hase", "Kranich", "Eule" and "Fuchs", whose payload is stored without
    validation. *)
Definition teamSubmitText (now : Z) (id category payload : string)
    (w : World) : World :=
  let s := st w in
  if (bool_decide (phase s = CATEGORY)
      && bool_decide (normalizeCategory (currentCategory s)
                      = normalizeCategory (Some category)))%bool
  then
    if tooLate now s then w
    else
      on_state (set_submissions
                  (<[id := spread (submissions s !! id) payload now]>
                     (submissions s))) w
  else w.

(** A message on a socket, with the fields of its payload that the
    listeners read.  [id] is [ensureTeam(socket)], [socketId] is
    [socket.id], [actionId] is [p.actionId].  The listeners of "Robbe",
    "Wal" and "Bär", which store a payload after a numeric validation, and
    the listeners that only emit are not among the events. *)
Inductive Event : Type :=
  | OnTeamJoin (id : string) (cleanName avatar : option string)
  | OnTeamSetStake (id : string) (actionId : option string)
                   (requested : jsnum) (joker : bool)
  | OnTeamHaseSubmit (id : string) (actionId : option string) (payload : string)
  | OnTeamKranichSubmit (id : string) (actionId : option string)
                        (payload : string)
  | OnTeamEuleSubmit (id : string) (actionId : option string) (payload : string)
  | OnTeamElchBuzz (socketId id : string)
  | OnTeamElchSubmit
  | OnTeamFuchsSubmit (id : string) (actionId : option string)
                      (val payload : string)
  | OnAdminTeamUpdate (id : string) (coins quizJoker : option Z)
                      (name avatar : option string)
  | OnAdminTeamKick (actionId : option string) (id : string)
  | OnAdminCategoryStart (category : option string)
  | OnAdminStakesLock (actionId : option string)
  | OnAdminRoundResolve (actionId : option string) (winnerId : jsid)
                        (winnerIds : option (list jsid))
  | OnAdminRoundEnd (actionId : option string)
  | OnAdminRoundUndo (actionId : option string)
                     (coinMap : option (gmap string jsnum)) (carry : jsnum)
  | OnAdminRoundNext (actionId : option string)
  | OnAdminRoundPrev (actionId : option string)
  | OnAdminCategoryFinish (actionId : option string)
  | OnAdminLobby
  | OnAdminTimerStart (seconds : Z)
  | OnAdminTimerStop
  | OnAdminTimerReset
  | OnAdminTimerResume
  | OnAdminElchDraw
  | OnAdminElchSetLock (locked : bool)
  | OnAdminElchClearBuzz
  | OnAdminElchConfirm (actionId : option string) (teamId : jsid)
  | OnAdminElchUnlock
  | OnAdminRaceSet (mode : option RaceMode)
  | OnAdminRaceShow
  | OnAdminRaceHide
  | OnAdminRaceToggle
  | OnAdminTeamLimitSet (actionId : option string) (limit : Z)
  | OnAdminResetAll (actionId : option string).

(** [adminRaceToggle(io)] *)
Definition adminRaceToggle (w : World) : World :=
  adminRaceSet
    (Some match raceMode (st w) with RACE => POST | _ => RACE end) w.

(** The listeners registered by [io.on('connection', ...)], event by
    event: what the arrival of [ev] at time [now] does to the process.
    Where two listeners are registered for one event they run in the order
    of their registration. *)
Definition dispatch (window now : Z) (ev : Event) (sv : Server) : Server :=
  match ev with
  | OnTeamJoin id n a => unguarded (teamJoin now id n a) sv
  | OnTeamSetStake id aid r j => onTeamSetStake now id aid r j sv
  | OnTeamHaseSubmit id aid p =>
      guarded now aid (teamSubmitText now id "Hase" p) sv
  | OnTeamKranichSubmit id aid p =>
      guarded now aid (teamSubmitText now id "Kranich" p) sv
  | OnTeamEuleSubmit id aid p =>
      guarded now aid (teamSubmitText now id "Eule" p) sv
  | OnTeamElchBuzz socketId id =>
      guarded now (Some (socketId +:+ ":elchBuzz"))
        (teamSubmitBuzz window now id) sv
  | OnTeamElchSubmit => sv
  | OnTeamFuchsSubmit id aid val p =>
      guarded now aid (teamSubmitText now id "Fuchs" p)
        (unguarded (recordGuess now id val) sv)
  | OnAdminTeamUpdate id c j n a => unguarded (adminTeamUpdate id c j n a) sv
  | OnAdminTeamKick aid id => guarded now aid (adminTeamKick id) sv
  | OnAdminCategoryStart cat =>
      unguarded clearEntries (unguarded (adminStartCategory cat) sv)
  | OnAdminStakesLock aid => guarded now aid adminLockStakes sv
  | OnAdminRoundResolve aid wi wis =>
      guarded now aid (adminResolveRound now wi wis) sv
  | OnAdminRoundEnd aid => guarded now aid adminRoundEnd sv
  | OnAdminRoundUndo aid m c => guarded now aid (adminRoundUndo m c) sv
  | OnAdminRoundNext aid =>
      unguarded clearEntries (guarded now aid adminRoundNext sv)
  | OnAdminRoundPrev aid =>
      unguarded clearEntries (guarded now aid adminRoundPrev sv)
  | OnAdminCategoryFinish aid =>
      unguarded clearEntries (guarded now aid adminFinishCategory sv)
  | OnAdminLobby => unguarded adminGotoLobby sv
  | OnAdminTimerStart s => unguarded (adminTimerStart now s) sv
  | OnAdminTimerStop => unguarded (adminTimerStop now) sv
  | OnAdminTimerReset => unguarded adminTimerReset sv
  | OnAdminTimerResume => unguarded (adminTimerResume now) sv
  | OnAdminElchDraw => unguarded adminElchDraw sv
  | OnAdminElchSetLock l => unguarded (adminElchSetLock l) sv
  | OnAdminElchClearBuzz => unguarded adminElchClearBuzz sv
  | OnAdminElchConfirm aid t => guarded now aid (adminElchConfirm now t) sv
  | OnAdminElchUnlock => unguarded adminElchUnlock sv
  | OnAdminRaceSet m => unguarded (adminRaceSet m) sv
  | OnAdminRaceShow => unguarded (adminRaceSet (Some RACE)) sv
  | OnAdminRaceHide => unguarded (adminRaceSet (Some POST)) sv
  | OnAdminRaceToggle => unguarded adminRaceToggle sv
  | OnAdminTeamLimitSet aid l => guarded now aid (adminSetTeamLimit l) sv
  | OnAdminResetAll aid => guarded now aid adminResetAll sv
  end.


(** The action id that the listener of an event hands to
    [isDuplicateAction]; [None] for an event whose listeners do not consult
    the guard. *)
Definition guardKey (ev : Event) : option (option string) :=
  match ev with
  | OnTeamSetStake _ aid _ _ | OnTeamHaseSubmit _ aid _
  | OnTeamKranichSubmit _ aid _ | OnTeamEuleSubmit _ aid _
  | OnTeamFuchsSubmit _ aid _ _ | OnAdminTeamKick aid _
  | OnAdminStakesLock aid | OnAdminRoundResolve aid _ _
  | OnAdminRoundEnd aid | OnAdminRoundUndo aid _ _ | OnAdminRoundNext aid
  | OnAdminRoundPrev aid | OnAdminCategoryFinish aid
  | OnAdminElchConfirm aid _ | OnAdminTeamLimitSet aid _
  | OnAdminResetAll aid => Some aid
  | OnTeamElchBuzz socketId _ => Some (Some (socketId +:+ ":elchBuzz"))
  | _ => None
  end.

(** The call of a method of [game] that the listener of an event makes. *)
Definition method (window now : Z) (ev : Event) : World -> World :=
  match ev with
  | OnTeamJoin id n a => teamJoin now id n a
  | OnTeamSetStake id _ r j => teamSetStake id r j
  | OnTeamHaseSubmit id _ p => teamSubmitText now id "Hase" p
  | OnTeamKranichSubmit id _ p => teamSubmitText now id "Kranich" p
  | OnTeamEuleSubmit id _ p => teamSubmitText now id "Eule" p
  | OnTeamElchBuzz _ id => teamSubmitBuzz window now id
  | OnTeamElchSubmit => fun w => w
  | OnTeamFuchsSubmit id _ _ p => teamSubmitText now id "Fuchs" p
  | OnAdminTeamUpdate id c j n a => adminTeamUpdate id c j n a
  | OnAdminTeamKick _ id => adminTeamKick id
  | OnAdminCategoryStart cat => adminStartCategory cat
  | OnAdminStakesLock _ => adminLockStakes
  | OnAdminRoundResolve _ wi wis => adminResolveRound now wi wis
  | OnAdminRoundEnd _ => adminRoundEnd
  | OnAdminRoundUndo _ m c => adminRoundUndo m c
  | OnAdminRoundNext _ => adminRoundNext
  | OnAdminRoundPrev _ => adminRoundPrev
  | OnAdminCategoryFinish _ => adminFinishCategory
  | OnAdminLobby => adminGotoLobby
  | OnAdminTimerStart s => adminTimerStart now s
  | OnAdminTimerStop => adminTimerStop now
  | OnAdminTimerReset => adminTimerReset
  | OnAdminTimerResume => adminTimerResume now
  | OnAdminElchDraw => adminElchDraw
  | OnAdminElchSetLock l => adminElchSetLock l
  | OnAdminElchClearBuzz => adminElchClearBuzz
  | OnAdminElchConfirm _ t => adminElchConfirm now t
  | OnAdminElchUnlock => adminElchUnlock
  | OnAdminRaceSet m => adminRaceSet m
  | OnAdminRaceShow => adminRaceSet (Some RACE)
  | OnAdminRaceHide => adminRaceSet (Some POST)
  | OnAdminRaceToggle => adminRaceToggle
  | OnAdminTeamLimitSet _ l => adminSetTeamLimit l
  | OnAdminResetAll _ => adminResetAll
  end.

(** What the listener of an event writes before it consults the guard. *)
Definition beforeGuard (now : Z) (ev : Event) : World -> World :=
  match ev with
  | OnTeamFuchsSubmit id _ val _ => recordGuess now id val
  | _ => fun w => w
  end.

(** What a second listener of the event does after the first has
    returned. *)
Definition secondListener (ev : Event) : World -> World :=
  match ev with
  | OnAdminCategoryStart _ | OnAdminRoundNext _ | OnAdminRoundPrev _
  | OnAdminCategoryFinish _ => clearEntries
  | _ => fun w => w
  end.

End Listeners.

(** ** Persistence *)

(** The values found in the state document. *)
Inductive JsonValue : Type :=
  | JPhase (p : Phase)
  | JOptString (o : option string)
  | JNumber (z : Z)
  | JOptNumber (o : option Z)
  | JBool (b : bool)
  | JStakes (m : gmap string StakeEntry)
  | JSubmissions (m : gmap string string)
  | JHistory (m : gmap string (list (string * Z)))
  | JElch (e : Elch.t)
  | JRace (r : RaceMode)
  | JTally (m : gmap string Z)
  | JResolved (ks : gset RoundKey)
  | JResult (r : option Result.t).

(** [serializeState()]: the object sent to clients, as its key/value
    list. *)
Definition serializeState (now : Z) (s : State) : list (string * JsonValue) :=
  [ ("phase", JPhase (phase s));
    ("currentCategory", JOptString (currentCategory s));
    ("roundIndex", JNumber (roundIndex s));
    ("roundResolved", JBool (isRoundResolved s));
    ("stakes", JStakes (stakes s));
    ("categoryPot", JNumber (categoryPot s));
    ("carryRound", JNumber (carryRound s));
    ("submissions", JSubmissions (submissions s));
    ("fuchsHistory", JHistory (fuchsHistory s));
    ("joinCode", JOptString (joinCode s));
    ("teamLimit", JNumber (teamLimit s));
    ("timerEndsAt", JOptNumber (timerEndsAt s));
    ("timerDuration", JNumber (timerDuration s));
    ("timerPausedRemaining", JNumber (timerPausedRemaining s));
    ("serverNow", JNumber now);
    ("elch", JElch (elch s));
    ("raceMode", JRace (raceMode s)) ].

(** [snapshotState()]: [const { serverNow, ...rest } = serializeState()]. *)
Definition snapshotState (now : Z) (s : State) : list (string * JsonValue) :=
  filter (fun kv => fst kv <> "serverNow") (serializeState now s).

(** [Object.keys(state)] *)
Definition stateKeys : list string :=
  [ "phase"; "currentCategory"; "roundIndex"; "stakes"; "categoryPot";
    "carryRound"; "submissions"; "fuchsHistory"; "joinCode"; "teamLimit";
    "timerEndsAt"; "timerDuration"; "timerPausedRemaining"; "lastTimerEnd";
    "elch"; "raceMode"; "roundWins"; "resolvedRounds"; "categoryEarnings";
    "pendingResult"; "lastResult" ].

(** [raw[k]] with [k in raw] *)
Definition rawLookup (k : string) (raw : list (string * JsonValue))
  : option JsonValue :=
  snd <$> List.find (fun kv => String.eqb (fst kv) k) raw.

(** [state[k] = v].  A value of another shape than the field has does not
    occur in a document written by [snapshotState]; it is ignored here. *)
Definition assign (k : string) (v : JsonValue) (s : State) : State :=
  match v with
  | JPhase p => if String.eqb k "phase" then set_phase p s else s
  | JOptString o =>
      if String.eqb k "currentCategory" then set_currentCategory o s
      else if String.eqb k "joinCode" then set_joinCode o s
      else s
  | JNumber z =>
      if String.eqb k "roundIndex" then set_roundIndex z s
      else if String.eqb k "categoryPot" then set_categoryPot z s
      else if String.eqb k "carryRound" then set_carryRound z s
      else if String.eqb k "teamLimit" then set_teamLimit z s
      else if String.eqb k "timerDuration" then set_timerDuration z s
      else if String.eqb k "timerPausedRemaining"
           then set_timerPausedRemaining z s
      else s
  | JOptNumber o =>
      if String.eqb k "timerEndsAt" then set_timerEndsAt o s
      else if String.eqb k "lastTimerEnd" then set_lastTimerEnd o s
      else s
  | JBool _ => s
  | JStakes m => if String.eqb k "stakes" then set_stakes m s else s
  | JSubmissions m =>
      if String.eqb k "submissions" then set_submissions m s else s
  | JHistory m =>
      if String.eqb k "fuchsHistory" then set_fuchsHistory m s else s
  | JElch e => if String.eqb k "elch" then set_elch e s else s
  | JRace r => if String.eqb k "raceMode" then set_raceMode r s else s
  | JTally m =>
      if String.eqb k "roundWins" then set_roundWins m s
      else if String.eqb k "categoryEarnings" then set_categoryEarnings m s
      else s
  | JResolved ks =>
      if String.eqb k "resolvedRounds" then set_resolvedRounds ks s else s
  | JResult r =>
      if String.eqb k "pendingResult" then set_pendingResult r s
      else if String.eqb k "lastResult" then set_lastResult r s
      else s
  end.

(** The state half of [loadPersisted()]:
    [for (const k of Object.keys(state)) if (k in raw) state[k] = raw[k]]. *)
Definition loadPersisted (raw : list (string * JsonValue)) (s : State) : State :=
  foldl (fun acc k =>
           match rawLookup k raw with
           | Some v => assign k v acc
           | None => acc
           end) s stateKeys.

(** A restart: the state written by the old process, read by a new one
    that starts from the initial literal. *)
Definition restart (now : Z) (s : State) : State :=
  loadPersisted (snapshotState now s) initial_state.

(** ** The command surface *)

(** One call of a method of [game], or one firing of a background
    interval.  Text submissions ([teamSubmit] with a payload other than a
    buzz) only write [state.submissions]; they are not among the commands
    and reach the game through the listeners only ([teamSubmitText]). *)
Inductive Command : Type :=
  | TeamJoin (id : string) (cleanName avatar : option string)
  | TeamSetStake (id : string) (requested : jsnum) (joker : bool)
  | TeamBuzz (id : string)
  | AdminTeamUpdate (id : string) (coins quizJoker : option Z)
                    (name avatar : option string)
  | AdminTeamKick (id : string)
  | AdminStartCategory (category : option string)
  | AdminSetTeamLimit (limit : Z)
  | AdminLockStakes
  | AdminResolveRound (winnerId : jsid) (winnerIds : option (list jsid))
  | AdminRoundEnd
  | AdminRoundUndo (coinMap : option (gmap string jsnum)) (carry : jsnum)
  | AdminRoundNext
  | AdminRoundPrev
  | AdminFinishCategory
  | AdminGotoLobby
  | AdminTimerStart (seconds : Z)
  | AdminTimerStop
  | AdminTimerReset
  | AdminTimerResume
  | AdminElchDraw
  | AdminElchSetLock (locked : bool)
  | AdminElchClearBuzz
  | AdminElchConfirm (teamId : jsid)
  | AdminElchUnlock
  | AdminRaceSet (mode : option RaceMode)
  | AdminResetAll
  | TimerTick
  | ElchAutoUnlock
  | RaceAutoPost.

(** The effect of a command that arrives at time [now]. *)
Definition step (window now : Z) (c : Command) (w : World) : World :=
  match c with
  | TeamJoin id n a => teamJoin now id n a w
  | TeamSetStake id r j => teamSetStake id r j w
  | TeamBuzz id => teamSubmitBuzz window now id w
  | AdminTeamUpdate id c j n a => adminTeamUpdate id c j n a w
  | AdminTeamKick id => adminTeamKick id w
  | AdminStartCategory cat => adminStartCategory cat w
  | AdminSetTeamLimit l => adminSetTeamLimit l w
  | AdminLockStakes => adminLockStakes w
  | AdminResolveRound wi wis => adminResolveRound now wi wis w
  | AdminRoundEnd => adminRoundEnd w
  | AdminRoundUndo m c => adminRoundUndo m c w
  | AdminRoundNext => adminRoundNext w
  | AdminRoundPrev => adminRoundPrev w
  | AdminFinishCategory => adminFinishCategory w
  | AdminGotoLobby => adminGotoLobby w
  | AdminTimerStart s => adminTimerStart now s w
  | AdminTimerStop => adminTimerStop now w
  | AdminTimerReset => adminTimerReset w
  | AdminTimerResume => adminTimerResume now w
  | AdminElchDraw => adminElchDraw w
  | AdminElchSetLock l => adminElchSetLock l w
  | AdminElchClearBuzz => adminElchClearBuzz w
  | AdminElchConfirm t => adminElchConfirm now t w
  | AdminElchUnlock => adminElchUnlock w
  | AdminRaceSet m => adminRaceSet m w
  | AdminResetAll => adminResetAll w
  | TimerTick => timerTick now w
  | ElchAutoUnlock => elchAutoUnlock now w
  | RaceAutoPost => raceAutoPost w
  end.

(** A run: commands with their arrival times, processed one at a time in
    arrival order. *)
Definition run (window : Z) (cmds : list (Z * Command)) (w : World) : World :=
  foldl (fun acc tc => step window (fst tc) (snd tc) acc) w cmds.

(** The commands that write [categoryPot]. *)
Definition writesPot (c : Command) : bool :=
  match c with
  | AdminLockStakes | AdminStartCategory _ | AdminFinishCategory
  | AdminGotoLobby | AdminResetAll => true
  | _ => false
  end.

(** The four transitions the specification names as ending the lifetime of
    a pot. *)
Definition endsPot (c : Command) : bool :=
  match c with
  | AdminStartCategory _ | AdminFinishCategory | AdminGotoLobby
  | AdminResetAll => true
  | _ => false
  end.

(** A sequence of guard consultations: arrival time and action id. *)
Definition consult (calls : list (Z * option string)) (g : Guard) : Guard :=
  foldl (fun acc c => snd (isDuplicateAction (fst c) (snd c) acc)) g calls.

(** ** Sums as the specification writes them *)

(** [Σ f] over the entries of a stakes map. *)
Definition sumOver (f : StakeEntry -> Z) (sk : gmap string StakeEntry) : Z :=
  foldr Z.add 0 (f ∘ snd <$> map_to_list sk).

(** The allowed stake set of the specification: [{0,3,6}], with [9] when
    more than two teams are configured. *)
Definition allowedStake (s : State) (requested : jsnum) : Prop :=
  match requested with
  | Fin q =>
      (q == 0)%Q \/ (q == 3)%Q \/ (q == 6)%Q \/ (2 < teamLimit s /\ (q == 9)%Q)
  | NonFinite => False
  end.

(** No team has a negative balance. *)
Definition teamsOk (ts : gmap string Team.t) : Prop :=
  forall id t, ts !! id = Some t -> 0 <= Team.coins t.

(** No stake entry has a negative amount. *)
Definition stakesOk (sk : gmap string StakeEntry) : Prop :=
  forall id e, sk !! id = Some e -> 0 <= stake e.

(** The invariant of the ledger: no negative balance, stake, pot or
    carry. *)
Definition ledgerOk (w : World) : Prop :=
  teamsOk (teams w)
  /\ stakesOk (stakes (st w))
  /\ 0 <= categoryPot (st w)
  /\ 0 <= carryRound (st w).

(** [team.coins += gain], as a function of the team. *)
Definition addCoins (gain : Z) (t : Team.t) : Team.t :=
  Team.set_coins (Team.coins t + gain) t.

(** Commands other than an admin update that writes a negative balance. *)
Definition noNegativePatch (c : Command) : Prop :=
  match c with
  | AdminTeamUpdate _ (Some coins) _ _ _ => 0 <= coins
  | _ => True
  end.

(** ** Worlds used as concrete inputs *)

(** A team with the given bank and joker count. *)
Definition exTeam (id : string) (coins quizJoker : Z) : Team.t :=
  Team.mk id id "/avatars/seekuh.png" coins quizJoker 0.

(** A state in phase [ph] of category "Hase" with the given ledger. *)
Definition exState (ph : Phase) (ri : Z) (sk : gmap string StakeEntry)
    (pot carry : Z) : State :=
  set_carryRound carry
    (set_categoryPot pot
       (set_stakes sk
          (set_roundIndex ri
             (set_currentCategory (Some "Hase") (set_phase ph initial_state))))).

(** Teams "A" and "B". *)
Definition exTeams (coinsA coinsB : Z) : gmap string Team.t :=
  <["A" := exTeam "A" coinsA 1]> (<["B" := exTeam "B" coinsB 1]> ∅).

(** A game in the STAKE phase: teams A and B have joined, the category
    "Hase" is started and A has staked 6 without joker. *)
Definition exStaked : World :=
  run 45000
    [(0, TeamJoin "A" None None); (1, TeamJoin "B" None None);
     (2, AdminStartCategory (Some "Hase"));
     (3, TeamSetStake "A" (Fin (6 # 1)) false)]
    initial_world.

(** A game reached from the initial state: teams A and B join with 24
    coins each, the category "Hase" is started with a team limit of 3, A
    stakes 9 with its joker, B stakes 9, and the stakes are locked.  The
    pot is 9 + 9 + 9 + 3 = 30 and both teams hold 15 coins. *)
Definition exLocked : World :=
  run 45000
    [(0, TeamJoin "A" None None); (1, TeamJoin "B" None None);
     (2, AdminStartCategory (Some "Hase"));
     (3, TeamSetStake "A" (Fin (9 # 1)) true);
     (4, TeamSetStake "B" (Fin (9 # 1)) false);
     (5, AdminLockStakes)]
    initial_world.

(** The same game after a first round without winner and the move to the
    second round: the carry is 10. *)
Definition exSecondRound : World :=
  run 45000 [(6, AdminResolveRound Null None); (7, AdminRoundNext)] exLocked.

(** A world in which the category "Elch" has been started and locked, its
    first label drawn, and nobody has buzzed. *)
Definition exBuzzWorld : World :=
  adminLockStakes
    (adminStartCategory (Some "Elch") (mkWorld initial_state (exTeams 24 24))).

(** An object spread for the examples: the payload alone, as if it named
    every field of the stored submission. *)
Definition exSpread (prev : option string) (payload : string) (now : Z)
  : string := payload.

(** The process after team B has buzzed in [exBuzzWorld] at time 5, from
    the socket "sB", with a window of 45 s. *)
Definition exBuzzed : Server :=
  dispatch exSpread 45000 5 (OnTeamElchBuzz "sB" "B")
    (mkServer initial_guard exBuzzWorld).

(** ** Further parts of the persistence *)

(** [snapshotTeams()]: the registered teams, one copy each. *)
Definition snapshotTeams (ts : gmap string Team.t) : list Team.t :=
  snd <$> map_to_list ts.

(** The team half of [loadPersisted()]:
    [teams.clear(); for (const t of arr) { if (t && t.id) teams.set(t.id, t); }] *)
Definition loadTeams (arr : list Team.t) : gmap string Team.t :=
  foldl (fun acc t => if truthy (Team.id t) then <[Team.id t := t]> acc else acc)
        ∅ arr.

(** ** Invariants of the reachable states *)

(** Every team is stored under its own, non-empty id. *)
Definition teamsKeyed (ts : gmap string Team.t) : Prop :=
  forall k t, ts !! k = Some t -> Team.id t = k /\ k <> "".

(** [ensureTeam(socket)] is [auth.teamId || socket.id], never the empty
    string: the joins of a run carry a non-empty id. *)
Definition joinsNamed (c : Command) : Prop :=
  match c with
  | TeamJoin id _ _ => id <> ""
  | _ => True
  end.

(** The round index and the team limit stay in their ranges, and a round
    key is only ever marked for the round the game is in. *)
Definition stateOk (s : State) : Prop :=
  (0 <= roundIndex s <= ROUNDS_PER_CATEGORY - 1)
  /\ (2 <= teamLimit s <= 5)
  /\ (forall k, k ∈ resolvedRounds s ->
        currentCategory s = None \/ currentRoundKey s = Some k).

(** ** Well-formed buzzer records *)

(** No label is listed twice as used, the drawn label is listed as used,
    and no team is twice in the buzz order. *)
Definition elchOk (e : Elch.t) : Prop :=
  NoDup (Elch.used e)
  /\ (forall c, Elch.category e = Some c -> c ∈ Elch.used e)
  /\ NoDup (fst <$> Elch.buzzOrder e).

(** * The two-team module [src/gameState.js]

    The "Duell-Version" of the engine: the same flow as the server's,
    without buzzer, team limit, persistence and result records.  Its tie
    branch hands out the remainder coin by coin and resets the carry, its
    [adminRoundPrev] leaves the resolved flags alone, and its [teamSubmit]
    keeps a bounded history of guesses for the category "Fuchs". *)

Module Duell.

(** A value of a submission payload, as far as the module looks at it: a
    string, an integer, a boolean, or anything else with its truthiness. *)
Inductive PVal : Type :=
  | PStr (s : string)
  | PNum (z : Z)
  | PBool (b : bool)
  | POther (isTruthy : bool).

Definition truthyV (v : option PVal) : bool :=
  match v with
  | Some (PStr s) => truthy s
  | Some (PNum z) => negb (z =? 0)
  | Some (PBool b) => b
  | Some (POther b) => b
  | None => false
  end.

(** A payload or a stored submission: an object with string keys. *)
Definition Payload : Type := gmap string PVal.

(** The [state] object of the module. *)
Record State : Type := mkState {
  phase : Phase;
  currentCategory : option string;
  roundIndex : Z;
  stakes : gmap string StakeEntry;
  categoryPot : Z;
  carryRound : Z;
  submissions : gmap string Payload;
  fuchsHistory : gmap string (list (string * Z));
  roundStartTs : option Z;
  timerEndsAt : option Z;
  timerDuration : Z;
  resolvedRounds : gset RoundKey;
}.

Definition initial_state : State :=
  {| phase := LOBBY; currentCategory := None; roundIndex := 0;
     stakes := ∅; categoryPot := 0; carryRound := 0; submissions := ∅;
     fuchsHistory := ∅; roundStartTs := None; timerEndsAt := None;
     timerDuration := 0; resolvedRounds := ∅ |}.

Record World : Type := mkWorld {
  st : State;
  teams : gmap string Team.t;
}.

Definition initial_world : World := mkWorld initial_state ∅.

Definition set_roundIndex (v : Z) (s : State) : State :=
  mkState (phase s) (currentCategory s) v (stakes s) (categoryPot s)
    (carryRound s) (submissions s) (fuchsHistory s) (roundStartTs s)
    (timerEndsAt s) (timerDuration s) (resolvedRounds s).

Definition set_stakes (v : gmap string StakeEntry) (s : State) : State :=
  mkState (phase s) (currentCategory s) (roundIndex s) v (categoryPot s)
    (carryRound s) (submissions s) (fuchsHistory s) (roundStartTs s)
    (timerEndsAt s) (timerDuration s) (resolvedRounds s).

Definition set_carryRound (v : Z) (s : State) : State :=
  mkState (phase s) (currentCategory s) (roundIndex s) (stakes s)
    (categoryPot s) v (submissions s) (fuchsHistory s) (roundStartTs s)
    (timerEndsAt s) (timerDuration s) (resolvedRounds s).

Definition set_submissions (v : gmap string Payload) (s : State) : State :=
  mkState (phase s) (currentCategory s) (roundIndex s) (stakes s)
    (categoryPot s) (carryRound s) v (fuchsHistory s) (roundStartTs s)
    (timerEndsAt s) (timerDuration s) (resolvedRounds s).

Definition set_fuchsHistory (v : gmap string (list (string * Z))) (s : State)
  : State :=
  mkState (phase s) (currentCategory s) (roundIndex s) (stakes s)
    (categoryPot s) (carryRound s) (submissions s) v (roundStartTs s)
    (timerEndsAt s) (timerDuration s) (resolvedRounds s).

Definition set_roundStartTs (v : option Z) (s : State) : State :=
  mkState (phase s) (currentCategory s) (roundIndex s) (stakes s)
    (categoryPot s) (carryRound s) (submissions s) (fuchsHistory s) v
    (timerEndsAt s) (timerDuration s) (resolvedRounds s).

Definition set_timerEndsAt (v : option Z) (s : State) : State :=
  mkState (phase s) (currentCategory s) (roundIndex s) (stakes s)
    (categoryPot s) (carryRound s) (submissions s) (fuchsHistory s)
    (roundStartTs s) v (timerDuration s) (resolvedRounds s).

Definition set_timerDuration (v : Z) (s : State) : State :=
  mkState (phase s) (currentCategory s) (roundIndex s) (stakes s)
    (categoryPot s) (carryRound s) (submissions s) (fuchsHistory s)
    (roundStartTs s) (timerEndsAt s) v (resolvedRounds s).

Definition set_resolvedRounds (v : gset RoundKey) (s : State) : State :=
  mkState (phase s) (currentCategory s) (roundIndex s) (stakes s)
    (categoryPot s) (carryRound s) (submissions s) (fuchsHistory s)
    (roundStartTs s) (timerEndsAt s) (timerDuration s) v.

Definition on_state (f : State -> State) (w : World) : World :=
  mkWorld (f (st w)) (teams w).

(** [currentRoundKey()] *)
Definition currentRoundKey (s : State) : option RoundKey :=
  roundKeyFor (currentCategory s) (roundIndex s).

(** [isCurrentRoundResolved()] *)
Definition isCurrentRoundResolved (s : State) : bool :=
  match currentRoundKey s with
  | Some k => bool_decide (k ∈ resolvedRounds s)
  | None => false
  end.

(** [setCurrentRoundResolved(flag)] *)
Definition setCurrentRoundResolved (flag : bool) (s : State) : State :=
  match currentRoundKey s with
  | None => s
  | Some k =>
      if flag then set_resolvedRounds ({[k]} ∪ resolvedRounds s) s
      else set_resolvedRounds (resolvedRounds s ∖ {[k]}) s
  end.

(** The avatar given to a team that names none. *)
Definition DEFAULT_AVATAR : string := "â“".

(** [VALID_STAKES] *)
Definition VALID_STAKES : list Z := [0; 3; 6].

(** [teamSetStake(io, socket, { stake, useJoker })] *)
Definition teamSetStake (id : string) (requested : jsnum) (joker : bool)
    (w : World) : World :=
  if decide (phase (st w) = STAKE) then
    match teams w !! id with
    | None => w
    | Some t =>
        let s0 := default 0 (includes VALID_STAKES requested) in
        let s := if ((Team.coins t <? 3) && (0 <? s0))%bool then 0 else s0 in
        let allowJoker := (joker && (0 <? Team.quizJoker t) && (0 <? s))%bool in
        on_state (set_stakes (<[id := mkStake s allowJoker]> (stakes (st w)))) w
    end
  else w.

(** [adminTeamUpdate(io, { id, ...patch })] *)
Definition adminTeamUpdate (id : string) (coins quizJoker : option Z)
    (name avatar : option string) (w : World) : World :=
  match teams w !! id with
  | None => w
  | Some t =>
      let t1 := match coins with Some c => Team.set_coins c t | None => t end in
      let t2 := match quizJoker with
                | Some j => Team.set_quizJoker j t1
                | None => t1
                end in
      let t3 := match name with Some n => Team.set_name n t2 | None => t2 end in
      let t4 := match avatar with
                | Some a => Team.set_avatar a t3
                | None => t3
                end in
      mkWorld (st w) (<[id := t4]> (teams w))
  end.

(** [adminStartCategory(io, { category })] *)
Definition adminStartCategory (category : option string) (w : World) : World :=
  let s := st w in
  mkWorld
    {| phase := STAKE; currentCategory := category; roundIndex := 0;
       stakes := ∅; categoryPot := 0; carryRound := 0; submissions := ∅;
       fuchsHistory := ∅; roundStartTs := None;
       timerEndsAt := timerEndsAt s; timerDuration := timerDuration s;
       resolvedRounds := ∅ |}
    (teams w).

(** [adminLockStakes(io)] *)
Definition adminLockStakes (now : Z) (w : World) : World :=
  let s := st w in
  let sk := stakes s in
  let s1 :=
    setCurrentRoundResolved false
      {| phase := CATEGORY; currentCategory := currentCategory s;
         roundIndex := roundIndex s; stakes := sk;
         categoryPot := sumEinsatz sk + jokerExtra sk + 3;
         carryRound := carryRound s; submissions := submissions s;
         fuchsHistory := fuchsHistory s; roundStartTs := Some now;
         timerEndsAt := timerEndsAt s; timerDuration := timerDuration s;
         resolvedRounds := resolvedRounds s |} in
  let s2 := if decide (currentCategory s1 = Some "Fuchs")
            then set_fuchsHistory ∅ s1 else s1 in
  mkWorld s2 (debitStakes sk (teams w)).

(** The loop [uniqueIds.forEach((id, idx) => ...)] of the tie branch, from
    index [idx] on: the first [remainder] winners get one coin more. *)
Fixpoint payTie (share remainder idx : Z) (ids : list string)
    (ts : gmap string Team.t) : gmap string Team.t :=
  match ids with
  | [] => ts
  | id :: rest =>
      payTie share remainder (idx + 1) rest
        match ts !! id with
        | Some t =>
            <[id := addCoins (share + (if idx <? remainder then 1 else 0)) t]> ts
        | None => ts
        end
  end.

(** [adminResolveRound(io, { winnerId, winnerIds })]; [totalPot % n] is the
    remainder of the truncated division. *)
Definition adminResolveRound (winnerId : jsid) (winnerIds : option (list jsid))
    (w : World) : World :=
  let s := st w in
  if decide (phase s = CATEGORY) then
    if isCurrentRoundResolved s then w
    else
      let payout := categoryPot s / ROUNDS_PER_CATEGORY in
      let ids := uniqueIds (teams w) winnerIds in
      let totalPot := payout + carryRound s in
      let n := Z.of_nat (length ids) in
      if 1 <? n then
        let share := if n =? 0 then 0 else totalPot / n in
        let remainder := if n =? 0 then 0 else Z.rem totalPot n in
        mkWorld (setCurrentRoundResolved true (set_carryRound 0 s))
                (payTie share remainder 0 ids (teams w))
      else
        let rawSingle := match ids with [x] => Str x | _ => winnerId end in
        let singleId := match rawSingle with Str x => Some x | _ => None end in
        let noWinner :=
          match winnerId with
          | Null =>
              mkWorld (setCurrentRoundResolved true
                         (set_carryRound (carryRound s + payout) s))
                      (teams w)
          | _ => w
          end in
        match singleId with
        | Some x =>
            if truthy x then
              match teams w !! x with
              | Some t =>
                  mkWorld (setCurrentRoundResolved true (set_carryRound 0 s))
                          (<[x := addCoins totalPot t]> (teams w))
              | None => noWinner
              end
            else noWinner
        | None => noWinner
        end
  else w.

(** [adminRoundUndo(io, { snapshot })]: [None] is a snapshot that is not an
    object; otherwise [coinMap] is [snapshot.coins] when it is an object and
    [carry] is [snapshot.carryRound]. *)
Definition adminRoundUndo (snapshot : option (option (gmap string jsnum) * jsnum))
    (w : World) : World :=
  if decide (phase (st w) = CATEGORY) then
    if isCurrentRoundResolved (st w) then
      match snapshot with
      | None => w
      | Some (coinMap, carry) =>
          let ts := match coinMap with
                    | Some m => restoreCoins m (teams w)
                    | None => teams w
                    end in
          let s1 := match carry with
                    | Fin q => set_carryRound (floorClamp q) (st w)
                    | NonFinite => st w
                    end in
          mkWorld (setCurrentRoundResolved false s1) ts
      end
    else w
  else w.

(** [adminRoundNext(io)]: the round that is entered is opened. *)
Definition adminRoundNext (now : Z) (w : World) : World :=
  if decide (phase (st w) = CATEGORY) then
    let s := st w in
    on_state (fun _ =>
      setCurrentRoundResolved false
        (set_roundStartTs (Some now)
           (set_fuchsHistory ∅
              (set_submissions ∅
                 (set_roundIndex
                    (Z.min (ROUNDS_PER_CATEGORY - 1) (roundIndex s + 1)) s))))) w
  else w.

(** [adminRoundPrev(io)]: no flag is touched. *)
Definition adminRoundPrev (now : Z) (w : World) : World :=
  if decide (phase (st w) = CATEGORY) then
    let s := st w in
    on_state (fun _ =>
      set_roundStartTs (Some now)
        (set_fuchsHistory ∅
           (set_submissions ∅
              (set_roundIndex (Z.max 0 (roundIndex s - 1)) s)))) w
  else w.

(** [adminFinishCategory(io)] *)
Definition adminFinishCategory (w : World) : World :=
  let s := st w in
  mkWorld
    {| phase := LOBBY; currentCategory := None; roundIndex := 0;
       stakes := ∅; categoryPot := 0; carryRound := 0; submissions := ∅;
       fuchsHistory := ∅; roundStartTs := None;
       timerEndsAt := timerEndsAt s; timerDuration := timerDuration s;
       resolvedRounds := ∅ |}
    (teams w).

(** [adminTimerStart(io, { seconds })] for an integer payload. *)
Definition adminTimerStart (now seconds : Z) (w : World) : World :=
  let s := Z.max 1 (Z.min 999 seconds) in
  on_state (fun x => set_timerEndsAt (Some (now + s * 1000))
                       (set_timerDuration s x)) w.

(** [adminTimerStop(io)] *)
Definition adminTimerStop (w : World) : World :=
  on_state (set_timerEndsAt None) w.

(** [adminTimerReset(io)] *)
Definition adminTimerReset (w : World) : World :=
  on_state (fun x => set_timerDuration 0 (set_timerEndsAt None x)) w.

(** The cap of a guess history. *)
Definition HISTORY_CAP : nat := 25.

(** The history of a team after a guess [val] at [now]: appended unless it
    repeats the last guess, then cut to the last 25 entries. *)
Definition pushGuess (now : Z) (val : string) (h : list (string * Z))
  : list (string * Z) :=
  match last h with
  | Some l =>
      if decide (fst l <> val) then
        let h' := h ++ [(val, now)] in
        if (HISTORY_CAP <? length h')%nat
        then drop (length h' - HISTORY_CAP) h' else h'
      else h
  | None =>
      let h' := h ++ [(val, now)] in
      if (HISTORY_CAP <? length h')%nat
      then drop (length h' - HISTORY_CAP) h' else h'
  end.

Section WithTrim.

(** [String.prototype.trim] *)
Variable trim : string -> string.

(** [teamJoin(io, socket, { name, avatar })] *)
Definition teamJoin (now : Z) (id : string) (name avatar : option string)
    (w : World) : World :=
  let named := match name with
               | Some n => truthy (trim n)
               | None => false
               end in
  match teams w !! id with
  | None =>
      let nm := match name with
                | Some n => if truthy (trim n) then trim n
                            else "Team " +:+ pretty (S (size (teams w)))
                | None => "Team " +:+ pretty (S (size (teams w)))
                end in
      let av := match avatar with
                | Some a => if truthy a then a else DEFAULT_AVATAR
                | None => DEFAULT_AVATAR
                end in
      mkWorld (st w) (<[id := Team.mk id nm av 24 1 now]> (teams w))
  | Some t =>
      let t1 := match name with
                | Some n => if named then Team.set_name n t else t
                | None => t
                end in
      let t2 := match avatar with
                | Some a => if truthy a then Team.set_avatar a t1 else t1
                | None => t1
                end in
      mkWorld (st w) (<[id := t2]> (teams w))
  end.

(** [teamSubmit(io, socket, category, payload)]; a missing payload is the
    empty object. *)
Definition teamSubmit (now : Z) (id : string) (category : option string)
    (payload : Payload) (w : World) : World :=
  let s := st w in
  if (bool_decide (phase s = CATEGORY)
      && bool_decide (currentCategory s = category))%bool then
    let prev := default ∅ (submissions s !! id) in
    let next0 := <["ts" := PNum now]> (payload ∪ prev) in
    let next1 :=
      if truthyV (payload !! "buzz") then
        <["buzz" := PBool true]>
          (if truthyV (prev !! "buzzTs") then next0
           else <["buzzTs" := PNum now]> next0)
      else next0 in
    let guess := match payload !! "guess" with
                 | Some (PStr g) => Some g
                 | _ => None
                 end in
    let fuchs := bool_decide (category = Some "Fuchs") in
    let next2 :=
      match guess with
      | Some _ =>
          if (fuchs && negb (truthyV (prev !! "firstGuessTs")))%bool
          then <["firstGuessTs" := PNum now]> next1 else next1
      | None => next1
      end in
    let s1 := set_submissions (<[id := next2]> (submissions s)) s in
    let s2 :=
      match guess with
      | Some g =>
          if (fuchs && truthy (trim g))%bool then
            set_fuchsHistory
              (<[id := pushGuess now (trim g)
                         (default [] (fuchsHistory s1 !! id))]>
                 (fuchsHistory s1)) s1
          else s1
      | None => s1
      end in
    mkWorld s2 (teams w)
  else w.

(** One call of a method of the module. *)
Inductive Command : Type :=
  | TeamJoin (id : string) (name avatar : option string)
  | TeamSetStake (id : string) (requested : jsnum) (joker : bool)
  | TeamSubmit (id : string) (category : option string) (payload : Payload)
  | AdminTeamUpdate (id : string) (coins quizJoker : option Z)
                    (name avatar : option string)
  | AdminStartCategory (category : option string)
  | AdminLockStakes
  | AdminResolveRound (winnerId : jsid) (winnerIds : option (list jsid))
  | AdminRoundUndo (snapshot : option (option (gmap string jsnum) * jsnum))
  | AdminRoundNext
  | AdminRoundPrev
  | AdminFinishCategory
  | AdminTimerStart (seconds : Z)
  | AdminTimerStop
  | AdminTimerReset.

Definition step (now : Z) (c : Command) (w : World) : World :=
  match c with
  | TeamJoin id n a => teamJoin now id n a w
  | TeamSetStake id r j => teamSetStake id r j w
  | TeamSubmit id cat p => teamSubmit now id cat p w
  | AdminTeamUpdate id c j n a => adminTeamUpdate id c j n a w
  | AdminStartCategory cat => adminStartCategory cat w
  | AdminLockStakes => adminLockStakes now w
  | AdminResolveRound wi wis => adminResolveRound wi wis w
  | AdminRoundUndo sn => adminRoundUndo sn w
  | AdminRoundNext => adminRoundNext now w
  | AdminRoundPrev => adminRoundPrev now w
  | AdminFinishCategory => adminFinishCategory w
  | AdminTimerStart s => adminTimerStart now s w
  | AdminTimerStop => adminTimerStop w
  | AdminTimerReset => adminTimerReset w
  end.

Definition run (cmds : list (Z * Command)) (w : World) : World :=
  foldl (fun acc tc => step (fst tc) (snd tc) acc) w cmds.

End WithTrim.

(** A guess history as the module keeps it: at most 25 entries, and no
    entry repeats the guess before it. *)
Fixpoint noRepeat (h : list (string * Z)) : Prop :=
  match h with
  | [] => True
  | a :: r =>
      match r with
      | [] => True
      | b :: _ => fst a <> fst b
      end /\ noRepeat r
  end.

Definition historyOk (h : list (string * Z)) : Prop :=
  (length h <= HISTORY_CAP)%nat /\ noRepeat h /\ h <> [].

(** The gain of the winner at position [i] of a tie. *)
Definition tieGain (share remainder : Z) (i : nat) : Z :=
  share + (if Z.of_nat i <? remainder then 1 else 0).

(** A world of the module in the CATEGORY phase of "Hase": pot 30, carry
    [carry], round [ri], teams A and B with the given balances. *)
Definition exWorld (ri carry coinsA coinsB : Z) : World :=
  mkWorld
    {| phase := CATEGORY; currentCategory := Some "Hase"; roundIndex := ri;
       stakes := ∅; categoryPot := 30; carryRound := carry;
       submissions := ∅; fuchsHistory := ∅; roundStartTs := None;
       timerEndsAt := None; timerDuration := 0; resolvedRounds := ∅ |}
    (exTeams coinsA coinsB).

End Duell.

(** The sum of the gains of the first [n] winners of a tie in the two-team
    module. *)
Fixpoint tieTotal (share remainder : Z) (n : nat) : Z :=
  match n with
  | O => 0
  | S k => tieTotal share remainder k + Duell.tieGain share remainder k
  end.

(** * The card rooms of [backend/src/index.js]: multipliers of a player *)

Module Rooms.

(** [{ id, label, factor, type, used }]; standard multipliers carry no
    [used] field. *)
Record Multiplier : Type := mkMult {
  m_id : string;
  m_label : string;
  m_factor : Q;
  m_type : string;
  m_used : option bool;
}.

(** [getDefaultMultipliers()] *)
Definition getDefaultMultipliers : list Multiplier :=
  [ mkMult "m05" "×0.5" (1 # 2) "standard" None;
    mkMult "m2" "×2" (2 # 1) "standard" None;
    mkMult "m5" "×5" (5 # 1) "standard" None;
    mkMult "m10" "×10" (10 # 1) "standard" None;
    mkMult "d5" "÷5" (1 # 5) "standard" None;
    mkMult "d10" "÷10" (1 # 10) "standard" None;
    mkMult "j50_mul" "×50" (50 # 1) "joker" (Some false);
    mkMult "j50_div" "÷50" (1 # 50) "joker" (Some false);
    mkMult "j100_mul" "×100" (100 # 1) "joker" (Some false);
    mkMult "j100_div" "÷100" (1 # 100) "joker" (Some false);
    mkMult "j1000_mul" "×1000" (1000 # 1) "joker" (Some false);
    mkMult "j1000_div" "÷1000" (1 # 1000) "joker" (Some false) ].

(** [getDefaultMultipliers().filter(m => m.type === 'standard')] *)
Definition standardDefaults : list Multiplier :=
  filter (fun m => m_type m = "standard") getDefaultMultipliers.

(** [new Map(existing.map(m => [m.id, m]))]: a later entry replaces an
    earlier one with the same id. *)
Definition byIdOf (existing : list Multiplier) : gmap string Multiplier :=
  foldl (fun acc m => <[m_id m := m]> acc) ∅ existing.

(** [for (const d of defaults) if (!byId.has(d.id)) byId.set(d.id, {...d})] *)
Definition mergeDefaults (defaults : list Multiplier)
    (byId : gmap string Multiplier) : gmap string Multiplier :=
  foldl (fun acc d => match acc !! m_id d with
                      | Some _ => acc
                      | None => <[m_id d := d]> acc
                      end) byId defaults.

(** [ensureStandardMultipliers(existing)] on an array; [byId.get(d.id)] is
    defined for every default [d] after the merge. *)
Definition ensureStandardMultipliers (existing : list Multiplier)
  : list Multiplier :=
  let defaults := standardDefaults in
  let byId := mergeDefaults defaults (byIdOf existing) in
  let others := filter (fun m => m_type m <> "standard") existing in
  omap (fun d => byId !! m_id d) defaults ++ others.

(** The ids of the standard multipliers. *)
Definition standardIds : list string := m_id <$> standardDefaults.

(** A list in which only standard multipliers carry a standard id. *)
Definition typedById (l : list Multiplier) : Prop :=
  forall m, m ∈ l -> m_id m ∈ standardIds -> m_type m = "standard".

End Rooms.

(** The amount [gain] that [adminRoundUndo] takes from the category earnings
    of the winner [id] of the result [last]. *)
Definition undoGain (last : Result.t) (id : string) : Z :=
  let viaWinnerId :=
    if decide (Result.winnerId last = Some id)
    then Result.payout last + Result.carry last else 0 in
  match Result.tiePayouts last with
  | Some tp => default viaWinnerId (tp !! id)
  | None => viaWinnerId
  end.

(** Well-formed stakes: every entry belongs to a registered team, its
    amount is one of 0, 3, 6 and 9, and it carries a joker only with a
    positive amount. *)
Definition stakesWf (w : World) : Prop :=
  forall id e, stakes (st w) !! id = Some e ->
    is_Some (teams w !! id)
    /\ stake e ∈ [0; 3; 6; 9]
    /\ (useJoker e = true -> 0 < stake e).

(** * Properties *)

(** Case analysis on every conditional that the goal contains. *)
Ltac branches :=
  repeat match goal with
         | |- context [if ?x then _ else _] => destruct x; simpl
         | |- context [match ?x with _ => _ end] => destruct x; simpl
         end.

(** ** Stakes *)

Lemma includes_Some (s : State) (q : Q) (v : Z) :
  includes (dynamicValid s) (Fin q) = Some v ->
  (q == inject_Z v)%Q /\ 0 <= v /\ allowedStake s (Fin q).
Proof.
  unfold includes, dynamicValid, allowedStake.
  destruct (2 <? teamLimit s) eqn:Hl; simpl;
    repeat (match goal with
            | |- context [Qeq_bool ?a ?b] =>
                destruct (Qeq_bool a b) eqn:?
            end; simpl);
    intros Hv; inversion Hv; subst; clear Hv;
    match goal with
    | H : Qeq_bool _ _ = true |- _ => apply Qeq_bool_iff in H
    end;
    (split; [assumption | split; [lia |]]);
    try apply Z.ltb_lt in Hl; auto 6.
Qed.

Lemma includes_None (s : State) (r : jsnum) :
  includes (dynamicValid s) r = None -> ~ allowedStake s r.
Proof.
  destruct r as [q|]; [| intros _ []].
  unfold includes, dynamicValid, allowedStake.
  destruct (2 <? teamLimit s) eqn:Hl; simpl;
    repeat (match goal with
            | |- context [Qeq_bool ?a ?b] =>
                destruct (Qeq_bool a b) eqn:?
            end; simpl);
    try discriminate; intros _;
    repeat match goal with
           | H : Qeq_bool _ _ = false |- _ => apply Qeq_bool_neq in H
           end.
  - intros [H|[H|[H|[_ H]]]]; auto.
  - apply Z.ltb_ge in Hl. intros [H|[H|[H|[H' _]]]]; auto; lia.
Qed.

Lemma coerceStake_nonneg (s : State) (t : Team.t) (r : jsnum) :
  0 <= coerceStake s t r.
Proof.
  unfold coerceStake.
  destruct (includes (dynamicValid s) r) as [v|] eqn:Hi; simpl.
  - destruct r as [q|]; [| discriminate].
    apply includes_Some in Hi as (_ & Hv & _).
    destruct ((Team.coins t <? 3) && (0 <? v))%bool; lia.
  - destruct ((Team.coins t <? 3) && (0 <? 0))%bool; lia.
Qed.

Lemma coerceStake_not_allowed (s : State) (t : Team.t) (r : jsnum) :
  ~ allowedStake s r -> coerceStake s t r = 0.
Proof.
  intros Hn. unfold coerceStake.
  destruct (includes (dynamicValid s) r) as [v|] eqn:Hi; simpl.
  - destruct r as [q|]; [| discriminate].
    apply includes_Some in Hi as (_ & _ & Hal). contradiction.
  - rewrite andb_false_r. reflexivity.
Qed.

Lemma coerceStake_poor (s : State) (t : Team.t) (r : jsnum) :
  Team.coins t < 3 -> coerceStake s t r = 0.
Proof.
  intros Hc. pose proof (coerceStake_nonneg s t r) as Hn. revert Hn.
  unfold coerceStake.
  apply Z.ltb_lt in Hc. rewrite Hc. simpl.
  destruct (0 <? default 0 (includes (dynamicValid s) r)) eqn:Hp; [reflexivity |].
  apply Z.ltb_ge in Hp. lia.
Qed.

Lemma coerceStake_allowed (s : State) (t : Team.t) (q : Q) :
  allowedStake s (Fin q) -> 3 <= Team.coins t ->
  (q == inject_Z (coerceStake s t (Fin q)))%Q.
Proof.
  intros Hal Hc. unfold coerceStake.
  apply Z.ltb_ge in Hc. rewrite Hc. simpl.
  destruct (List.find _ (dynamicValid s)) as [v|] eqn:Hi.
  - apply (includes_Some s q v) in Hi as (Hq & _ & _). exact Hq.
  - exfalso. apply (includes_None s (Fin q)); assumption.
Qed.

(** C8.  A stake request of a registered team.  Outside the STAKE phase the
    stakes map is unchanged.  In the STAKE phase an entry is stored for the
    team: its amount is 0 when the requested amount is outside the allowed
    set ({0,3,6}, with 9 when the team limit exceeds 2) and 0 when the bank
    is below 3; an allowed amount is stored as it is when the bank is at
    least 3; the joker flag is stored as true exactly when it was asked
    for, the stored amount is positive and the team holds a joker. *)
Theorem teamSetStake_stores_coerced_stake
    (w : World) (id : string) (t : Team.t) (requested : jsnum) (joker : bool) :
  teams w !! id = Some t ->
  let w' := teamSetStake id requested joker w in
  (phase (st w) <> STAKE -> stakes (st w') = stakes (st w))
  /\ (phase (st w) = STAKE ->
      exists e, stakes (st w') !! id = Some e
        /\ (~ allowedStake (st w) requested -> stake e = 0)
        /\ (Team.coins t < 3 -> stake e = 0)
        /\ (forall q, requested = Fin q -> allowedStake (st w) requested ->
            3 <= Team.coins t -> (q == inject_Z (stake e))%Q)
        /\ (useJoker e = true <->
            joker = true /\ 0 < stake e /\ 0 < Team.quizJoker t)).
Proof.
  intros Ht w'. subst w'. unfold teamSetStake. split.
  - intros Hp. destruct (decide (phase (st w) = STAKE)); [contradiction | done].
  - intros Hp. destruct (decide (phase (st w) = STAKE)); [| contradiction].
    rewrite Ht. simpl. rewrite lookup_insert_eq. eexists. split; [reflexivity |].
    simpl. split; [apply coerceStake_not_allowed |].
    split; [apply coerceStake_poor |].
    split.
    + intros q -> Hal Hc. apply coerceStake_allowed; assumption.
    + rewrite !andb_true_iff, !Z.ltb_lt. tauto.
Qed.

(** Team A, bank 24, asks for 5 in the STAKE phase: 0 is stored. *)
Lemma teamSetStake_stores_coerced_stake_witness :
  teams (mkWorld (exState STAKE 0 ∅ 0 0) (exTeams 24 2)) !! "A"
    = Some (exTeam "A" 24 1)
  /\ phase (st (mkWorld (exState STAKE 0 ∅ 0 0) (exTeams 24 2))) = STAKE
  /\ exists e,
       stakes (st (teamSetStake "A" (Fin (5 # 1)) true
                     (mkWorld (exState STAKE 0 ∅ 0 0) (exTeams 24 2)))) !! "A"
         = Some e
       /\ stake e = 0.
Proof.
  split; [reflexivity |]. split; [reflexivity |].
  destruct (teamSetStake_stores_coerced_stake
              (mkWorld (exState STAKE 0 ∅ 0 0) (exTeams 24 2))
              "A" (exTeam "A" 24 1) (Fin (5 # 1)) true eq_refl) as [_ H].
  destruct (H eq_refl) as (e & He & Hna & _).
  exists e. split; [exact He |].
  apply Hna. simpl. unfold Qeq. simpl. lia.
Defined.

(** ** Locking the stakes *)

(** The debit loop, read per team: a team with a stake entry is debited
    once, every other team is untouched. *)
Lemma debitStakes_lookup (sk : gmap string StakeEntry)
    (ts : gmap string Team.t) (tid : string) :
  debitStakes sk ts !! tid =
    match sk !! tid with
    | Some e => debit e <$> ts !! tid
    | None => ts !! tid
    end.
Proof.
  unfold debitStakes. revert tid.
  apply (map_fold_weak_ind
           (fun r m => forall tid,
                r !! tid = match m !! tid with
                           | Some e => debit e <$> ts !! tid
                           | None => ts !! tid
                           end)).
  - intros tid. rewrite lookup_empty. reflexivity.
  - intros i x m r Hi IH tid.
    pose proof (IH i) as Hri. rewrite Hi in Hri.
    destruct (decide (i = tid)) as [->|Hne].
    + rewrite lookup_insert_eq. rewrite Hri.
      destruct (ts !! tid) as [t|] eqn:Ht; simpl.
      * rewrite lookup_insert_eq. reflexivity.
      * rewrite Hri. reflexivity.
    + rewrite (lookup_insert_ne m i tid x Hne).
      destruct (r !! i) as [t|]; [| apply IH].
      rewrite lookup_insert_ne by exact Hne. apply IH.
Qed.

Lemma debitStakes_empty (ts : gmap string Team.t) : debitStakes ∅ ts = ts.
Proof. unfold debitStakes. apply map_fold_empty. Qed.

(** The two [reduce] calls are the sums over the entries. *)
Lemma reduce_sumOver (f : StakeEntry -> Z) (sk : gmap string StakeEntry) :
  map_fold (fun _ e a => a + f e) 0 sk = sumOver f sk.
Proof.
  rewrite map_fold_foldr. unfold sumOver.
  induction (map_to_list sk) as [|[k e] l IH]; simpl; [reflexivity |].
  rewrite IH. apply Z.add_comm.
Qed.

Lemma foldr_add_nonneg (l : list Z) :
  Forall (fun x => 0 <= x) l -> 0 <= foldr Z.add 0 l.
Proof. induction 1 as [|x l Hx _ IH]; simpl; lia. Qed.

Lemma sumOver_nonneg (f : StakeEntry -> Z) (sk : gmap string StakeEntry) :
  (forall id e, sk !! id = Some e -> 0 <= f e) -> 0 <= sumOver f sk.
Proof.
  intros H. unfold sumOver. apply foldr_add_nonneg.
  apply Forall_fmap, Forall_forall. intros [k e] Hin.
  apply elem_of_map_to_list in Hin. simpl. eauto.
Qed.

Lemma categoryPot_adminLockStakes (w : World) :
  categoryPot (st (adminLockStakes w))
  = sumOver stake (stakes (st w))
    + sumOver (fun e => if useJoker e then stake e else 0) (stakes (st w))
    + 3.
Proof.
  unfold adminLockStakes, sumEinsatz, jokerExtra. simpl.
  rewrite (reduce_sumOver stake).
  rewrite (reduce_sumOver (fun e => if useJoker e then stake e else 0)).
  reflexivity.
Qed.

(** ** What the helpers leave alone *)

Lemma categoryPot_markRoundResolved (flag : bool) (s : State) :
  categoryPot (markRoundResolved flag s) = categoryPot s.
Proof.
  unfold markRoundResolved.
  destruct (currentRoundKey s); [destruct flag |]; reflexivity.
Qed.

Lemma categoryPot_emitPendingResult (s : State) :
  categoryPot (emitPendingResult s) = categoryPot s.
Proof. unfold emitPendingResult. destruct (pendingResult s); reflexivity. Qed.

Lemma categoryPot_uncredit (last : Result.t) (s : State) (id : string) :
  categoryPot (uncredit last s id) = categoryPot s.
Proof.
  unfold uncredit.
  branches; reflexivity.
Qed.

Lemma categoryPot_foldl_uncredit (last : Result.t) (ids : list string)
    (s : State) :
  categoryPot (foldl (uncredit last) s ids) = categoryPot s.
Proof.
  revert s. induction ids as [|id ids IH]; intros s; simpl; [reflexivity |].
  rewrite IH. apply categoryPot_uncredit.
Qed.

Lemma categoryPot_recordResolution (now : Z) (x : Settlement) (w : World) :
  categoryPot (st (recordResolution now x w)) = categoryPot (st w).
Proof.
  unfold recordResolution.
  cbn [st]. rewrite categoryPot_emitPendingResult.
  cbn [set_pendingResult categoryPot].
  rewrite categoryPot_markRoundResolved. reflexivity.
Qed.

(** Every command that is not one of the five writers leaves the pot as it
    is. *)
Lemma categoryPot_step (window now : Z) (c : Command) (w : World) :
  writesPot c = false ->
  categoryPot (st (step window now c w)) = categoryPot (st w).
Proof.
  destruct c; simpl; try discriminate; intros _.
  - unfold teamJoin. destruct (teams w !! id); reflexivity.
  - unfold teamSetStake.
    destruct (decide _); [destruct (teams w !! id) |]; reflexivity.
  - unfold teamSubmitBuzz.
    branches; reflexivity.
  - unfold adminTeamUpdate. destruct (teams w !! id); reflexivity.
  - unfold adminTeamKick. destruct (_ && _)%bool; reflexivity.
  - unfold adminSetTeamLimit. destruct (_ =? _); reflexivity.
  - unfold adminResolveRound.
    destruct (decide _); [| reflexivity].
    destruct (isRoundResolved _); [reflexivity |].
    destruct (settle _ _ _); [| reflexivity].
    apply categoryPot_recordResolution.
  - unfold adminRoundEnd.
    branches; reflexivity.
  - unfold adminRoundUndo.
    destruct (decide _); [| reflexivity].
    destruct (isRoundResolved _); [| reflexivity]. simpl.
    rewrite categoryPot_markRoundResolved. simpl.
    destruct (resultOfRound _).
    + rewrite categoryPot_foldl_uncredit. destruct carry; reflexivity.
    + destruct carry; reflexivity.
  - unfold adminRoundNext, moveRound.
    destruct (decide _); [| reflexivity]. simpl.
    destruct (decide _); simpl;
      rewrite categoryPot_markRoundResolved; reflexivity.
  - unfold adminRoundPrev, moveRound.
    destruct (decide _); [| reflexivity]. simpl.
    destruct (decide _); simpl;
      rewrite categoryPot_markRoundResolved; reflexivity.
  - reflexivity.
  - unfold adminTimerStop. simpl.
    destruct (timerEndsAt (st w)); [destruct (negb _) |]; reflexivity.
  - reflexivity.
  - unfold adminTimerResume. destruct (_ && _)%bool; reflexivity.
  - unfold adminElchDraw. destruct (decide _); reflexivity.
  - unfold adminElchSetLock. destruct (decide _); reflexivity.
  - unfold adminElchClearBuzz. destruct (decide _); reflexivity.
  - unfold adminElchConfirm.
    destruct (decide _); [| reflexivity].
    destruct (decide _); [| reflexivity].
    destruct (isRoundResolved (st w)) eqn:Hr; [reflexivity |].
    match goal with
    | |- context [match ?o with Some _ => _ | None => _ end] =>
        destruct o as [x|]
    end; [| reflexivity].
    destruct (_ && _)%bool; [| reflexivity].
    unfold adminResolveRound. simpl.
    destruct (decide _); [| reflexivity].
    destruct (isRoundResolved _); [reflexivity |].
    destruct (settle _ _ _); [| reflexivity].
    rewrite categoryPot_recordResolution. reflexivity.
  - unfold adminElchUnlock.
    destruct (decide _); [destruct (Elch.exhausted _) |]; reflexivity.
  - unfold adminRaceSet. destruct mode; reflexivity.
  - unfold timerTick.
    destruct (timerEndsAt (st w)); [destruct (_ && _)%bool |]; reflexivity.
  - unfold elchAutoUnlock.
    destruct (_ && _)%bool; [| reflexivity].
    destruct (Elch.buzzAnswerEndsAt _); [destruct (_ && _)%bool |];
      reflexivity.
  - reflexivity.
Qed.

Lemma categoryPot_run (window : Z) (cmds : list (Z * Command)) (w : World) :
  Forall (fun tc => writesPot (snd tc) = false) cmds ->
  categoryPot (st (run window cmds w)) = categoryPot (st w).
Proof.
  intros H. revert w. unfold run.
  induction H as [|[now c] l Hc _ IH]; intros w; simpl; [reflexivity |].
  rewrite IH. apply categoryPot_step. exact Hc.
Qed.

(** The four transitions are not the only writers of the pot: after a
    lock (pot 6 + 3 = 9), kicking the staking team and locking again
    changes it (pot 3) although no category start, finish, lobby or reset
    took place. *)
Lemma categoryPot_not_fixed_until_transition :
  ~ (forall (window : Z) (w : World) (cmds : list (Z * Command)),
        Forall (fun tc => endsPot (snd tc) = false) cmds ->
        categoryPot (st (run window cmds (adminLockStakes w)))
        = categoryPot (st (adminLockStakes w))).
Proof.
  intros H.
  specialize (H 45000 exStaked [(4, AdminTeamKick "A"); (5, AdminLockStakes)]).
  assert (Hc : Forall (fun tc : Z * Command => endsPot (snd tc) = false)
                 [(4, AdminTeamKick "A"); (5, AdminLockStakes)])
    by (repeat constructor).
  specialize (H Hc). vm_compute in H. discriminate H.
Qed.

(** C5 (amended).  At every lock the pot becomes the sum of the staked
    amounts plus the staked amounts of the entries with a joker plus 3;
    every team with a stake entry is debited by its stake, floored at 0,
    and loses its joker when the entry applies one; teams without an entry
    are untouched; and the pot keeps its value under every sequence of
    commands that contains no lock, category start, category finish, lobby
    or full reset. *)
Theorem adminLockStakes_pot_and_debits (w : World) :
  let w' := adminLockStakes w in
  categoryPot (st w')
    = sumOver stake (stakes (st w))
      + sumOver (fun e => if useJoker e then stake e else 0) (stakes (st w))
      + 3
  /\ (forall tid t e,
        teams w !! tid = Some t -> stakes (st w) !! tid = Some e ->
        exists t', teams w' !! tid = Some t'
          /\ Team.coins t' = Z.max 0 (Team.coins t - stake e)
          /\ Team.quizJoker t' = if useJoker e then 0 else Team.quizJoker t)
  /\ (forall tid, stakes (st w) !! tid = None ->
        teams w' !! tid = teams w !! tid)
  /\ (forall window cmds,
        Forall (fun tc => writesPot (snd tc) = false) cmds ->
        categoryPot (st (run window cmds w')) = categoryPot (st w')).
Proof.
  intros w'. subst w'. split; [apply categoryPot_adminLockStakes |].
  split; [| split].
  - intros tid t e Ht He. exists (debit e t).
    unfold adminLockStakes. simpl.
    rewrite debitStakes_lookup, He, Ht. split; [reflexivity |].
    unfold debit. destruct (useJoker e); simpl; split; reflexivity.
  - intros tid He. unfold adminLockStakes. simpl.
    rewrite debitStakes_lookup, He. reflexivity.
  - intros window cmds H. apply categoryPot_run. exact H.
Qed.

(** Team A, bank 4, has staked 6 with its joker: the lock leaves it with
    0 coins and no joker. *)
Lemma adminLockStakes_pot_and_debits_witness :
  teams (mkWorld (exState STAKE 0 {["A" := mkStake 6 true]} 0 0)
                 (exTeams 4 24)) !! "A" = Some (exTeam "A" 4 1)
  /\ stakes (exState STAKE 0 {["A" := mkStake 6 true]} 0 0) !! "A"
     = Some (mkStake 6 true)
  /\ exists t',
       teams (adminLockStakes
                (mkWorld (exState STAKE 0 {["A" := mkStake 6 true]} 0 0)
                         (exTeams 4 24))) !! "A" = Some t'
       /\ Team.coins t' = 0 /\ Team.quizJoker t' = 0.
Proof.
  split; [reflexivity |]. split; [reflexivity |].
  exact (proj1 (proj2 (adminLockStakes_pot_and_debits
                         (mkWorld (exState STAKE 0 {["A" := mkStake 6 true]} 0 0)
                                  (exTeams 4 24))))
           "A" (exTeam "A" 4 1) (mkStake 6 true) eq_refl eq_refl).
Defined.

(** A lock outside the STAKE phase is not a no-op: here the stakes are
    locked a second time, in phase CATEGORY, and team A is debited again,
    from 15 coins to 6. *)
Lemma adminLockStakes_not_noop_outside_STAKE :
  ~ (forall w : World, phase (st w) <> STAKE -> adminLockStakes w = w).
Proof.
  intros H. specialize (H exLocked).
  assert (Hp : phase (st exLocked) <> STAKE) by (vm_compute; discriminate).
  specialize (H Hp).
  apply (f_equal (fun x => Team.coins <$> teams x !! "A")) in H.
  vm_compute in H. discriminate H.
Qed.

(** An entry debits nothing when the balance is already what the floor
    leaves and no joker is there to consume. *)
Lemma debit_fixed (e : StakeEntry) (t : Team.t) :
  debit e t = t
  <-> Z.max 0 (Team.coins t - stake e) = Team.coins t
      /\ (useJoker e = true -> Team.quizJoker t = 0).
Proof.
  destruct t as [i n a c j ja]. unfold debit.
  destruct (useJoker e); simpl; split.
  - intros [= Hc Hj]. split; [exact Hc |]. intros _. symmetry. exact Hj.
  - intros [Hc Hj]. rewrite Hc, <- (Hj eq_refl). reflexivity.
  - intros [= Hc]. split; [exact Hc |]. intros [=].
  - intros [Hc _]. rewrite Hc. reflexivity.
Qed.

(** C4 (amended).  [adminLockStakes] does not look at the phase: in every
    state it moves to CATEGORY, recomputes the pot from the stakes map and
    debits every team that has a stake entry.  The teams are all left as
    they are exactly when no stake entry of a registered team debits
    anything: the balance already equals the floored difference and, where
    the entry applies a joker, the team holds none.  An empty stakes map is
    such a case, and the pot is then 3. *)
Theorem adminLockStakes_in_every_phase (w : World) :
  let w' := adminLockStakes w in
  phase (st w') = CATEGORY
  /\ categoryPot (st w')
     = sumOver stake (stakes (st w))
       + sumOver (fun e => if useJoker e then stake e else 0) (stakes (st w))
       + 3
  /\ (forall tid,
        teams w' !! tid
        = match stakes (st w) !! tid with
          | Some e => debit e <$> teams w !! tid
          | None => teams w !! tid
          end)
  /\ (teams w' = teams w
      <-> forall tid e t,
            stakes (st w) !! tid = Some e -> teams w !! tid = Some t ->
            Z.max 0 (Team.coins t - stake e) = Team.coins t
            /\ (useJoker e = true -> Team.quizJoker t = 0))
  /\ (stakes (st w) = ∅ -> teams w' = teams w /\ categoryPot (st w') = 3).
Proof.
  intros w'. subst w'. split; [reflexivity |].
  split; [apply categoryPot_adminLockStakes |].
  assert (Hl : forall tid,
             teams (adminLockStakes w) !! tid
             = match stakes (st w) !! tid with
               | Some e => debit e <$> teams w !! tid
               | None => teams w !! tid
               end).
  { intros tid. unfold adminLockStakes. simpl. apply debitStakes_lookup. }
  split; [exact Hl |]. split.
  - split.
    + intros Heq tid e t He Ht. apply debit_fixed.
      pose proof (Hl tid) as H. rewrite Heq, He, Ht in H. simpl in H.
      injection H as H. symmetry. exact H.
    + intros Hfix. apply map_eq. intros tid. rewrite Hl.
      destruct (stakes (st w) !! tid) as [e|] eqn:He; [| reflexivity].
      destruct (teams w !! tid) as [t|] eqn:Ht; [| reflexivity].
      simpl. f_equal. apply debit_fixed. exact (Hfix tid e t He Ht).
  - intros He. unfold adminLockStakes. simpl. rewrite He.
    rewrite debitStakes_empty. unfold sumEinsatz, jokerExtra.
    rewrite !map_fold_empty. split; reflexivity.
Qed.

(** A second lock of the game [exLocked], in phase CATEGORY: team A, whose
    entry is 9 with the joker, goes from 15 coins to 6, and the pot is
    computed again, 9 + 9 + 9 + 3.  A lock in phase LOBBY with the single
    entry 0 without joker for team A leaves the teams as they are. *)
Lemma adminLockStakes_in_every_phase_witness :
  phase (st exLocked) = CATEGORY
  /\ stakes (st exLocked) !! "A" = Some (mkStake 9 true)
  /\ Team.coins <$> teams exLocked !! "A" = Some 15
  /\ Team.coins <$> teams (adminLockStakes exLocked) !! "A" = Some 6
  /\ categoryPot (st (adminLockStakes exLocked)) = 30
  /\ teams (adminLockStakes
              (mkWorld (exState LOBBY 0 {["A" := mkStake 0 false]} 0 0)
                       (exTeams 24 24)))
     = exTeams 24 24.
Proof.
  split; [vm_compute; reflexivity |]. split; [vm_compute; reflexivity |].
  split; [vm_compute; reflexivity |].
  pose proof (adminLockStakes_in_every_phase exLocked) as (_ & Hpot & Hl & _).
  split; [rewrite (Hl "A"); vm_compute; reflexivity |].
  split; [rewrite Hpot; vm_compute; reflexivity |].
  apply (proj2 (proj1 (proj2 (proj2 (proj2
           (adminLockStakes_in_every_phase
              (mkWorld (exState LOBBY 0 {["A" := mkStake 0 false]} 0 0)
                       (exTeams 24 24)))))))).
  intros tid e t He Ht.
  destruct (decide (tid = "A")) as [->|Hne].
  - vm_compute in He. injection He as <-.
    vm_compute in Ht. injection Ht as <-.
    split; [reflexivity | intros [=]].
  - cbn [st exState set_carryRound set_categoryPot set_stakes stakes] in He.
    rewrite lookup_singleton_ne in He by congruence. discriminate He.
Defined.

(** ** Resolving a round *)

Lemma uniq_elem_of (l : list string) (x : string) : x ∈ uniq l <-> x ∈ l.
Proof.
  induction l as [|y l IH]; simpl; [reflexivity |].
  rewrite !elem_of_cons, list_elem_of_filter, IH.
  destruct (decide (x = y)) as [->|Hne]; [tauto |].
  split; [intros [?|[_ ?]] | intros [?|?]]; tauto.
Qed.

Lemma uniq_NoDup (l : list string) : NoDup (uniq l).
Proof.
  induction l as [|y l IH]; simpl; [constructor |].
  constructor.
  - rewrite list_elem_of_filter. intros [Hne _]. apply Hne. reflexivity.
  - apply NoDup_filter, IH.
Qed.

Lemma uniqueIds_NoDup (ts : gmap string Team.t) (wis : option (list jsid)) :
  NoDup (uniqueIds ts wis).
Proof. unfold uniqueIds. apply NoDup_filter, uniq_NoDup. Qed.

Lemma uniqueIds_registered (ts : gmap string Team.t)
    (wis : option (list jsid)) (id : string) :
  id ∈ uniqueIds ts wis -> is_Some (ts !! id).
Proof.
  unfold uniqueIds. rewrite list_elem_of_filter. intros [H _]. exact H.
Qed.

Lemma credit_teams (gain : Z) (b : Books) (x id : string) :
  b_teams (credit gain b x) !! id
  = if decide (id = x) then addCoins gain <$> b_teams b !! id
    else b_teams b !! id.
Proof.
  unfold credit. destruct (decide (id = x)) as [->|Hne].
  - destruct (b_teams b !! x) as [t|] eqn:Ht; simpl.
    + rewrite lookup_insert_eq. reflexivity.
    + rewrite Ht. reflexivity.
  - destruct (b_teams b !! x) as [t|] eqn:Ht; simpl; [| reflexivity].
    rewrite lookup_insert_ne by congruence. reflexivity.
Qed.

(** The winner loop, read per team: each listed team gains once. *)
Lemma foldl_credit_teams (gain : Z) (ids : list string) (b : Books)
    (id : string) :
  NoDup ids ->
  b_teams (foldl (credit gain) b ids) !! id
  = if decide (id ∈ ids) then addCoins gain <$> b_teams b !! id
    else b_teams b !! id.
Proof.
  intros Hnd. revert b.
  induction Hnd as [|x l Hx Hnd IH]; intros b; simpl.
  - destruct (decide (id ∈ [])) as [Hin|]; [| reflexivity].
    apply elem_of_nil in Hin. contradiction.
  - rewrite IH, credit_teams.
    destruct (decide (id = x)) as [->|Hne].
    + destruct (decide (x ∈ l)); [contradiction |].
      destruct (decide (x ∈ x :: l)) as [|Hn]; [reflexivity |].
      exfalso. apply Hn. left.
    + destruct (decide (id ∈ l)) as [Hin|Hnin].
      * destruct (decide (id ∈ x :: l)) as [|Hn]; [reflexivity |].
        exfalso. apply Hn. right. exact Hin.
      * destruct (decide (id ∈ x :: l)) as [Hin|]; [| reflexivity].
        apply elem_of_cons in Hin as [?|?]; contradiction.
Qed.

Lemma currentRoundKey_recorded (s : State) (rw ce : gmap string Z) (c : Z) :
  currentRoundKey (set_categoryEarnings ce (set_roundWins rw (set_carryRound c s)))
  = currentRoundKey s.
Proof. reflexivity. Qed.

(** What the block under [if (resolved)] leaves in the world. *)
Lemma recordResolution_effects (now : Z) (x : Settlement) (w : World) :
  let w' := recordResolution now x w in
  teams w' = b_teams (s_books x)
  /\ carryRound (st w') = s_carryRound x
  /\ roundWins (st w') = b_roundWins (s_books x)
  /\ categoryEarnings (st w') = b_categoryEarnings (s_books x)
  /\ phase (st w') = phase (st w)
  /\ currentRoundKey (st w') = currentRoundKey (st w)
  /\ (forall k, currentRoundKey (st w) = Some k -> k ∈ resolvedRounds (st w')).
Proof.
  unfold recordResolution. cbn [st teams].
  unfold emitPendingResult. cbn [pendingResult set_pendingResult].
  unfold markRoundResolved. rewrite currentRoundKey_recorded.
  destruct (currentRoundKey (st w)) as [k|] eqn:Hk; simpl;
    repeat split; try reflexivity; try assumption.
  - intros k' [= <-]. set_solver.
  - intros k' [=].
Qed.

Lemma isRoundResolved_recordResolution (now : Z) (x : Settlement) (w : World)
    (k : RoundKey) :
  currentRoundKey (st w) = Some k ->
  isRoundResolved (st (recordResolution now x w)) = true.
Proof.
  intros Hk.
  destruct (recordResolution_effects now x w) as (_ & _ & _ & _ & _ & Hk' & Hin).
  unfold isRoundResolved. rewrite Hk', Hk.
  apply bool_decide_eq_true. apply Hin. exact Hk.
Qed.

(** An open round in the CATEGORY phase with a settlement is resolved. *)
Lemma adminResolveRound_resolves (now : Z) (winnerId : jsid)
    (winnerIds : option (list jsid)) (w : World) (x : Settlement) :
  phase (st w) = CATEGORY ->
  isRoundResolved (st w) = false ->
  settle winnerId winnerIds w = Some x ->
  adminResolveRound now winnerId winnerIds w = recordResolution now x w.
Proof.
  intros Hp Hr Hs. unfold adminResolveRound.
  destruct (decide (phase (st w) = CATEGORY)); [| contradiction].
  rewrite Hr, Hs. reflexivity.
Qed.

(** A round without a key is paid at every call.  Team A joins and the
    stakes are locked from the lobby: the phase is CATEGORY, no category is
    set and [roundKeyFor] gives no key.  A call for A pays one coin, a third
    of the pot of 3, and [markRoundResolved] returns without marking; the
    next call pays again: 24, 25, 26 coins. *)
Lemma adminResolveRound_keyless_round_paid_twice :
  ~ (forall (now now' : Z) (winnerId winnerId' : jsid)
            (winnerIds winnerIds' : option (list jsid))
            (w : World) (x : Settlement),
        phase (st w) = CATEGORY ->
        isRoundResolved (st w) = false ->
        settle winnerId winnerIds w = Some x ->
        let w1 := adminResolveRound now winnerId winnerIds w in
        teams (adminResolveRound now' winnerId' winnerIds' w1) = teams w1).
Proof.
  intros H.
  pose (w := run 45000 [(0, TeamJoin "A" None None); (1, AdminLockStakes)]
               initial_world).
  destruct (settle (Str "A") None w) as [x|] eqn:Hs;
    [| vm_compute in Hs; discriminate Hs].
  specialize (H 2 3 (Str "A") (Str "A") None None w x eq_refl eq_refl Hs).
  apply (f_equal (fun ts => Team.coins <$> ts !! "A")) in H.
  vm_compute in H. discriminate H.
Qed.

(** C2 (amended).  Resolution is applied once per round key.  Outside the
    CATEGORY phase a call changes nothing.  In the CATEGORY phase, when the
    current round has a key (a category is set), once a call has resolved
    the round (it was open, and the winner arguments led to a settlement),
    the round is marked resolved and every further call, with any winner
    arguments and at any time, leaves the whole world as it is: balances,
    carry, round wins, category earnings and the pending result
    included. *)
Theorem adminResolveRound_idempotent
    (now : Z) (winnerId : jsid) (winnerIds : option (list jsid)) (w : World) :
  (phase (st w) <> CATEGORY -> adminResolveRound now winnerId winnerIds w = w)
  /\ (forall (k : RoundKey) (x : Settlement),
        phase (st w) = CATEGORY ->
        currentRoundKey (st w) = Some k ->
        isRoundResolved (st w) = false ->
        settle winnerId winnerIds w = Some x ->
        let w1 := adminResolveRound now winnerId winnerIds w in
        isRoundResolved (st w1) = true
        /\ forall now' winnerId' winnerIds',
             adminResolveRound now' winnerId' winnerIds' w1 = w1).
Proof.
  split.
  - intros Hp. unfold adminResolveRound.
    destruct (decide (phase (st w) = CATEGORY)); [contradiction | reflexivity].
  - intros k x Hp Hk Hr Hs w1. subst w1.
    rewrite (adminResolveRound_resolves now winnerId winnerIds w x Hp Hr Hs).
    pose proof (isRoundResolved_recordResolution now x w k Hk) as Hres.
    split; [exact Hres |].
    intros now' wi' wis'. unfold adminResolveRound.
    destruct (decide _); [| reflexivity].
    rewrite Hres. reflexivity.
Qed.

(** Round 0 of "Hase" is resolved for team A; a later call that names a
    tie and "no winner" changes nothing. *)
Lemma adminResolveRound_idempotent_witness :
  phase (exState CATEGORY 0 ∅ 30 5) = CATEGORY
  /\ currentRoundKey (exState CATEGORY 0 ∅ 30 5) = Some ("Hase", 0)
  /\ isRoundResolved (exState CATEGORY 0 ∅ 30 5) = false
  /\ adminResolveRound 9 Null (Some [Str "B"; Str "A"])
       (adminResolveRound 7 (Str "A") None
          (mkWorld (exState CATEGORY 0 ∅ 30 5) (exTeams 24 24)))
     = adminResolveRound 7 (Str "A") None
         (mkWorld (exState CATEGORY 0 ∅ 30 5) (exTeams 24 24)).
Proof.
  split; [reflexivity |]. split; [reflexivity |]. split; [reflexivity |].
  destruct (settle (Str "A") None
              (mkWorld (exState CATEGORY 0 ∅ 30 5) (exTeams 24 24)))
    as [x|] eqn:Hs; [| vm_compute in Hs; discriminate Hs].
  exact (proj2 (proj2 (adminResolveRound_idempotent 7 (Str "A") None
                         (mkWorld (exState CATEGORY 0 ∅ 30 5) (exTeams 24 24)))
                  ("Hase", 0) x eq_refl eq_refl eq_refl Hs)
           9 Null (Some [Str "B"; Str "A"])).
Defined.

Lemma truthy_nonempty (x : string) : x <> "" -> truthy x = true.
Proof.
  intros H. unfold truthy. apply negb_true_iff, String.eqb_neq. exact H.
Qed.

(** The settlement of a single winner [id]: named alone in [winnerIds], or
    named by [winnerId] when [winnerIds] names no registered team. *)
Lemma settle_single (winnerId : jsid) (winnerIds : option (list jsid))
    (w : World) (id : string) (t : Team.t) :
  teams w !! id = Some t -> id <> "" ->
  (uniqueIds (teams w) winnerIds = [id]
   \/ (uniqueIds (teams w) winnerIds = [] /\ winnerId = Str id)) ->
  settle winnerId winnerIds w
  = Some (mkSettlement
            (credit (categoryPot (st w) / ROUNDS_PER_CATEGORY + carryRound (st w))
                    (booksOf w) id)
            0 (Some id) [id] None).
Proof.
  intros Ht Hne Hw. unfold settle.
  assert (Hreg : (truthy id && bool_decide (is_Some (teams w !! id)))%bool = true).
  { rewrite truthy_nonempty by exact Hne. rewrite Ht. reflexivity. }
  destruct Hw as [-> | [-> ->]]; simpl; rewrite Hreg; reflexivity.
Qed.

(** The settlement of a tie: every listed team gains the share; the carry
    grows by the remainder while rounds remain and is left as it is in the
    last round. *)
Lemma settle_tie (winnerId : jsid) (winnerIds : option (list jsid)) (w : World) :
  let ids := uniqueIds (teams w) winnerIds in
  let n := Z.of_nat (length ids) in
  let totalPot := categoryPot (st w) / ROUNDS_PER_CATEGORY + carryRound (st w) in
  1 < n ->
  settle winnerId winnerIds w
  = Some (mkSettlement
            (foldl (credit (totalPot / n)) (booksOf w) ids)
            (if roundIndex (st w) <? ROUNDS_PER_CATEGORY - 1
             then carryRound (st w) + (totalPot - totalPot / n * n)
             else carryRound (st w))
            None ids (Some (totalPot / n))).
Proof.
  intros ids n totalPot Hn. unfold settle. fold ids. fold n.
  assert (H1 : (1 <? n) = true) by (apply Z.ltb_lt; exact Hn).
  assert (H0 : (n =? 0) = false) by (apply Z.eqb_neq; lia).
  rewrite H1, H0. reflexivity.
Qed.

(** A tie among [n > 1] registered teams, in general. *)
Lemma adminResolveRound_tie (now : Z) (winnerId : jsid)
    (winnerIds : option (list jsid)) (w : World) :
  let ids := uniqueIds (teams w) winnerIds in
  let n := Z.of_nat (length ids) in
  let totalPot := categoryPot (st w) / ROUNDS_PER_CATEGORY + carryRound (st w) in
  let share := totalPot / n in
  let remainder := totalPot - share * n in
  let w' := adminResolveRound now winnerId winnerIds w in
  phase (st w) = CATEGORY ->
  isRoundResolved (st w) = false ->
  1 < n ->
  (forall id t, id ∈ ids -> teams w !! id = Some t ->
     exists t', teams w' !! id = Some t'
                /\ Team.coins t' = Team.coins t + share)
  /\ (forall id, id ∉ ids -> teams w' !! id = teams w !! id)
  /\ carryRound (st w')
     = (if roundIndex (st w) <? 2 then carryRound (st w) + remainder
        else carryRound (st w)).
Proof.
  intros ids n totalPot share remainder w' Hp Hr Hn. subst w'.
  rewrite (adminResolveRound_resolves now winnerId winnerIds w _ Hp Hr
             (settle_tie winnerId winnerIds w Hn)).
  match goal with
  | |- context [recordResolution now ?x w] =>
      destruct (recordResolution_effects now x w) as (Ht & Hc & _)
  end.
  cbn [s_books s_carryRound] in Ht, Hc.
  split; [| split].
  - intros id t Hin Hlk. rewrite Ht.
    rewrite foldl_credit_teams by apply uniqueIds_NoDup.
    fold ids. destruct (decide (id ∈ ids)); [| contradiction].
    cbn [booksOf b_teams]. rewrite Hlk. eexists. split; reflexivity.
  - intros id Hnin. rewrite Ht.
    rewrite foldl_credit_teams by apply uniqueIds_NoDup.
    fold ids. destruct (decide (id ∈ ids)); [contradiction | reflexivity].
  - rewrite Hc. reflexivity.
Qed.

(** C1.  The code at a tie in the second round of a category with pot 30,
    after a first round without winner (carry 10): the two winners share
    the total pot 10 + 10 = 20 without remainder and gain 10 coins each,
    and the carry, which has just been paid out, is still 10 afterwards
    instead of the remainder 0.  A single winner of the last round then
    gains 10 + 10 = 20, so that 40 coins are paid from a pot of 30. *)
Theorem adminResolveRound_tie_keeps_paid_carry :
  let w := exSecondRound in
  let w' := adminResolveRound 8 Undefined (Some [Str "A"; Str "B"]) w in
  let w'' := run 45000 [(9, AdminRoundNext);
                        (10, AdminResolveRound (Str "A") None)] w' in
  phase (st w) = CATEGORY
  /\ isRoundResolved (st w) = false
  /\ roundIndex (st w) = 1
  /\ categoryPot (st w) = 30
  /\ carryRound (st w) = 10
  /\ Team.coins <$> teams w !! "A" = Some 15
  /\ Team.coins <$> teams w !! "B" = Some 15
  /\ uniqueIds (teams w) (Some [Str "A"; Str "B"]) = ["A"; "B"]
  /\ Team.coins <$> teams w' !! "A" = Some (15 + 20 / 2)
  /\ Team.coins <$> teams w' !! "B" = Some (15 + 20 / 2)
  /\ 20 - 20 / 2 * 2 = 0
  /\ carryRound (st w') = 10
  /\ Team.coins <$> teams w'' !! "A" = Some (25 + 20).
Proof. vm_compute. repeat split; reflexivity. Qed.

(** With pot 30 and carry 5 a single winner does not gain 20: the payout
    of a round is a third of the pot. *)
Lemma single_winner_example_not_20 :
  ~ (forall (now : Z) (w : World) (id : string) (t : Team.t),
        phase (st w) = CATEGORY -> isRoundResolved (st w) = false ->
        teams w !! id = Some t -> id <> "" ->
        categoryPot (st w) = 30 -> carryRound (st w) = 5 ->
        exists t', teams (adminResolveRound now (Str id) None w) !! id = Some t'
                   /\ Team.coins t' = Team.coins t + 20).
Proof.
  intros H.
  destruct (H 0 (mkWorld (exState CATEGORY 0 ∅ 30 5) (exTeams 24 24))
              "A" (exTeam "A" 24 1) eq_refl eq_refl eq_refl)
    as (t' & Ht' & Hc); try reflexivity; try discriminate.
  vm_compute in Ht'. inversion Ht'; subst t'. vm_compute in Hc. discriminate Hc.
Qed.

(** C3 (amended).  A single registered winner of an open round in the
    CATEGORY phase gains exactly floor(categoryPot / 3) + carryRound, every
    other team keeps its balance, and the carry is reset to 0; with pot 30
    and carry 5 the gain is 10 + 5 = 15. *)
Theorem adminResolveRound_single_winner
    (now : Z) (winnerId : jsid) (winnerIds : option (list jsid)) (w : World)
    (id : string) (t : Team.t) :
  phase (st w) = CATEGORY ->
  isRoundResolved (st w) = false ->
  teams w !! id = Some t ->
  id <> "" ->
  (uniqueIds (teams w) winnerIds = [id]
   \/ (uniqueIds (teams w) winnerIds = [] /\ winnerId = Str id)) ->
  let w' := adminResolveRound now winnerId winnerIds w in
  let totalPot := categoryPot (st w) / 3 + carryRound (st w) in
  (exists t', teams w' !! id = Some t'
              /\ Team.coins t' = Team.coins t + totalPot)
  /\ (forall other, other <> id -> teams w' !! other = teams w !! other)
  /\ carryRound (st w') = 0
  /\ (categoryPot (st w) = 30 -> carryRound (st w) = 5 -> totalPot = 15).
Proof.
  intros Hp Hr Ht Hne Hw w' totalPot. subst w'.
  rewrite (adminResolveRound_resolves now winnerId winnerIds w _ Hp Hr
             (settle_single winnerId winnerIds w id t Ht Hne Hw)).
  match goal with
  | |- context [recordResolution now ?x w] =>
      destruct (recordResolution_effects now x w) as (Hts & Hc & _)
  end.
  cbn [s_books s_carryRound] in Hts, Hc.
  split; [| split; [| split]].
  - rewrite Hts, credit_teams.
    destruct (decide (id = id)); [| contradiction].
    cbn [booksOf b_teams]. rewrite Ht. eexists. split; reflexivity.
  - intros other Ho. rewrite Hts, credit_teams.
    destruct (decide (other = id)); [contradiction | reflexivity].
  - exact Hc.
  - intros H30 H5. subst totalPot. rewrite H30, H5. reflexivity.
Qed.

(** Team A, bank 24, is the only registered id among the winners named;
    with pot 30 and carry 5 it ends with 24 + 15 coins. *)
Lemma adminResolveRound_single_winner_witness :
  phase (exState CATEGORY 0 ∅ 30 5) = CATEGORY
  /\ isRoundResolved (exState CATEGORY 0 ∅ 30 5) = false
  /\ exTeams 24 24 !! "A" = Some (exTeam "A" 24 1)
  /\ "A" <> ""
  /\ uniqueIds (exTeams 24 24) (Some [Str "A"; Str "zz"; Null]) = ["A"]
  /\ (exists t',
        teams (adminResolveRound 7 Undefined (Some [Str "A"; Str "zz"; Null])
                 (mkWorld (exState CATEGORY 0 ∅ 30 5) (exTeams 24 24))) !! "A"
        = Some t'
        /\ Team.coins t' = 24 + (30 / 3 + 5)).
Proof.
  split; [reflexivity |]. split; [reflexivity |]. split; [reflexivity |].
  split; [discriminate |]. split; [reflexivity |].
  exact (proj1 (adminResolveRound_single_winner 7 Undefined
                  (Some [Str "A"; Str "zz"; Null])
                  (mkWorld (exState CATEGORY 0 ∅ 30 5) (exTeams 24 24))
                  "A" (exTeam "A" 24 1) eq_refl eq_refl eq_refl
                  ltac:(discriminate) (or_introl eq_refl))).
Defined.

(** ** The ledger never goes negative *)

Lemma ledgerOk_intro (w : World) :
  teamsOk (teams w) -> stakesOk (stakes (st w)) ->
  0 <= categoryPot (st w) -> 0 <= carryRound (st w) -> ledgerOk w.
Proof. unfold ledgerOk, teamsOk, stakesOk. auto. Qed.

(** A command that writes neither the teams nor the three ledger fields
    keeps the invariant. *)
Lemma ledgerOk_frame (w w' : World) :
  teams w' = teams w ->
  stakes (st w') = stakes (st w) ->
  categoryPot (st w') = categoryPot (st w) ->
  carryRound (st w') = carryRound (st w) ->
  ledgerOk w -> ledgerOk w'.
Proof.
  unfold ledgerOk. intros -> -> -> ->. auto.
Qed.

Lemma teamsOk_insert (ts : gmap string Team.t) (id : string) (t : Team.t) :
  teamsOk ts -> 0 <= Team.coins t -> teamsOk (<[id := t]> ts).
Proof.
  intros H Ht i x. destruct (decide (id = i)) as [->|Hne].
  - rewrite lookup_insert_eq. intros [= <-]. exact Ht.
  - rewrite lookup_insert_ne by exact Hne. apply H.
Qed.

Lemma teamsOk_delete (ts : gmap string Team.t) (id : string) :
  teamsOk ts -> teamsOk (delete id ts).
Proof.
  intros H i x Hl. apply lookup_delete_Some in Hl as [_ Hl]. eapply H, Hl.
Qed.

Lemma stakesOk_delete (sk : gmap string StakeEntry) (id : string) :
  stakesOk sk -> stakesOk (delete id sk).
Proof.
  intros H i x Hl. apply lookup_delete_Some in Hl as [_ Hl]. eapply H, Hl.
Qed.

Lemma debit_nonneg (e : StakeEntry) (t : Team.t) : 0 <= Team.coins (debit e t).
Proof. unfold debit. destruct (useJoker e); simpl; lia. Qed.

Lemma floorClamp_nonneg (q : Q) : 0 <= floorClamp q.
Proof. unfold floorClamp. lia. Qed.

Lemma teamsOk_debitStakes (sk : gmap string StakeEntry) (ts : gmap string Team.t) :
  teamsOk ts -> teamsOk (debitStakes sk ts).
Proof.
  intros H id t. rewrite debitStakes_lookup.
  destruct (sk !! id) as [e|]; [| apply H].
  destruct (ts !! id) as [t0|]; simpl; [| discriminate].
  intros [= <-]. apply debit_nonneg.
Qed.

Lemma teamsOk_restoreCoins (m : gmap string jsnum) (ts : gmap string Team.t) :
  teamsOk ts -> teamsOk (restoreCoins m ts).
Proof.
  intros H. unfold restoreCoins.
  apply (map_fold_weak_ind (fun r _ => teamsOk r)); [exact H |].
  intros i v _ r _ IH.
  destruct v as [q|]; [| exact IH].
  destruct (r !! i) as [t|]; [| exact IH].
  apply teamsOk_insert; [exact IH |]. simpl. apply floorClamp_nonneg.
Qed.

Lemma teamsOk_credit (gain : Z) (b : Books) (x : string) :
  0 <= gain -> teamsOk (b_teams b) -> teamsOk (b_teams (credit gain b x)).
Proof.
  intros Hg H. unfold credit.
  destruct (b_teams b !! x) as [t|] eqn:Ht; simpl; [| exact H].
  apply teamsOk_insert; [exact H |]. simpl.
  specialize (H x t Ht). lia.
Qed.

Lemma teamsOk_foldl_credit (gain : Z) (ids : list string) (b : Books) :
  0 <= gain -> teamsOk (b_teams b) ->
  teamsOk (b_teams (foldl (credit gain) b ids)).
Proof.
  intros Hg. revert b.
  induction ids as [|x l IH]; intros b H; simpl; [exact H |].
  apply IH, teamsOk_credit; assumption.
Qed.

(** A settlement computed on a sound ledger pays no negative amount and
    leaves no negative carry. *)
Lemma settle_ok (winnerId : jsid) (winnerIds : option (list jsid)) (w : World)
    (x : Settlement) :
  ledgerOk w -> settle winnerId winnerIds w = Some x ->
  teamsOk (b_teams (s_books x)) /\ 0 <= s_carryRound x.
Proof.
  intros (Ht & _ & Hpot & Hcarry). unfold settle.
  assert (Hpay : 0 <= categoryPot (st w) / ROUNDS_PER_CATEGORY)
    by (apply Z.div_pos; [exact Hpot | reflexivity]).
  set (ids := uniqueIds (teams w) winnerIds).
  set (total := categoryPot (st w) / ROUNDS_PER_CATEGORY + carryRound (st w)).
  assert (Htot : 0 <= total) by (unfold total; lia).
  destruct (1 <? Z.of_nat (length ids)) eqn:Hn.
  - apply Z.ltb_lt in Hn.
    assert (H0 : (Z.of_nat (length ids) =? 0) = false)
      by (apply Z.eqb_neq; lia).
    rewrite H0. intros [= <-]. simpl. split.
    + apply teamsOk_foldl_credit; [| exact Ht].
      apply Z.div_pos; lia.
    + assert (0 <= total - total / Z.of_nat (length ids) * Z.of_nat (length ids)).
      { pose proof (Z.mod_pos_bound total (Z.of_nat (length ids))) as Hm.
        rewrite Z.mod_eq in Hm by lia. lia. }
      destruct (roundIndex (st w) <? ROUNDS_PER_CATEGORY - 1); lia.
  - assert (Hnone :
        forall r, match winnerId with
                  | Null =>
                      Some (mkSettlement (booksOf w)
                              (carryRound (st w)
                               + categoryPot (st w) / ROUNDS_PER_CATEGORY)
                              None [] None)
                  | _ => None
                  end = Some r ->
                  teamsOk (b_teams (s_books r)) /\ 0 <= s_carryRound r).
    { intros r. destruct winnerId; intros [= <-]. simpl. split; [exact Ht | lia]. }
    destruct (match match ids with
                    | [x0] => Str x0
                    | _ => winnerId
                    end with
              | Str x0 => Some x0
              | _ => None
              end) as [y|]; [| apply Hnone].
    destruct (truthy y && bool_decide (is_Some (teams w !! y)))%bool;
      [| apply Hnone].
    intros [= <-]. simpl. split; [| lia].
    apply teamsOk_credit; [exact Htot | exact Ht].
Qed.

Lemma ledger_markRoundResolved (flag : bool) (s : State) :
  stakes (markRoundResolved flag s) = stakes s
  /\ carryRound (markRoundResolved flag s) = carryRound s.
Proof.
  unfold markRoundResolved.
  destruct (currentRoundKey s); [destruct flag |]; split; reflexivity.
Qed.

Lemma ledger_uncredit (last : Result.t) (s : State) (id : string) :
  stakes (uncredit last s id) = stakes s
  /\ carryRound (uncredit last s id) = carryRound s.
Proof.
  unfold uncredit.
  branches; split; reflexivity.
Qed.

Lemma ledger_foldl_uncredit (last : Result.t) (ids : list string) (s : State) :
  stakes (foldl (uncredit last) s ids) = stakes s
  /\ carryRound (foldl (uncredit last) s ids) = carryRound s.
Proof.
  revert s. induction ids as [|id ids IH]; intros s; simpl;
    [split; reflexivity |].
  destruct (IH (uncredit last s id)) as [-> ->]. apply ledger_uncredit.
Qed.

Lemma stakes_emitPendingResult (s : State) :
  stakes (emitPendingResult s) = stakes s.
Proof. unfold emitPendingResult. destruct (pendingResult s); reflexivity. Qed.

Lemma stakes_recordResolution (now : Z) (x : Settlement) (w : World) :
  stakes (st (recordResolution now x w)) = stakes (st w).
Proof.
  unfold recordResolution.
  cbn [st]. rewrite stakes_emitPendingResult.
  cbn [set_pendingResult stakes].
  rewrite (proj1 (ledger_markRoundResolved true _)). reflexivity.
Qed.

Lemma ledgerOk_recordResolution (now : Z) (x : Settlement) (w : World) :
  ledgerOk w -> teamsOk (b_teams (s_books x)) -> 0 <= s_carryRound x ->
  ledgerOk (recordResolution now x w).
Proof.
  intros (_ & Hs & Hp & _) Ht Hc.
  destruct (recordResolution_effects now x w) as (Hts & Hcr & _).
  apply ledgerOk_intro.
  - rewrite Hts. exact Ht.
  - rewrite stakes_recordResolution. exact Hs.
  - rewrite categoryPot_recordResolution. exact Hp.
  - rewrite Hcr. exact Hc.
Qed.

Lemma ledgerOk_adminResolveRound (now : Z) (winnerId : jsid)
    (winnerIds : option (list jsid)) (w : World) :
  ledgerOk w -> ledgerOk (adminResolveRound now winnerId winnerIds w).
Proof.
  intros H. unfold adminResolveRound.
  destruct (decide _); [| exact H].
  destruct (isRoundResolved _); [exact H |].
  destruct (settle winnerId winnerIds w) as [x|] eqn:Hs; [| exact H].
  destruct (settle_ok winnerId winnerIds w x H Hs).
  apply ledgerOk_recordResolution; assumption.
Qed.

Lemma ledgerOk_adminRoundUndo (coinMap : option (gmap string jsnum))
    (carry : jsnum) (w : World) :
  ledgerOk w -> ledgerOk (adminRoundUndo coinMap carry w).
Proof.
  intros H. unfold adminRoundUndo.
  destruct (decide _); [| exact H].
  destruct (isRoundResolved _); [| exact H].
  destruct H as (Ht & Hs & Hp & Hc).
  apply ledgerOk_intro; cbn [st teams].
  - destruct coinMap; [apply teamsOk_restoreCoins |]; exact Ht.
  - rewrite (proj1 (ledger_markRoundResolved false _)). cbn [set_lastResult
      set_pendingResult stakes].
    destruct (resultOfRound _);
      [rewrite (proj1 (ledger_foldl_uncredit _ _ _)) |];
      destruct carry; exact Hs.
  - rewrite categoryPot_markRoundResolved. cbn [set_lastResult
      set_pendingResult categoryPot].
    destruct (resultOfRound _);
      [rewrite categoryPot_foldl_uncredit |];
      destruct carry; exact Hp.
  - rewrite (proj2 (ledger_markRoundResolved false _)). cbn [set_lastResult
      set_pendingResult carryRound].
    destruct (resultOfRound _);
      [rewrite (proj2 (ledger_foldl_uncredit _ _ _)) |];
      destruct carry; simpl; try exact Hc; apply floorClamp_nonneg.
Qed.

Lemma ledgerOk_moveRound (ri : Z) (w : World) :
  ledgerOk w -> ledgerOk (moveRound ri w).
Proof.
  apply ledgerOk_frame; unfold moveRound; cbn [st teams].
  - reflexivity.
  - destruct (decide _); cbn [set_elch set_submissions set_roundIndex stakes];
      rewrite (proj1 (ledger_markRoundResolved false _)); reflexivity.
  - destruct (decide _);
      cbn [set_elch set_submissions set_roundIndex categoryPot];
      rewrite categoryPot_markRoundResolved; reflexivity.
  - destruct (decide _);
      cbn [set_elch set_submissions set_roundIndex carryRound];
      rewrite (proj2 (ledger_markRoundResolved false _)); reflexivity.
Qed.

Lemma ledgerOk_on_elch (e : Elch.t) (w : World) :
  ledgerOk w -> ledgerOk (on_state (set_elch e) w).
Proof. apply ledgerOk_frame; reflexivity. Qed.

(** Every command keeps the ledger sound, an admin update with a negative
    balance excepted. *)
Lemma ledgerOk_step (window now : Z) (c : Command) (w : World) :
  noNegativePatch c -> ledgerOk w -> ledgerOk (step window now c w).
Proof.
  intros Hc H. destruct c; cbn [step].
  - (* join *)
    destruct H as (Ht & Hs & Hp & Hcr). unfold teamJoin.
    destruct (teams w !! id) as [t|] eqn:Hl;
      apply ledgerOk_intro; cbn [st teams]; try assumption;
      apply teamsOk_insert; try exact Ht.
    + specialize (Ht id t Hl).
      repeat match goal with
             | |- context [match ?x with _ => _ end] => destruct x
             end; exact Ht.
    + simpl. lia.
  - (* stake *)
    destruct H as (Ht & Hs & Hp & Hcr). unfold teamSetStake.
    destruct (decide _); [| apply ledgerOk_intro; assumption].
    destruct (teams w !! id) as [t|]; [| apply ledgerOk_intro; assumption].
    apply ledgerOk_intro; cbn [st teams on_state set_stakes stakes categoryPot
                                 carryRound]; try assumption.
    intros i se. destruct (decide (id = i)) as [->|Hne].
    + rewrite lookup_insert_eq. intros [= <-]. simpl. apply coerceStake_nonneg.
    + rewrite lookup_insert_ne by exact Hne. apply Hs.
  - (* buzz *)
    unfold teamSubmitBuzz.
    branches; try exact H; apply ledgerOk_on_elch, H.
  - (* admin update *)
    destruct H as (Ht & Hs & Hp & Hcr). unfold adminTeamUpdate.
    destruct (teams w !! id) as [t|] eqn:Hl; [| apply ledgerOk_intro; assumption].
    apply ledgerOk_intro; cbn [st teams]; try assumption.
    apply teamsOk_insert; [exact Ht |]. specialize (Ht id t Hl).
    destruct coins as [c|]; destruct quizJoker, name, avatar; simpl;
      simpl in Hc; assumption.
  - (* kick *)
    destruct H as (Ht & Hs & Hp & Hcr). unfold adminTeamKick.
    destruct (_ && _)%bool; [| apply ledgerOk_intro; assumption].
    apply ledgerOk_intro; cbn [st teams]; try assumption.
    + apply teamsOk_delete; exact Ht.
    + apply stakesOk_delete; exact Hs.
  - (* start category *)
    destruct H as (Ht & _). apply ledgerOk_intro; simpl; try lia; try exact Ht.
    intros i e Hl. rewrite lookup_empty in Hl. discriminate Hl.
  - (* team limit *)
    unfold adminSetTeamLimit. destruct (_ =? _); [exact H |].
    revert H. apply ledgerOk_frame; reflexivity.
  - (* lock *)
    destruct H as (Ht & Hs & Hp & Hcr).
    apply ledgerOk_intro.
    + apply teamsOk_debitStakes; exact Ht.
    + exact Hs.
    + rewrite categoryPot_adminLockStakes.
      pose proof (sumOver_nonneg stake (stakes (st w)) Hs).
      assert (0 <= sumOver (fun e => if useJoker e then stake e else 0)
                     (stakes (st w))).
      { apply sumOver_nonneg. intros i e Hl. specialize (Hs i e Hl).
        destruct (useJoker e); lia. }
      lia.
    + exact Hcr.
  - apply ledgerOk_adminResolveRound, H.
  - (* round end *)
    unfold adminRoundEnd.
    branches; exact H.
  - apply ledgerOk_adminRoundUndo, H.
  - unfold adminRoundNext. destruct (decide _); [| exact H].
    apply ledgerOk_moveRound, H.
  - unfold adminRoundPrev. destruct (decide _); [| exact H].
    apply ledgerOk_moveRound, H.
  - (* finish *)
    destruct H as (Ht & _). apply ledgerOk_intro; simpl; try lia; try exact Ht.
    intros i e Hl. rewrite lookup_empty in Hl. discriminate Hl.
  - (* lobby *)
    destruct H as (Ht & _). apply ledgerOk_intro; simpl; try lia; try exact Ht.
    intros i e Hl. rewrite lookup_empty in Hl. discriminate Hl.
  - revert H. apply ledgerOk_frame; reflexivity.
  - revert H. apply ledgerOk_frame; try reflexivity;
      unfold adminTimerStop; simpl;
      destruct (timerEndsAt (st w)); [destruct (negb _) | | destruct (negb _) |
                                      | destruct (negb _) |]; reflexivity.
  - revert H. apply ledgerOk_frame; reflexivity.
  - unfold adminTimerResume. destruct (_ && _)%bool; [| exact H].
    revert H. apply ledgerOk_frame; reflexivity.
  - unfold adminElchDraw. destruct (decide _); [| exact H].
    apply ledgerOk_on_elch, H.
  - unfold adminElchSetLock. destruct (decide _); [| exact H].
    apply ledgerOk_on_elch, H.
  - unfold adminElchClearBuzz. destruct (decide _); [| exact H].
    apply ledgerOk_on_elch, H.
  - (* confirm *)
    unfold adminElchConfirm.
    destruct (decide _); [| exact H].
    destruct (decide _); [| exact H].
    destruct (isRoundResolved (st w)); [exact H |].
    match goal with
    | |- context [match ?o with Some _ => _ | None => _ end] =>
        destruct o as [x|]
    end; [| exact H].
    destruct (_ && _)%bool; [| exact H].
    apply ledgerOk_adminResolveRound, ledgerOk_on_elch, H.
  - unfold adminElchUnlock. destruct (decide _); [| exact H].
    destruct (Elch.exhausted _); [exact H |].
    apply ledgerOk_on_elch, H.
  - unfold adminRaceSet. destruct mode; [| exact H].
    revert H. apply ledgerOk_frame; reflexivity.
  - (* reset *)
    apply ledgerOk_intro; simpl; try lia.
    + intros i t Hl. rewrite lookup_empty in Hl. discriminate Hl.
    + intros i e Hl. rewrite lookup_empty in Hl. discriminate Hl.
  - unfold timerTick.
    destruct (timerEndsAt (st w)); [| exact H].
    destruct (_ && _)%bool; [| exact H].
    revert H. apply ledgerOk_frame; reflexivity.
  - unfold elchAutoUnlock.
    destruct (_ && _)%bool; [| exact H].
    destruct (Elch.buzzAnswerEndsAt _); [| exact H].
    destruct (_ && _)%bool; [| exact H].
    apply ledgerOk_on_elch, H.
  - revert H. apply ledgerOk_frame; reflexivity.
Qed.

Lemma ledgerOk_initial : ledgerOk initial_world.
Proof.
  apply ledgerOk_intro; simpl; try lia.
  - intros i t Hl. rewrite lookup_empty in Hl. discriminate Hl.
  - intros i e Hl. rewrite lookup_empty in Hl. discriminate Hl.
Qed.

Lemma ledgerOk_run (window : Z) (cmds : list (Z * Command)) (w : World) :
  Forall (fun tc => noNegativePatch (snd tc)) cmds ->
  ledgerOk w -> ledgerOk (run window cmds w).
Proof.
  intros H. revert w. unfold run.
  induction H as [|[now c] l Hc _ IH]; intros w Hw; simpl; [exact Hw |].
  apply IH, ledgerOk_step; assumption.
Qed.

(** A balance can be negative: an admin update stores the number it is
    given. *)
Lemma coins_negative_after_admin_update :
  ~ (forall (window : Z) (cmds : list (Z * Command)) (id : string) (t : Team.t),
        teams (run window cmds initial_world) !! id = Some t ->
        0 <= Team.coins t).
Proof.
  intros H.
  specialize (H 45000
                [(0, TeamJoin "A" None None);
                 (1, AdminTeamUpdate "A" (Some (-5)) None None None)]
                "A" (Team.mk "A" "Team 1" "/avatars/seekuh.png" (-5) 1 0)
                eq_refl).
  simpl in H. lia.
Qed.

(** C6 (amended).  In every state reached from the initial state by
    commands among which no admin update supplies a negative balance, every
    team's balance is at least 0 (and so are the stakes, the pot and the
    carry).  The two operations that lower a balance clamp it at 0: the
    debit of a stake at the lock and the restore of the undo, whatever the
    balance and the amount. *)
Theorem coins_never_negative
    (window : Z) (cmds : list (Z * Command)) (id : string) (t : Team.t) :
  Forall (fun tc => noNegativePatch (snd tc)) cmds ->
  teams (run window cmds initial_world) !! id = Some t ->
  0 <= Team.coins t
  /\ ledgerOk (run window cmds initial_world)
  /\ (forall e t0, 0 <= Team.coins (debit e t0))
  /\ (forall q, 0 <= floorClamp q).
Proof.
  intros Hc Hl.
  pose proof (ledgerOk_run window cmds initial_world Hc ledgerOk_initial) as Hok.
  split; [exact (proj1 Hok id t Hl) |].
  split; [exact Hok |].
  split; [apply debit_nonneg | apply floorClamp_nonneg].
Qed.

(** A run with a stake, a lock and an admin update to 2 coins. *)
Lemma coins_never_negative_witness :
  Forall (fun tc : Z * Command => noNegativePatch (snd tc))
    [(0, TeamJoin "A" None None); (1, AdminStartCategory (Some "Hase"));
     (2, TeamSetStake "A" (Fin (6 # 1)) false); (3, AdminLockStakes);
     (4, AdminTeamUpdate "A" (Some 2) None None None);
     (5, AdminRoundUndo None NonFinite)]
  /\ 0 <= Team.coins (Team.mk "A" "Team 1" "/avatars/seekuh.png" 2 1 0).
Proof.
  assert (Hc : Forall (fun tc : Z * Command => noNegativePatch (snd tc))
                 [(0, TeamJoin "A" None None);
                  (1, AdminStartCategory (Some "Hase"));
                  (2, TeamSetStake "A" (Fin (6 # 1)) false);
                  (3, AdminLockStakes);
                  (4, AdminTeamUpdate "A" (Some 2) None None None);
                  (5, AdminRoundUndo None NonFinite)]).
  { repeat constructor. simpl. lia. }
  split; [exact Hc |].
  exact (proj1 (coins_never_negative 45000 _ "A"
                  (Team.mk "A" "Team 1" "/avatars/seekuh.png" 2 1 0)
                  Hc eq_refl)).
Defined.

(** ** Persistence *)

(** What a restart brings back: the fifteen fields that [serializeState]
    lists are restored, the six it does not list come back as in the
    initial state. *)
Lemma restart_fields (now : Z) (s : State) :
  restart now s
  = {| phase := phase s; currentCategory := currentCategory s;
       roundIndex := roundIndex s; stakes := stakes s;
       categoryPot := categoryPot s; carryRound := carryRound s;
       submissions := submissions s; fuchsHistory := fuchsHistory s;
       joinCode := joinCode s; teamLimit := teamLimit s;
       timerEndsAt := timerEndsAt s; timerDuration := timerDuration s;
       timerPausedRemaining := timerPausedRemaining s;
       lastTimerEnd := None; elch := elch s; raceMode := raceMode s;
       roundWins := ∅; resolvedRounds := ∅; categoryEarnings := ∅;
       pendingResult := None; lastResult := None |}.
Proof. reflexivity. Qed.

(** C7.  The code at a restart right after team A has won the first round
    (pot 30, gain 10): the resolved round key, the pending result, the
    round wins and the category earnings are not in the snapshot, so the
    restored state differs from the state before the restart, the round
    counts as open again, and a repeated resolution pays the winner a
    second time. *)
Theorem restart_forgets_resolved_round :
  let w := adminResolveRound 6 (Str "A") None exLocked in
  let s' := restart 7 (st w) in
  isRoundResolved (st w) = true
  /\ elements (resolvedRounds (st w)) = [("Hase", 0)]
  /\ is_Some (pendingResult (st w))
  /\ roundWins (st w) !! "A" = Some 1
  /\ categoryEarnings (st w) !! "A" = Some 10
  /\ Team.coins <$> teams w !! "A" = Some 25
  /\ isRoundResolved s' = false
  /\ resolvedRounds s' = ∅
  /\ pendingResult s' = None
  /\ roundWins s' = ∅
  /\ categoryEarnings s' = ∅
  /\ s' <> st w
  /\ Team.coins <$>
       teams (adminResolveRound 8 (Str "A") None (mkWorld s' (teams w))) !! "A"
     = Some 35.
Proof.
  cbv zeta. rewrite restart_fields.
  split; [vm_compute; reflexivity |].
  split; [vm_compute; reflexivity |].
  split; [vm_compute; eauto |].
  split; [vm_compute; reflexivity |].
  split; [vm_compute; reflexivity |].
  split; [vm_compute; reflexivity |].
  split; [vm_compute; reflexivity |].
  split; [reflexivity |].
  split; [reflexivity |].
  split; [reflexivity |].
  split; [reflexivity |].
  split; [| vm_compute; reflexivity].
  intros H. apply (f_equal pendingResult) in H.
  vm_compute in H. discriminate H.
Qed.

(** ** Buzzer arbitration *)

(** A buzz on a locked buzzer changes nothing. *)
Lemma teamSubmitBuzz_locked (window now : Z) (id : string) (w : World) :
  Elch.buzzLocked (elch (st w)) = true -> teamSubmitBuzz window now id w = w.
Proof.
  intros Hl. unfold teamSubmitBuzz. rewrite Hl. simpl.
  branches; reflexivity.
Qed.

(** A buzz of a team that is in the buzz order already changes nothing. *)
Lemma teamSubmitBuzz_repeat (window now : Z) (id : string) (w : World) :
  id ∈ (fst <$> Elch.buzzOrder (elch (st w))) ->
  teamSubmitBuzz window now id w = w.
Proof.
  intros Hin. unfold teamSubmitBuzz.
  assert (Hal : existsb (fun b => String.eqb (fst b) id)
                  (Elch.buzzOrder (elch (st w))) = true).
  { apply existsb_exists. apply list_elem_of_fmap in Hin as ([i ts] & -> & Hin).
    exists (i, ts). split; [apply list_elem_of_In; exact Hin |].
    apply String.eqb_refl. }
  rewrite Hal, andb_false_r.
  branches; reflexivity.
Qed.

Lemma elch_uncredit (last : Result.t) (s : State) (id : string) :
  elch (uncredit last s id) = elch s.
Proof.
  unfold uncredit.
  branches; reflexivity.
Qed.

Lemma elch_foldl_uncredit (last : Result.t) (ids : list string) (s : State) :
  elch (foldl (uncredit last) s ids) = elch s.
Proof.
  revert s. induction ids as [|id ids IH]; intros s; simpl; [reflexivity |].
  rewrite IH. apply elch_uncredit.
Qed.

Lemma elch_markRoundResolved (flag : bool) (s : State) :
  elch (markRoundResolved flag s) = elch s.
Proof.
  unfold markRoundResolved.
  destruct (currentRoundKey s); [destruct flag |]; reflexivity.
Qed.

Lemma elch_emitPendingResult (s : State) :
  elch (emitPendingResult s) = elch s.
Proof. unfold emitPendingResult. destruct (pendingResult s); reflexivity. Qed.

Lemma elch_recordResolution (now : Z) (x : Settlement) (w : World) :
  elch (st (recordResolution now x w)) = elch (st w).
Proof.
  unfold recordResolution.
  cbn [st]. rewrite elch_emitPendingResult.
  cbn [set_pendingResult elch].
  rewrite elch_markRoundResolved. reflexivity.
Qed.

(** While the buzzer is locked no command lengthens the buzz order. *)
Lemma buzzOrder_no_gain_while_locked (window now : Z) (c : Command) (w : World) :
  Elch.buzzLocked (elch (st w)) = true ->
  (length (Elch.buzzOrder (elch (st (step window now c w))))
   <= length (Elch.buzzOrder (elch (st w))))%nat.
Proof.
  intros Hl. destruct c; cbn [step].
  - unfold teamJoin. destruct (teams w !! id); reflexivity.
  - unfold teamSetStake.
    destruct (decide _); [destruct (teams w !! id) |]; reflexivity.
  - rewrite teamSubmitBuzz_locked by exact Hl. reflexivity.
  - unfold adminTeamUpdate. destruct (teams w !! id); reflexivity.
  - unfold adminTeamKick. destruct (_ && _)%bool; [| reflexivity].
    simpl. apply length_filter.
  - simpl. destruct (decide _); simpl; lia.
  - unfold adminSetTeamLimit. destruct (_ =? _); reflexivity.
  - reflexivity.
  - unfold adminResolveRound.
    destruct (decide _); [| reflexivity].
    destruct (isRoundResolved _); [reflexivity |].
    destruct (settle _ _ _); [| reflexivity].
    rewrite elch_recordResolution. reflexivity.
  - unfold adminRoundEnd.
    branches; reflexivity.
  - unfold adminRoundUndo.
    destruct (decide _); [| reflexivity].
    destruct (isRoundResolved _); [| reflexivity].
    cbn [st]. rewrite elch_markRoundResolved.
    cbn [set_lastResult set_pendingResult elch].
    destruct (resultOfRound _);
      [rewrite elch_foldl_uncredit |]; destruct carry; reflexivity.
  - unfold adminRoundNext, moveRound.
    destruct (decide _); [| reflexivity]. cbn [st].
    destruct (decide _); cbn [set_elch elch].
    + unfold elchPick, elchClearOrder. cbn [Elch.used Elch.buzzOrder].
      repeat match goal with
             | |- context [if ?x then _ else _] => destruct x
             end; simpl; lia.
    + cbn [set_submissions set_roundIndex elch].
      rewrite elch_markRoundResolved. reflexivity.
  - unfold adminRoundPrev, moveRound.
    destruct (decide _); [| reflexivity]. cbn [st].
    destruct (decide _); cbn [set_elch elch].
    + unfold elchPick, elchClearOrder. cbn [Elch.used Elch.buzzOrder].
      repeat match goal with
             | |- context [if ?x then _ else _] => destruct x
             end; simpl; lia.
    + cbn [set_submissions set_roundIndex elch].
      rewrite elch_markRoundResolved. reflexivity.
  - simpl. lia.
  - simpl. lia.
  - reflexivity.
  - unfold adminTimerStop. simpl.
    destruct (timerEndsAt (st w)); [destruct (negb _) |]; reflexivity.
  - reflexivity.
  - unfold adminTimerResume. destruct (_ && _)%bool; reflexivity.
  - unfold adminElchDraw. destruct (decide _); simpl; lia.
  - unfold adminElchSetLock. destruct (decide _); reflexivity.
  - unfold adminElchClearBuzz. destruct (decide _); simpl; lia.
  - unfold adminElchConfirm.
    destruct (decide _); [| reflexivity].
    destruct (decide _); [| reflexivity].
    destruct (isRoundResolved (st w)); [reflexivity |].
    match goal with
    | |- context [match ?o with Some _ => _ | None => _ end] =>
        destruct o as [x|]
    end; [| reflexivity].
    destruct (_ && _)%bool; [| reflexivity].
    unfold adminResolveRound.
    destruct (decide _); [| reflexivity].
    destruct (isRoundResolved _); [reflexivity |].
    destruct (settle _ _ _); [| reflexivity].
    rewrite elch_recordResolution. reflexivity.
  - unfold adminElchUnlock.
    destruct (decide _); [| reflexivity].
    destruct (Elch.exhausted _); simpl; lia.
  - unfold adminRaceSet. destruct mode; reflexivity.
  - simpl. lia.
  - unfold timerTick.
    destruct (timerEndsAt (st w)); [destruct (_ && _)%bool |]; reflexivity.
  - unfold elchAutoUnlock.
    destruct (_ && _)%bool; [| reflexivity].
    destruct (Elch.buzzAnswerEndsAt _); [| reflexivity].
    destruct (_ && _)%bool; simpl; lia.
  - reflexivity.
Qed.

(** An accepted first buzz does not always open a window of its own.  In
    the round of [exBuzzWorld] team A buzzes at 50, which opens the window
    until 45050, and is then removed by the admin, which empties the buzz
    order; the admin opens the buzzer again.  The buzz of team B at 100
    meets an empty order and an open buzzer: it is accepted and locks, but
    the window recorded for A is kept, 45050 and not 100 + 45000. *)
Lemma first_buzz_keeps_recorded_window :
  ~ (forall (window now : Z) (id : string) (w : World),
        phase (st w) = CATEGORY ->
        normalizeCategory (currentCategory (st w)) = Some "Elch" ->
        tooLate now (st w) = false ->
        (exists c, Elch.category (elch (st w)) = Some c /\ c <> "") ->
        Elch.buzzOrder (elch (st w)) = [] ->
        Elch.buzzLocked (elch (st w)) = false ->
        Elch.buzzAnswerEndsAt (elch (st (teamSubmitBuzz window now id w)))
        = Some (now + window)).
Proof.
  intros H.
  specialize (H 45000 100 "B"
                (run 45000 [(50, TeamBuzz "A"); (60, AdminTeamKick "A");
                            (70, AdminElchSetLock false)] exBuzzWorld)).
  assert (Hc : exists c,
             Elch.category
               (elch (st (run 45000 [(50, TeamBuzz "A"); (60, AdminTeamKick "A");
                                     (70, AdminElchSetLock false)] exBuzzWorld)))
             = Some c /\ c <> "").
  { exists "Städte". split; [vm_compute; reflexivity | discriminate]. }
  specialize (H ltac:(vm_compute; reflexivity) ltac:(vm_compute; reflexivity)
                ltac:(vm_compute; reflexivity) Hc
                ltac:(vm_compute; reflexivity) ltac:(vm_compute; reflexivity)).
  vm_compute in H. discriminate H.
Qed.

(** C9 (amended).  While a label is drawn, the first accepted buzz (no buzz
    in the order, buzzer open) makes the buzz order the singleton of the
    buzzing team, locks the buzzer and moves it to LOCK.  It opens the
    answer window at now + ELCH_ANSWER_WINDOW_MS, 45 s by default, unless a
    window is still recorded, which is then kept as it is.  On a locked
    buzzer every buzz, by another team or by the same one, leaves the whole
    world unchanged, a repeated buzz of a team in the order does so as
    well, and no command at all lengthens the buzz order as long as the
    lock holds. *)
Theorem first_buzz_locks_buzzer
    (env : option Z) (now : Z) (id : string) (w : World) :
  let window := ELCH_ANSWER_WINDOW_MS env in
  let w1 := teamSubmitBuzz window now id w in
  (phase (st w) = CATEGORY ->
   normalizeCategory (currentCategory (st w)) = Some "Elch" ->
   tooLate now (st w) = false ->
   (exists c, Elch.category (elch (st w)) = Some c /\ c <> "") ->
   Elch.buzzOrder (elch (st w)) = [] ->
   Elch.buzzLocked (elch (st w)) = false ->
   Elch.buzzOrder (elch (st w1)) = [(id, now)]
   /\ Elch.buzzLocked (elch (st w1)) = true
   /\ Elch.phase (elch (st w1)) = Some LOCK
   /\ Elch.buzzAnswerEndsAt (elch (st w1))
      = (if truthyZ (Elch.buzzAnswerEndsAt (elch (st w)))
         then Elch.buzzAnswerEndsAt (elch (st w))
         else Some (now + window))
   /\ (truthyZ (Elch.buzzAnswerEndsAt (elch (st w))) = false ->
       Elch.buzzAnswerEndsAt (elch (st w1)) = Some (now + window)
       /\ (env = None ->
           Elch.buzzAnswerEndsAt (elch (st w1)) = Some (now + 45000)))
   /\ forall now' id', teamSubmitBuzz window now' id' w1 = w1)
  /\ (Elch.buzzLocked (elch (st w)) = true ->
      forall now' id', teamSubmitBuzz window now' id' w = w)
  /\ (id ∈ (fst <$> Elch.buzzOrder (elch (st w))) -> w1 = w)
  /\ (Elch.buzzLocked (elch (st w)) = true ->
      forall now' c,
        (length (Elch.buzzOrder (elch (st (step window now' c w))))
         <= length (Elch.buzzOrder (elch (st w))))%nat).
Proof.
  intros window w1. split; [| split; [| split]].
  - intros Hp Hc Hlate (c & Hcat & Hne) Ho Hl.
    assert (Hw1 : w1 = on_state (set_elch
                    (Elch.mk (Elch.category (elch (st w)))
                             (Elch.used (elch (st w))) [(id, now)] true
                             (Elch.exhausted (elch (st w))) (Some LOCK)
                             (if truthyZ (Elch.buzzAnswerEndsAt (elch (st w)))
                              then Elch.buzzAnswerEndsAt (elch (st w))
                              else Some (now + window)))) w).
    { subst w1. unfold teamSubmitBuzz.
      rewrite Hp, Hc, Hlate, Hcat, (truthy_nonempty c Hne), Ho, Hl.
      reflexivity. }
    rewrite Hw1. simpl.
    split; [reflexivity |]. split; [reflexivity |]. split; [reflexivity |].
    split; [reflexivity |]. split.
    + intros Ha. rewrite Ha. split; [reflexivity |].
      intros ->. reflexivity.
    + intros now' id'. apply teamSubmitBuzz_locked. reflexivity.
  - intros Hl now' id'. apply teamSubmitBuzz_locked. exact Hl.
  - intros Hin. subst w1. apply teamSubmitBuzz_repeat. exact Hin.
  - intros Hl now' c. apply buzzOrder_no_gain_while_locked. exact Hl.
Qed.

(** Team A buzzes first at 50 on the label drawn at the start of "Elch",
    where no window is recorded: the window ends at 45050, and team B's
    buzz at 100 changes nothing. *)
Lemma first_buzz_locks_buzzer_witness :
  phase (st exBuzzWorld) = CATEGORY
  /\ Elch.category (elch (st exBuzzWorld)) = Some "Städte"
  /\ truthyZ (Elch.buzzAnswerEndsAt (elch (st exBuzzWorld))) = false
  /\ Elch.buzzOrder (elch (st (teamSubmitBuzz 45000 50 "A" exBuzzWorld)))
     = [("A", 50)]
  /\ Elch.buzzAnswerEndsAt
       (elch (st (teamSubmitBuzz 45000 50 "A" exBuzzWorld)))
     = Some (50 + 45000)
  /\ teamSubmitBuzz 45000 100 "B" (teamSubmitBuzz 45000 50 "A" exBuzzWorld)
     = teamSubmitBuzz 45000 50 "A" exBuzzWorld.
Proof.
  assert (H1 : phase (st exBuzzWorld) = CATEGORY) by (vm_compute; reflexivity).
  assert (H2 : normalizeCategory (currentCategory (st exBuzzWorld))
               = Some "Elch") by (vm_compute; reflexivity).
  assert (H3 : tooLate 50 (st exBuzzWorld) = false) by (vm_compute; reflexivity).
  assert (H4 : Elch.category (elch (st exBuzzWorld)) = Some "Städte")
    by (vm_compute; reflexivity).
  assert (H4' : exists c, Elch.category (elch (st exBuzzWorld)) = Some c
                          /\ c <> "").
  { exists "Städte". split; [exact H4 | discriminate]. }
  assert (H5 : Elch.buzzOrder (elch (st exBuzzWorld)) = [])
    by (vm_compute; reflexivity).
  assert (H6 : Elch.buzzLocked (elch (st exBuzzWorld)) = false)
    by (vm_compute; reflexivity).
  assert (H7 : truthyZ (Elch.buzzAnswerEndsAt (elch (st exBuzzWorld))) = false)
    by (vm_compute; reflexivity).
  split; [exact H1 |]. split; [exact H4 |]. split; [exact H7 |].
  pose proof (proj1 (first_buzz_locks_buzzer None 50 "A" exBuzzWorld)
                H1 H2 H3 H4' H5 H6) as Hthm.
  cbv zeta in Hthm.
  change (ELCH_ANSWER_WINDOW_MS None) with 45000 in Hthm.
  destruct Hthm as (Ho & _ & _ & _ & Ha & Hrest).
  split; [exact Ho |]. split; [exact (proj1 (Ha H7)) |]. exact (Hrest 100 "B").
Defined.

(** ** Idempotency guard *)

Section RecordedAction.

(** An action id [a] that the guard recorded at time [t]. *)
Variables (a : string) (t : Z).
Hypothesis a_truthy : a <> "".

Lemma purge_keeps (now : Z) (g : Guard) :
  recent g !! a = Some t -> now <= t + IDEMP_WINDOW_MS ->
  recent (purge now g) !! a = Some t.
Proof.
  intros Ha Hn. unfold purge.
  destruct (_ && _)%bool; [| exact Ha]. simpl.
  apply map_lookup_filter_Some. split; [exact Ha |]. simpl. lia.
Qed.

(** The entry survives every consultation that arrives within the window
    after it was recorded. *)
Lemma isDuplicateAction_keeps (now : Z) (b : option string) (g : Guard) :
  recent g !! a = Some t -> now <= t + IDEMP_WINDOW_MS ->
  recent (snd (isDuplicateAction now b g)) !! a = Some t.
Proof.
  intros Ha Hn. unfold isDuplicateAction.
  destruct b as [b|]; [| exact Ha].
  destruct (truthy b); [| exact Ha].
  pose proof (purge_keeps now g Ha Hn) as Hp.
  destruct (recent (purge now g) !! b) as [tb|] eqn:Hb; simpl; [exact Hp |].
  rewrite lookup_insert_ne; [exact Hp |].
  intros ->. rewrite Hp in Hb. discriminate Hb.
Qed.

Lemma consult_keeps (calls : list (Z * option string)) (g : Guard) :
  recent g !! a = Some t ->
  Forall (fun c => fst c <= t + IDEMP_WINDOW_MS) calls ->
  recent (consult calls g) !! a = Some t.
Proof.
  intros Ha H. revert g Ha. unfold consult.
  induction H as [|[now b] l Hc _ IH]; intros g Ha; simpl; [exact Ha |].
  apply IH. apply isDuplicateAction_keeps; assumption.
Qed.



End RecordedAction.

(** *** The listeners and the guard *)

(** Every event is handled in the same four steps: what its listener
    writes before the guard, the consultation of the guard (where there is
    one), the method call unless a duplicate is reported, and the second
    listener. *)
Lemma dispatch_parts (spread : option string -> string -> Z -> string)
    (window now : Z) (ev : Event) (sv : Server) :
  dispatch spread window now ev sv
  = match guardKey ev with
    | Some k =>
        mkServer (snd (isDuplicateAction now k (guard sv)))
          (secondListener ev
             ((if fst (isDuplicateAction now k (guard sv)) then fun w => w
               else method spread window now ev)
                (beforeGuard now ev (world sv))))
    | None =>
        mkServer (guard sv)
          (secondListener ev
             (method spread window now ev (beforeGuard now ev (world sv))))
    end.
Proof.
  destruct ev; cbn [dispatch guardKey secondListener beforeGuard method];
    unfold guarded, unguarded, onTeamSetStake; cbn [guard world];
    try reflexivity;
    try match goal with
        | |- context [isDuplicateAction ?n ?k ?g] =>
            destruct (isDuplicateAction n k g) as [[] g']; reflexivity
        end.
  destruct sv; reflexivity.
Qed.






Lemma elchBuzz_key_truthy (socketId : string) :
  truthy (socketId +:+ ":elchBuzz") = true.
Proof. destruct socketId; reflexivity. Qed.




(** * Further properties of the engine *)

(** ** What the helpers write *)

Lemma markRoundResolved_only (flag : bool) (s : State) :
  markRoundResolved flag s
  = set_resolvedRounds (resolvedRounds (markRoundResolved flag s)) s.
Proof.
  unfold markRoundResolved.
  destruct (currentRoundKey s); [destruct flag |]; destruct s; reflexivity.
Qed.

Lemma emitPendingResult_only (s : State) :
  emitPendingResult s = set_lastResult (lastResult (emitPendingResult s)) s.
Proof.
  unfold emitPendingResult. destruct (pendingResult s); destruct s; reflexivity.
Qed.

Lemma uncredit_only (last : Result.t) (s : State) (id : string) :
  uncredit last s id
  = set_categoryEarnings (categoryEarnings (uncredit last s id))
      (set_roundWins (roundWins (uncredit last s id)) s).
Proof.
  unfold uncredit. branches; destruct s; reflexivity.
Qed.

Lemma foldl_uncredit_only (last : Result.t) (ids : list string) (s : State) :
  foldl (uncredit last) s ids
  = set_categoryEarnings (categoryEarnings (foldl (uncredit last) s ids))
      (set_roundWins (roundWins (foldl (uncredit last) s ids)) s).
Proof.
  revert s. induction ids as [|id ids IH]; intros s; simpl.
  - destruct s; reflexivity.
  - rewrite IH. rewrite (uncredit_only last s id) at 3. reflexivity.
Qed.

(** The state after a recorded resolution: six fields are written. *)
Lemma recordResolution_only (now : Z) (x : Settlement) (w : World) :
  let s' := st (recordResolution now x w) in
  s' = set_lastResult (lastResult s')
         (set_pendingResult (pendingResult s')
            (set_resolvedRounds (resolvedRounds s')
               (set_categoryEarnings (categoryEarnings s')
                  (set_roundWins (roundWins s')
                     (set_carryRound (carryRound s') (st w)))))).
Proof.
  unfold recordResolution. cbn [st].
  unfold emitPendingResult. cbn [pendingResult set_pendingResult].
  unfold markRoundResolved. rewrite currentRoundKey_recorded.
  destruct (currentRoundKey (st w)); destruct (st w); reflexivity.
Qed.

(** ** Ranges and round keys in the reachable states *)

Lemma resolvedRounds_markRoundResolved_false (s : State) :
  resolvedRounds (markRoundResolved false s)
  = match currentRoundKey s with
    | Some k => resolvedRounds s ∖ {[k]}
    | None => resolvedRounds s
    end.
Proof. unfold markRoundResolved. destruct (currentRoundKey s); reflexivity. Qed.

Lemma resolvedRounds_recordResolution (now : Z) (x : Settlement) (w : World) :
  resolvedRounds (st (recordResolution now x w))
  = match currentRoundKey (st w) with
    | Some k => {[k]} ∪ resolvedRounds (st w)
    | None => resolvedRounds (st w)
    end.
Proof.
  unfold recordResolution. cbn [st].
  unfold emitPendingResult. cbn [pendingResult set_pendingResult].
  unfold markRoundResolved. rewrite currentRoundKey_recorded.
  destruct (currentRoundKey (st w)); reflexivity.
Qed.

(** A state that differs in none of the four fields the invariant reads. *)
Lemma stateOk_same (s s' : State) :
  roundIndex s' = roundIndex s -> teamLimit s' = teamLimit s ->
  currentCategory s' = currentCategory s ->
  resolvedRounds s' ⊆ resolvedRounds s ->
  stateOk s -> stateOk s'.
Proof.
  intros Hr Hl Hc Hs (Hri & Htl & Hk). unfold stateOk, currentRoundKey.
  rewrite Hr, Hl, Hc. split; [exact Hri |]. split; [exact Htl |].
  intros k Hin. apply Hk. apply Hs. exact Hin.
Qed.

Lemma stateOk_recordResolution (now : Z) (x : Settlement) (w : World) :
  stateOk (st w) -> stateOk (st (recordResolution now x w)).
Proof.
  intros (Hri & Htl & Hk).
  pose proof (recordResolution_only now x w) as Hs. cbv zeta in Hs.
  pose proof (resolvedRounds_recordResolution now x w) as Hrr.
  unfold stateOk, currentRoundKey. rewrite Hrr, Hs. cbn.
  split; [exact Hri |]. split; [exact Htl |].
  intros k. fold (currentRoundKey (st w)).
  destruct (currentRoundKey (st w)) as [k0|] eqn:Hk0.
  - rewrite elem_of_union, elem_of_singleton. intros [-> | Hin].
    + right. reflexivity.
    + apply Hk. exact Hin.
  - intros Hin. apply Hk. exact Hin.
Qed.

Lemma stateOk_adminResolveRound (now : Z) (winnerId : jsid)
    (winnerIds : option (list jsid)) (w : World) :
  stateOk (st w) -> stateOk (st (adminResolveRound now winnerId winnerIds w)).
Proof.
  intros H. unfold adminResolveRound.
  destruct (decide _); [| exact H].
  destruct (isRoundResolved _); [exact H |].
  destruct (settle _ _ _); [| exact H].
  apply stateOk_recordResolution, H.
Qed.

Lemma adminRoundUndo_fields (coinMap : option (gmap string jsnum))
    (carry : jsnum) (w : World) :
  let s' := st (adminRoundUndo coinMap carry w) in
  roundIndex s' = roundIndex (st w)
  /\ teamLimit s' = teamLimit (st w)
  /\ currentCategory s' = currentCategory (st w)
  /\ phase s' = phase (st w)
  /\ resolvedRounds s' ⊆ resolvedRounds (st w).
Proof.
  unfold adminRoundUndo.
  destruct (decide _); [| repeat split; reflexivity].
  destruct (isRoundResolved _); [| repeat split; reflexivity].
  cbn [st].
  repeat split;
    try (rewrite markRoundResolved_only;
         cbn [set_resolvedRounds set_lastResult set_pendingResult roundIndex
              teamLimit currentCategory phase];
         destruct (resultOfRound _);
           [rewrite foldl_uncredit_only |]; destruct carry; reflexivity).
  rewrite resolvedRounds_markRoundResolved_false.
  assert (Hrr : resolvedRounds
            (set_lastResult None
               (set_pendingResult None
                  match
                    resultOfRound
                      match carry with
                      | Fin q => set_carryRound (floorClamp q) (st w)
                      | NonFinite => st w
                      end
                  with
                  | Some last =>
                      foldl (uncredit last)
                        match carry with
                        | Fin q => set_carryRound (floorClamp q) (st w)
                        | NonFinite => st w
                        end
                        match Result.winnerIds last with
                        | [] => match Result.winnerId last with
                                | Some x => [x]
                                | None => []
                                end
                        | l => l
                        end
                  | None =>
                      match carry with
                      | Fin q => set_carryRound (floorClamp q) (st w)
                      | NonFinite => st w
                      end
                  end))
          = resolvedRounds (st w)).
  { cbn [set_lastResult set_pendingResult resolvedRounds].
    destruct (resultOfRound _);
      [rewrite foldl_uncredit_only |]; destruct carry; reflexivity. }
  rewrite Hrr. destruct (currentRoundKey _); [| reflexivity].
  intros k Hin. apply elem_of_difference in Hin as [Hin _]. exact Hin.
Qed.

Lemma stateOk_adminRoundUndo (coinMap : option (gmap string jsnum))
    (carry : jsnum) (w : World) :
  stateOk (st w) -> stateOk (st (adminRoundUndo coinMap carry w)).
Proof.
  destruct (adminRoundUndo_fields coinMap carry w) as (Hr & Hl & Hc & _ & Hs).
  apply stateOk_same; assumption.
Qed.

(** After a move to another round no key is left that could mark a round
    of the current category. *)
Lemma moveRound_keys (ri' : Z) (w : World) :
  stateOk (st w) ->
  forall k, k ∈ resolvedRounds (st (moveRound ri' w)) ->
            currentCategory (st w) = None.
Proof.
  intros (_ & _ & Hk) k. unfold moveRound. cbn [st].
  assert (Hrr : forall e,
             resolvedRounds
               (if decide (currentCategory
                             (set_submissions ∅
                                (set_roundIndex ri'
                                   (markRoundResolved false
                                      (set_lastResult None
                                         (set_pendingResult None (st w))))))
                           = Some "Elch")
                then set_elch e
                       (set_submissions ∅
                          (set_roundIndex ri'
                             (markRoundResolved false
                                (set_lastResult None
                                   (set_pendingResult None (st w))))))
                else set_submissions ∅
                       (set_roundIndex ri'
                          (markRoundResolved false
                             (set_lastResult None
                                (set_pendingResult None (st w))))))
             = match currentRoundKey (st w) with
               | Some k0 => resolvedRounds (st w) ∖ {[k0]}
               | None => resolvedRounds (st w)
               end).
  { intros e. destruct (decide _); cbn [set_elch set_submissions set_roundIndex
                                         resolvedRounds];
      rewrite resolvedRounds_markRoundResolved_false; reflexivity. }
  rewrite Hrr.
  destruct (currentRoundKey (st w)) as [k0|] eqn:Hk0.
  - rewrite elem_of_difference, elem_of_singleton. intros [Hin Hne].
    destruct (Hk k Hin) as [Hc | Hc]; [exact Hc | congruence].
  - intros Hin. destruct (Hk k Hin) as [Hc | Hc]; [exact Hc | congruence].
Qed.

Lemma moveRound_fields (ri' : Z) (w : World) :
  roundIndex (st (moveRound ri' w)) = ri'
  /\ teamLimit (st (moveRound ri' w)) = teamLimit (st w)
  /\ currentCategory (st (moveRound ri' w)) = currentCategory (st w)
  /\ phase (st (moveRound ri' w)) = phase (st w).
Proof.
  unfold moveRound. cbn [st].
  destruct (decide _);
    cbn [set_elch set_submissions set_roundIndex roundIndex teamLimit
         currentCategory phase];
    rewrite markRoundResolved_only; repeat split; reflexivity.
Qed.

Lemma stateOk_moveRound (ri' : Z) (w : World) :
  0 <= ri' <= ROUNDS_PER_CATEGORY - 1 ->
  stateOk (st w) -> stateOk (st (moveRound ri' w)).
Proof.
  intros Hri' H.
  destruct (moveRound_fields ri' w) as (Hr & Hl & Hc & _).
  unfold stateOk. rewrite Hr, Hl, Hc.
  split; [exact Hri' |]. split; [apply H |].
  intros k Hin. left. exact (moveRound_keys ri' w H k Hin).
Qed.

(** Every command keeps the ranges and the discipline of the round keys. *)
Lemma stateOk_step (window now : Z) (c : Command) (w : World) :
  stateOk (st w) -> stateOk (st (step window now c w)).
Proof.
  intros H. destruct c; cbn [step].
  - unfold teamJoin. destruct (teams w !! id); exact H.
  - unfold teamSetStake.
    destruct (decide _); [destruct (teams w !! id) |]; exact H.
  - unfold teamSubmitBuzz. branches; exact H.
  - unfold adminTeamUpdate. destruct (teams w !! id); exact H.
  - unfold adminTeamKick. destruct (_ && _)%bool; exact H.
  - destruct H as (_ & Htl & _). unfold stateOk. simpl.
    split; [unfold ROUNDS_PER_CATEGORY; lia |]. split; [exact Htl |].
    intros k Hin. apply elem_of_empty in Hin. contradiction.
  - unfold adminSetTeamLimit. destruct (_ =? _); [exact H |].
    destruct H as (Hri & _ & Hk). unfold stateOk. simpl.
    split; [exact Hri |]. split; [lia | exact Hk].
  - exact H.
  - apply stateOk_adminResolveRound, H.
  - unfold adminRoundEnd. branches; exact H.
  - apply stateOk_adminRoundUndo, H.
  - unfold adminRoundNext. destruct (decide _); [| exact H].
    apply stateOk_moveRound; [| exact H].
    destruct H as (Hri & _). unfold ROUNDS_PER_CATEGORY in *. lia.
  - unfold adminRoundPrev. destruct (decide _); [| exact H].
    apply stateOk_moveRound; [| exact H].
    destruct H as (Hri & _). unfold ROUNDS_PER_CATEGORY in *. lia.
  - destruct H as (_ & Htl & _). unfold stateOk. simpl.
    split; [unfold ROUNDS_PER_CATEGORY; lia |]. split; [exact Htl |].
    intros k Hin. apply elem_of_empty in Hin. contradiction.
  - destruct H as (_ & Htl & _). unfold stateOk. simpl.
    split; [unfold ROUNDS_PER_CATEGORY; lia |]. split; [exact Htl |].
    intros k Hin. apply elem_of_empty in Hin. contradiction.
  - exact H.
  - unfold adminTimerStop. simpl.
    destruct (timerEndsAt (st w)); [destruct (negb _) |]; exact H.
  - exact H.
  - unfold adminTimerResume. destruct (_ && _)%bool; exact H.
  - unfold adminElchDraw. destruct (decide _); exact H.
  - unfold adminElchSetLock. destruct (decide _); exact H.
  - unfold adminElchClearBuzz. destruct (decide _); exact H.
  - unfold adminElchConfirm.
    destruct (decide _); [| exact H].
    destruct (decide _); [| exact H].
    destruct (isRoundResolved (st w)); [exact H |].
    match goal with
    | |- context [match ?o with Some _ => _ | None => _ end] =>
        destruct o as [x|]
    end; [| exact H].
    destruct (_ && _)%bool; [| exact H].
    apply stateOk_adminResolveRound. exact H.
  - unfold adminElchUnlock.
    destruct (decide _); [destruct (Elch.exhausted _) |]; exact H.
  - unfold adminRaceSet. destruct mode; exact H.
  - destruct H as (_ & Htl & _). unfold stateOk. simpl.
    split; [unfold ROUNDS_PER_CATEGORY; lia |]. split; [exact Htl |].
    intros k _. left. reflexivity.
  - unfold timerTick.
    destruct (timerEndsAt (st w)); [destruct (_ && _)%bool |]; exact H.
  - unfold elchAutoUnlock.
    destruct (_ && _)%bool; [| exact H].
    destruct (Elch.buzzAnswerEndsAt _); [destruct (_ && _)%bool |]; exact H.
  - exact H.
Qed.

Lemma stateOk_initial : stateOk initial_state.
Proof.
  unfold stateOk. simpl. split; [unfold ROUNDS_PER_CATEGORY; lia |].
  split; [lia |]. intros k Hin. apply elem_of_empty in Hin. contradiction.
Qed.

Lemma stateOk_run (window : Z) (cmds : list (Z * Command)) (w : World) :
  stateOk (st w) -> stateOk (st (run window cmds w)).
Proof.
  revert w. unfold run.
  induction cmds as [|[now c] l IH]; intros w H; simpl; [exact H |].
  apply IH, stateOk_step, H.
Qed.

(** X1.  In every state reached from the initial state the round index is
    0, 1 or 2: a category starts at round 0, [adminRoundNext] stops at the
    last round and [adminRoundPrev] at the first. *)
Theorem roundIndex_in_range (window : Z) (cmds : list (Z * Command)) :
  0 <= roundIndex (st (run window cmds initial_world)) <= 2.
Proof.
  destruct (stateOk_run window cmds initial_world stateOk_initial) as (H & _).
  exact H.
Qed.

(** X2.  In every state reached from the initial state the team limit is
    between 2 and 5, whatever limits were asked for. *)
Theorem teamLimit_in_range (window : Z) (cmds : list (Z * Command)) :
  2 <= teamLimit (st (run window cmds initial_world)) <= 5.
Proof.
  destruct (stateOk_run window cmds initial_world stateOk_initial)
    as (_ & H & _).
  exact H.
Qed.

Lemma currentRoundKey_ext (s s' : State) :
  currentCategory s = currentCategory s' -> roundIndex s = roundIndex s' ->
  currentRoundKey s = currentRoundKey s'.
Proof. unfold currentRoundKey. intros -> ->. reflexivity. Qed.

Lemma currentRoundKey_None (s : State) :
  currentCategory s = None -> currentRoundKey s = None.
Proof. unfold currentRoundKey. intros ->. reflexivity. Qed.

Lemma adminRoundUndo_key (coinMap : option (gmap string jsnum))
    (carry : jsnum) (w : World) :
  currentRoundKey (st (adminRoundUndo coinMap carry w))
  = currentRoundKey (st w).
Proof.
  destruct (adminRoundUndo_fields coinMap carry w) as (Hri & _ & Hcat & _).
  apply currentRoundKey_ext; assumption.
Qed.

Lemma moveRound_open (ri' : Z) (w : World) :
  stateOk (st w) -> isRoundResolved (st (moveRound ri' w)) = false.
Proof.
  intros H. unfold isRoundResolved.
  destruct (currentRoundKey (st (moveRound ri' w))) as [k|] eqn:Hk;
    [| reflexivity].
  apply bool_decide_eq_false. intros Hin.
  pose proof (moveRound_keys ri' w H k Hin) as Hc.
  destruct (moveRound_fields ri' w) as (_ & _ & Hcat & _).
  rewrite (currentRoundKey_None _ (eq_trans Hcat Hc)) in Hk.
  discriminate Hk.
Qed.

(** X3.  Moving to the next or to the previous round always arrives at an
    open round: the key of the round that is left is deleted, so a resolved
    round that is left and entered again, or the last round when "next" is
    pressed on it, can be resolved once more. *)
Theorem round_open_after_move (window : Z) (cmds : list (Z * Command)) :
  let w := run window cmds initial_world in
  phase (st w) = CATEGORY ->
  isRoundResolved (st (adminRoundNext w)) = false
  /\ isRoundResolved (st (adminRoundPrev w)) = false
  /\ roundIndex (st (adminRoundNext w)) = Z.min 2 (roundIndex (st w) + 1)
  /\ roundIndex (st (adminRoundPrev w)) = Z.max 0 (roundIndex (st w) - 1).
Proof.
  intros w Hp.
  pose proof (stateOk_run window cmds initial_world stateOk_initial) as H.
  fold w in H. unfold adminRoundNext, adminRoundPrev.
  destruct (decide (phase (st w) = CATEGORY)); [| contradiction].
  split; [apply moveRound_open, H |].
  split; [apply moveRound_open, H |].
  split; apply moveRound_fields.
Qed.

(** Team A wins the last round of "Hase"; "next" on the last round leaves
    the index at 2 and the round open. *)
Lemma round_open_after_move_witness :
  phase (st (run 45000
               [(0, TeamJoin "A" None None);
                (1, AdminStartCategory (Some "Hase")); (2, AdminLockStakes);
                (3, AdminRoundNext); (4, AdminRoundNext);
                (5, AdminResolveRound (Str "A") None)]
               initial_world)) = CATEGORY
  /\ isRoundResolved
       (st (run 45000
              [(0, TeamJoin "A" None None);
               (1, AdminStartCategory (Some "Hase")); (2, AdminLockStakes);
               (3, AdminRoundNext); (4, AdminRoundNext);
               (5, AdminResolveRound (Str "A") None)]
              initial_world)) = true
  /\ isRoundResolved
       (st (adminRoundNext
              (run 45000
                 [(0, TeamJoin "A" None None);
                  (1, AdminStartCategory (Some "Hase")); (2, AdminLockStakes);
                  (3, AdminRoundNext); (4, AdminRoundNext);
                  (5, AdminResolveRound (Str "A") None)]
                 initial_world))) = false.
Proof.
  assert (Hp : phase (st (run 45000
               [(0, TeamJoin "A" None None);
                (1, AdminStartCategory (Some "Hase")); (2, AdminLockStakes);
                (3, AdminRoundNext); (4, AdminRoundNext);
                (5, AdminResolveRound (Str "A") None)]
               initial_world)) = CATEGORY) by (vm_compute; reflexivity).
  split; [exact Hp |]. split; [vm_compute; reflexivity |].
  exact (proj1 (round_open_after_move 45000 _ Hp)).
Defined.

(** ** The team registry *)

Lemma teamsKeyed_insert (ts : gmap string Team.t) (k : string) (t : Team.t) :
  teamsKeyed ts -> Team.id t = k -> k <> "" -> teamsKeyed (<[k := t]> ts).
Proof.
  intros H Hid Hne i x. destruct (decide (k = i)) as [->|Hki].
  - rewrite lookup_insert_eq. intros [= <-]. split; assumption.
  - rewrite lookup_insert_ne by exact Hki. apply H.
Qed.

Lemma teamsKeyed_delete (ts : gmap string Team.t) (k : string) :
  teamsKeyed ts -> teamsKeyed (delete k ts).
Proof.
  intros H i x Hl. apply lookup_delete_Some in Hl as [_ Hl]. eapply H, Hl.
Qed.

Lemma teamsKeyed_debitStakes (sk : gmap string StakeEntry)
    (ts : gmap string Team.t) :
  teamsKeyed ts -> teamsKeyed (debitStakes sk ts).
Proof.
  intros H k t. rewrite debitStakes_lookup.
  destruct (sk !! k) as [e|]; [| apply H].
  destruct (ts !! k) as [t0|] eqn:Ht; simpl; [| discriminate].
  intros [= <-]. destruct (H k t0 Ht) as [Hid Hne].
  split; [| exact Hne]. unfold debit. destruct (useJoker e); exact Hid.
Qed.

Lemma teamsKeyed_restoreCoins (m : gmap string jsnum) (ts : gmap string Team.t) :
  teamsKeyed ts -> teamsKeyed (restoreCoins m ts).
Proof.
  intros H. unfold restoreCoins.
  apply (map_fold_weak_ind (fun r _ => teamsKeyed r)); [exact H |].
  intros i v _ r _ IH.
  destruct v as [q|]; [| exact IH].
  destruct (r !! i) as [t|] eqn:Ht; [| exact IH].
  destruct (IH i t Ht) as [Hid Hne].
  apply teamsKeyed_insert; assumption.
Qed.

Lemma teamsKeyed_credit (gain : Z) (b : Books) (x : string) :
  teamsKeyed (b_teams b) -> teamsKeyed (b_teams (credit gain b x)).
Proof.
  intros H. unfold credit.
  destruct (b_teams b !! x) as [t|] eqn:Ht; simpl; [| exact H].
  destruct (H x t Ht) as [Hid Hne].
  apply teamsKeyed_insert; assumption.
Qed.

Lemma teamsKeyed_foldl_credit (gain : Z) (ids : list string) (b : Books) :
  teamsKeyed (b_teams b) -> teamsKeyed (b_teams (foldl (credit gain) b ids)).
Proof.
  revert b. induction ids as [|x l IH]; intros b H; simpl; [exact H |].
  apply IH, teamsKeyed_credit, H.
Qed.

Lemma teamsKeyed_settle (winnerId : jsid) (winnerIds : option (list jsid))
    (w : World) (x : Settlement) :
  teamsKeyed (teams w) -> settle winnerId winnerIds w = Some x ->
  teamsKeyed (b_teams (s_books x)).
Proof.
  intros H. unfold settle.
  destruct (1 <? _).
  - intros [= <-]. simpl. apply teamsKeyed_foldl_credit. exact H.
  - assert (Hnone :
        forall r, match winnerId with
                  | Null =>
                      Some (mkSettlement (booksOf w)
                              (carryRound (st w)
                               + categoryPot (st w) / ROUNDS_PER_CATEGORY)
                              None [] None)
                  | _ => None
                  end = Some r -> teamsKeyed (b_teams (s_books r))).
    { intros r. destruct winnerId; intros [= <-]. exact H. }
    destruct (match match uniqueIds (teams w) winnerIds with
                    | [x0] => Str x0
                    | _ => winnerId
                    end with
              | Str x0 => Some x0
              | _ => None
              end) as [y|]; [| apply Hnone].
    destruct (truthy y && bool_decide (is_Some (teams w !! y)))%bool;
      [| apply Hnone].
    intros [= <-]. simpl. apply teamsKeyed_credit. exact H.
Qed.

Lemma teamsKeyed_adminResolveRound (now : Z) (winnerId : jsid)
    (winnerIds : option (list jsid)) (w : World) :
  teamsKeyed (teams w) ->
  teamsKeyed (teams (adminResolveRound now winnerId winnerIds w)).
Proof.
  intros H. unfold adminResolveRound.
  destruct (decide _); [| exact H].
  destruct (isRoundResolved _); [exact H |].
  destruct (settle winnerId winnerIds w) as [x|] eqn:Hs; [| exact H].
  simpl. exact (teamsKeyed_settle winnerId winnerIds w x H Hs).
Qed.

(** Every command keeps each team under its own id. *)
Lemma teamsKeyed_step (window now : Z) (c : Command) (w : World) :
  joinsNamed c -> teamsKeyed (teams w) ->
  teamsKeyed (teams (step window now c w)).
Proof.
  intros Hc H. destruct c; cbn [step].
  - unfold teamJoin. simpl in Hc.
    destruct (teams w !! id) as [t|] eqn:Ht; cbn [teams].
    + destruct (H id t Ht) as [Hid _].
      apply teamsKeyed_insert; [exact H | | exact Hc].
      branches; exact Hid.
    + apply teamsKeyed_insert; [exact H | reflexivity | exact Hc].
  - unfold teamSetStake.
    destruct (decide _); [destruct (teams w !! id) |]; exact H.
  - unfold teamSubmitBuzz. branches; exact H.
  - unfold adminTeamUpdate.
    destruct (teams w !! id) as [t|] eqn:Ht; [| exact H].
    destruct (H id t Ht) as [Hid Hne]. cbn [teams].
    apply teamsKeyed_insert; [exact H | | exact Hne].
    destruct coins, quizJoker, name, avatar; exact Hid.
  - unfold adminTeamKick. destruct (_ && _)%bool; [| exact H].
    cbn [teams]. apply teamsKeyed_delete, H.
  - exact H.
  - unfold adminSetTeamLimit. destruct (_ =? _); exact H.
  - cbn [adminLockStakes teams]. apply teamsKeyed_debitStakes, H.
  - apply teamsKeyed_adminResolveRound, H.
  - unfold adminRoundEnd. branches; exact H.
  - unfold adminRoundUndo.
    destruct (decide _); [| exact H].
    destruct (isRoundResolved _); [| exact H].
    cbn [teams]. destruct coinMap; [apply teamsKeyed_restoreCoins |]; exact H.
  - unfold adminRoundNext. destruct (decide _); exact H.
  - unfold adminRoundPrev. destruct (decide _); exact H.
  - exact H.
  - exact H.
  - exact H.
  - exact H.
  - exact H.
  - unfold adminTimerResume. destruct (_ && _)%bool; exact H.
  - unfold adminElchDraw. destruct (decide _); exact H.
  - unfold adminElchSetLock. destruct (decide _); exact H.
  - unfold adminElchClearBuzz. destruct (decide _); exact H.
  - unfold adminElchConfirm.
    destruct (decide _); [| exact H].
    destruct (decide _); [| exact H].
    destruct (isRoundResolved (st w)); [exact H |].
    match goal with
    | |- context [match ?o with Some _ => _ | None => _ end] =>
        destruct o as [x|]
    end; [| exact H].
    destruct (_ && _)%bool; [| exact H].
    apply teamsKeyed_adminResolveRound. exact H.
  - unfold adminElchUnlock.
    destruct (decide _); [destruct (Elch.exhausted _) |]; exact H.
  - unfold adminRaceSet. destruct mode; exact H.
  - intros k t Hl. simpl in Hl. rewrite lookup_empty in Hl. discriminate Hl.
  - unfold timerTick.
    destruct (timerEndsAt (st w)); [destruct (_ && _)%bool |]; exact H.
  - unfold elchAutoUnlock.
    destruct (_ && _)%bool; [| exact H].
    destruct (Elch.buzzAnswerEndsAt _); [destruct (_ && _)%bool |]; exact H.
  - exact H.
Qed.

Lemma teamsKeyed_run (window : Z) (cmds : list (Z * Command)) (w : World) :
  Forall (fun tc => joinsNamed (snd tc)) cmds ->
  teamsKeyed (teams w) -> teamsKeyed (teams (run window cmds w)).
Proof.
  intros H. revert w. unfold run.
  induction H as [|[now c] l Hc _ IH]; intros w Hw; simpl; [exact Hw |].
  apply IH, teamsKeyed_step; assumption.
Qed.

(** Inserting the pairs of a list without repeated keys, first to last. *)
Lemma foldl_insert_lookup (l : list (string * Team.t))
    (acc : gmap string Team.t) (k : string) :
  NoDup (fst <$> l) ->
  foldl (fun (m : gmap string Team.t) kv => <[fst kv := snd kv]> m) acc l !! k
  = match list_to_map (M := gmap string Team.t) l !! k with
    | Some v => Some v
    | None => acc !! k
    end.
Proof.
  revert acc. induction l as [|[k0 v0] l IH]; intros acc Hnd; simpl.
  - rewrite lookup_empty. reflexivity.
  - apply NoDup_cons in Hnd as [Hk0 Hnd]. rewrite IH by exact Hnd.
    destruct (decide (k0 = k)) as [->|Hne].
    + rewrite lookup_insert_eq.
      rewrite (not_elem_of_list_to_map_1 (M := gmap string) l k Hk0).
      rewrite lookup_insert_eq. reflexivity.
    + rewrite (lookup_insert_ne (list_to_map l) k0 k v0 Hne).
      destruct (list_to_map l !! k); [reflexivity |].
      apply lookup_insert_ne. exact Hne.
Qed.

(** A registry that keeps every team under its own id comes back from the
    disk as it was. *)
Lemma loadTeams_snapshotTeams (ts : gmap string Team.t) :
  teamsKeyed ts -> loadTeams (snapshotTeams ts) = ts.
Proof.
  intros H. unfold loadTeams, snapshotTeams.
  assert (Hl : forall l : list (string * Team.t),
             (forall k t, (k, t) ∈ l -> Team.id t = k /\ k <> "") ->
             forall acc,
               foldl (fun acc t => if truthy (Team.id t)
                                   then <[Team.id t := t]> acc else acc)
                     acc (snd <$> l)
               = foldl (fun (m : gmap string Team.t) kv =>
                          <[fst kv := snd kv]> m) acc l).
  { induction l as [|[k t] l IH]; intros Hall acc; simpl; [reflexivity |].
    destruct (Hall k t) as [Hid Hne]; [left |].
    rewrite Hid, (truthy_nonempty k Hne). apply IH.
    intros k' t' Hin. apply Hall. right. exact Hin. }
  rewrite Hl.
  - apply map_eq. intros k.
    rewrite foldl_insert_lookup by apply NoDup_fst_map_to_list.
    rewrite list_to_map_to_list, lookup_empty.
    destruct (ts !! k); reflexivity.
  - intros k t Hin. apply elem_of_map_to_list in Hin. apply H. exact Hin.
Qed.

(** X4.  The team registry survives a restart: in every state reached from
    the initial state by commands whose joins carry a non-empty team id,
    loading the team list written by [snapshotTeams] gives back exactly the
    registered teams, with their balances and jokers. *)
Theorem teams_survive_restart (window : Z) (cmds : list (Z * Command)) :
  Forall (fun tc => joinsNamed (snd tc)) cmds ->
  loadTeams (snapshotTeams (teams (run window cmds initial_world)))
  = teams (run window cmds initial_world).
Proof.
  intros H. apply loadTeams_snapshotTeams.
  apply teamsKeyed_run; [exact H |].
  intros k t Hl. simpl in Hl. rewrite lookup_empty in Hl. discriminate Hl.
Qed.

(** Teams A and B after a lock with stakes. *)
Lemma teams_survive_restart_witness :
  Forall (fun tc : Z * Command => joinsNamed (snd tc))
    [(0, TeamJoin "A" None None); (1, TeamJoin "B" None None);
     (2, AdminStartCategory (Some "Hase"));
     (3, TeamSetStake "A" (Fin (9 # 1)) true);
     (4, TeamSetStake "B" (Fin (9 # 1)) false);
     (5, AdminLockStakes)]
  /\ loadTeams (snapshotTeams (teams exLocked)) = teams exLocked.
Proof.
  assert (Hc : Forall (fun tc : Z * Command => joinsNamed (snd tc))
    [(0, TeamJoin "A" None None); (1, TeamJoin "B" None None);
     (2, AdminStartCategory (Some "Hase"));
     (3, TeamSetStake "A" (Fin (9 # 1)) true);
     (4, TeamSetStake "B" (Fin (9 # 1)) false);
     (5, AdminLockStakes)]).
  { repeat constructor; simpl; discriminate. }
  split; [exact Hc |].
  exact (teams_survive_restart 45000 _ Hc).
Defined.

(** ** Undoing a resolved round *)

Lemma restoreCoins_lookup (m : gmap string jsnum) (ts : gmap string Team.t)
    (id : string) :
  restoreCoins m ts !! id =
    match m !! id with
    | Some (Fin q) => Team.set_coins (floorClamp q) <$> ts !! id
    | _ => ts !! id
    end.
Proof.
  unfold restoreCoins. revert id.
  apply (map_fold_weak_ind
           (fun r m' => forall id,
                r !! id = match m' !! id with
                          | Some (Fin q) =>
                              Team.set_coins (floorClamp q) <$> ts !! id
                          | _ => ts !! id
                          end)).
  - intros id. rewrite lookup_empty. reflexivity.
  - intros i v m' r Hi IH id.
    pose proof (IH i) as Hri. rewrite Hi in Hri.
    destruct (decide (i = id)) as [->|Hne].
    + rewrite lookup_insert_eq. destruct v as [q|]; [| exact Hri].
      rewrite Hri. destruct (ts !! id) as [t|]; simpl.
      * rewrite lookup_insert_eq. reflexivity.
      * exact Hri.
    + rewrite (lookup_insert_ne m' i id v Hne).
      destruct v as [q|]; [| apply IH].
      destruct (r !! i) as [t|]; [| apply IH].
      rewrite lookup_insert_ne by exact Hne. apply IH.
Qed.

(** A settlement changes the registry only by adding to balances. *)
Lemma settle_teams (winnerId : jsid) (winnerIds : option (list jsid))
    (w : World) (x : Settlement) (id : string) :
  settle winnerId winnerIds w = Some x ->
  exists gain, b_teams (s_books x) !! id = addCoins gain <$> teams w !! id.
Proof.
  assert (H0 : exists gain, teams w !! id = addCoins gain <$> teams w !! id).
  { exists 0. destruct (teams w !! id) as [t|]; [| reflexivity].
    destruct t. unfold addCoins, Team.set_coins. simpl.
    rewrite Z.add_0_r. reflexivity. }
  unfold settle. destruct (1 <? _).
  - intros [= <-]. cbn [s_books].
    rewrite foldl_credit_teams by apply uniqueIds_NoDup.
    destruct (decide _); [eexists; reflexivity | exact H0].
  - assert (Hnone :
        forall r, match winnerId with
                  | Null =>
                      Some (mkSettlement (booksOf w)
                              (carryRound (st w)
                               + categoryPot (st w) / ROUNDS_PER_CATEGORY)
                              None [] None)
                  | _ => None
                  end = Some r ->
                  exists gain,
                    b_teams (s_books r) !! id = addCoins gain <$> teams w !! id).
    { intros r. destruct winnerId; intros [= <-]. exact H0. }
    destruct (match match uniqueIds (teams w) winnerIds with
                    | [x0] => Str x0
                    | _ => winnerId
                    end with
              | Str x0 => Some x0
              | _ => None
              end) as [y|]; [| apply Hnone].
    destruct (truthy y && bool_decide (is_Some (teams w !! y)))%bool;
      [| apply Hnone].
    intros [= <-]. cbn [s_books]. rewrite credit_teams.
    destruct (decide _); [eexists; reflexivity | exact H0].
Qed.

(** What an undo of a resolved round leaves in the world, apart from the
    two tallies. *)
Lemma adminRoundUndo_resolved (coinMap : option (gmap string jsnum))
    (carry : jsnum) (w : World) :
  phase (st w) = CATEGORY -> isRoundResolved (st w) = true ->
  let w' := adminRoundUndo coinMap carry w in
  teams w' = match coinMap with
             | Some m => restoreCoins m (teams w)
             | None => teams w
             end
  /\ carryRound (st w') = match carry with
                          | Fin q => floorClamp q
                          | NonFinite => carryRound (st w)
                          end
  /\ pendingResult (st w') = None
  /\ lastResult (st w') = None
  /\ resolvedRounds (st w')
     = match currentRoundKey (st w) with
       | Some k => resolvedRounds (st w) ∖ {[k]}
       | None => resolvedRounds (st w)
       end.
Proof.
  intros Hp Hr. unfold adminRoundUndo.
  destruct (decide (phase (st w) = CATEGORY)); [| contradiction].
  rewrite Hr. cbn [st teams].
  split; [reflexivity |].
  set (s1 := match carry with
             | Fin q => set_carryRound (floorClamp q) (st w)
             | NonFinite => st w
             end).
  set (s2 := match resultOfRound s1 with
             | Some last => _
             | None => s1
             end).
  assert (Hs2 : carryRound s2 = carryRound s1
                /\ currentCategory s2 = currentCategory (st w)
                /\ roundIndex s2 = roundIndex (st w)
                /\ resolvedRounds s2 = resolvedRounds (st w)).
  { subst s2. destruct (resultOfRound s1);
      [rewrite foldl_uncredit_only |]; subst s1; destruct carry;
      repeat split; reflexivity. }
  destruct Hs2 as (Hc & Hcat & Hri & Hrr).
  rewrite markRoundResolved_only.
  cbn [set_resolvedRounds set_lastResult set_pendingResult carryRound
       pendingResult lastResult resolvedRounds].
  split; [rewrite Hc; subst s1; destruct carry; reflexivity |].
  split; [reflexivity |]. split; [reflexivity |].
  rewrite resolvedRounds_markRoundResolved_false.
  unfold currentRoundKey.
  cbn [set_lastResult set_pendingResult resolvedRounds currentCategory
       roundIndex].
  rewrite Hcat, Hri, Hrr. reflexivity.
Qed.

(** X5.  Undo gives back what a resolution paid.  A round with a key is
    resolved, with any outcome (single winner, tie or no winner), and then
    undone with a snapshot that holds the balance every team had and the
    carry there was before the resolution.  Afterwards the registry and the
    carry are exactly those from before, the round is open again with the
    same set of resolved rounds, and no result is pending or remembered. *)
Theorem undo_restores_balances (now : Z) (winnerId : jsid)
    (winnerIds : option (list jsid)) (coinMap : gmap string jsnum)
    (w : World) (k : RoundKey) (x : Settlement) :
  phase (st w) = CATEGORY ->
  currentRoundKey (st w) = Some k ->
  isRoundResolved (st w) = false ->
  settle winnerId winnerIds w = Some x ->
  teamsOk (teams w) -> 0 <= carryRound (st w) ->
  (forall id t, teams w !! id = Some t ->
                coinMap !! id = Some (Fin (inject_Z (Team.coins t)))) ->
  let w' := adminRoundUndo (Some coinMap) (Fin (inject_Z (carryRound (st w))))
              (adminResolveRound now winnerId winnerIds w) in
  teams w' = teams w
  /\ carryRound (st w') = carryRound (st w)
  /\ isRoundResolved (st w') = false
  /\ resolvedRounds (st w') = resolvedRounds (st w)
  /\ pendingResult (st w') = None
  /\ lastResult (st w') = None.
Proof.
  intros Hp Hk Hr Hs Hok Hc Hm.
  rewrite (adminResolveRound_resolves now winnerId winnerIds w x Hp Hr Hs).
  destruct (recordResolution_effects now x w)
    as (Ht & _ & _ & _ & Hp' & Hk' & _).
  pose proof (isRoundResolved_recordResolution now x w k Hk) as Hr'.
  rewrite Hp in Hp'.
  destruct (adminRoundUndo_resolved (Some coinMap)
              (Fin (inject_Z (carryRound (st w))))
              (recordResolution now x w) Hp' Hr')
    as (Ht'' & Hc'' & Hpe & Hla & Hrr).
  assert (Hnot : k ∉ resolvedRounds (st w)).
  { unfold isRoundResolved in Hr. rewrite Hk in Hr.
    apply bool_decide_eq_false in Hr. exact Hr. }
  assert (Hrr' : resolvedRounds
                   (st (adminRoundUndo (Some coinMap)
                          (Fin (inject_Z (carryRound (st w))))
                          (recordResolution now x w)))
                 = resolvedRounds (st w)).
  { rewrite Hrr, Hk', Hk, resolvedRounds_recordResolution, Hk.
    apply set_eq. intros y.
    rewrite elem_of_difference, elem_of_union, elem_of_singleton.
    split.
    - intros [[->|Hy] Hny]; [exfalso; apply Hny; reflexivity | exact Hy].
    - intros Hy. split; [right; exact Hy |].
      intros ->. apply Hnot. exact Hy. }
  cbv zeta. split.
  { rewrite Ht''. apply map_eq. intros id.
    rewrite restoreCoins_lookup, Ht.
    destruct (settle_teams winnerId winnerIds w x id Hs) as [gain ->].
    destruct (teams w !! id) as [t|] eqn:Hid.
    - rewrite (Hm id t Hid). simpl. f_equal.
      unfold floorClamp. rewrite Qfloor_Z.
      pose proof (Hok id t Hid) as Hpos.
      destruct t. unfold addCoins, Team.set_coins. simpl in *.
      f_equal. lia.
    - destruct (coinMap !! id) as [[q|]|]; reflexivity. }
  split.
  { rewrite Hc''. unfold floorClamp. rewrite Qfloor_Z. lia. }
  split.
  { unfold isRoundResolved.
    rewrite adminRoundUndo_key, Hk', Hk, Hrr'.
    apply bool_decide_eq_false. exact Hnot. }
  split; [exact Hrr' |]. split; assumption.
Qed.

(** Team A wins the first round of "Hase" (pot 30, both teams at 15) and
    the round is undone with the balances and the carry from before. *)
Lemma undo_restores_balances_witness :
  teams (adminRoundUndo
           (Some (<["A" := Fin (15 # 1)]> (<["B" := Fin (15 # 1)]> ∅)))
           (Fin (0 # 1))
           (adminResolveRound 7 (Str "A") None
              (mkWorld (exState CATEGORY 0 ∅ 30 0) (exTeams 15 15))))
  = exTeams 15 15
  /\ Team.coins <$>
       teams (adminResolveRound 7 (Str "A") None
                (mkWorld (exState CATEGORY 0 ∅ 30 0) (exTeams 15 15))) !! "A"
     = Some 25.
Proof.
  split; [| vm_compute; reflexivity].
  assert (H5 : teamsOk (exTeams 15 15)).
  { intros id t Hl. unfold exTeams in Hl.
    apply lookup_insert_Some in Hl as [[_ <-]|[_ Hl]]; [simpl; lia |].
    apply lookup_insert_Some in Hl as [[_ <-]|[_ Hl]]; [simpl; lia |].
    rewrite lookup_empty in Hl. discriminate Hl. }
  assert (H7 : forall id t, exTeams 15 15 !! id = Some t ->
                 (<["A" := Fin (15 # 1)]> (<["B" := Fin (15 # 1)]> ∅)
                    : gmap string jsnum) !! id
                 = Some (Fin (inject_Z (Team.coins t)))).
  { intros id t Hl. unfold exTeams in Hl.
    apply lookup_insert_Some in Hl as [[<- <-]|[Hna Hl]];
      [rewrite lookup_insert_eq; reflexivity |].
    rewrite lookup_insert_ne by exact Hna.
    apply lookup_insert_Some in Hl as [[<- <-]|[_ Hl]];
      [rewrite lookup_insert_eq; reflexivity |].
    rewrite lookup_empty in Hl. discriminate Hl. }
  exact (proj1 (undo_restores_balances 7 (Str "A") None _
                  (mkWorld (exState CATEGORY 0 ∅ 30 0) (exTeams 15 15))
                  ("Hase", 0)
                  (mkSettlement
                     (credit 10
                        (booksOf (mkWorld (exState CATEGORY 0 ∅ 30 0)
                                    (exTeams 15 15))) "A")
                     0 (Some "A") ["A"] None)
                  eq_refl eq_refl eq_refl eq_refl H5 (Z.le_refl 0) H7)).
Defined.

(** ** The round timer *)

Lemma ceilDiv1000_bounds (a : Z) :
  a <= ceilDiv1000 a * 1000 < a + 1000.
Proof.
  unfold ceilDiv1000.
  pose proof (Z.div_mod (- a) 1000 ltac:(lia)) as Hd.
  pose proof (Z.mod_pos_bound (- a) 1000 ltac:(lia)) as Hm.
  lia.
Qed.

(** X6.  Stopping a running timer and resuming it later never takes time
    away and gives less than a second: with [r > 0] milliseconds left at the
    stop, the resumed timer ends between [r] and [r + 1000] milliseconds
    after the resume, after a whole number of seconds, and the duration
    shown for the bar is the original one.  A timer stopped at or after its
    end cannot be resumed. *)
Theorem timer_stop_then_resume (nowStop nowResume e : Z) (w : World) :
  timerEndsAt (st w) = Some e -> e <> 0 ->
  let w' := adminTimerResume nowResume (adminTimerStop nowStop w) in
  timerDuration (st w') = timerDuration (st w)
  /\ (nowStop < e ->
      exists e', timerEndsAt (st w') = Some e'
                 /\ e - nowStop <= e' - nowResume < e - nowStop + 1000
                 /\ (e' - nowResume) mod 1000 = 0
                 /\ timerPausedRemaining (st w') = 0)
  /\ (e <= nowStop -> timerEndsAt (st w') = None).
Proof.
  intros He Hne.
  assert (Hz : (e =? 0) = false) by (apply Z.eqb_neq; exact Hne).
  pose proof (ceilDiv1000_bounds (e - nowStop)) as Hb.
  cbv zeta. unfold adminTimerStop, adminTimerResume, on_state.
  cbn [st teams]. rewrite He. cbn [truthyZ]. rewrite Hz.
  cbn [negb set_timerEndsAt set_timerPausedRemaining timerEndsAt
       timerPausedRemaining truthyZ andb].
  destruct (0 <? Z.max 0 (ceilDiv1000 (e - nowStop))) eqn:Hpos;
    cbn [st set_timerEndsAt set_timerPausedRemaining timerEndsAt
         timerPausedRemaining timerDuration].
  - apply Z.ltb_lt in Hpos.
    split; [reflexivity |]. split.
    + intros _. eexists. split; [reflexivity |].
      replace (nowResume
               + Z.max 1 (Z.max 0 (ceilDiv1000 (e - nowStop))) * 1000
               - nowResume)
        with (ceilDiv1000 (e - nowStop) * 1000) by lia.
      split; [exact Hb |]. split; [apply Z_mod_mult | reflexivity].
    + intros Hle. lia.
  - apply Z.ltb_ge in Hpos.
    split; [reflexivity |]. split.
    + intros Hlt. lia.
    + intros _. reflexivity.
Qed.

(** A timer with 2500 ms left is stopped at 7500 and resumed at 20000: it
    then runs for 3 s. *)
Lemma timer_stop_then_resume_witness :
  timerEndsAt
    (st (adminTimerResume 20000
           (adminTimerStop 7500 (adminTimerStart 0 10 initial_world))))
  = Some 23000
  /\ timerDuration
       (st (adminTimerResume 20000
              (adminTimerStop 7500 (adminTimerStart 0 10 initial_world))))
     = 10.
Proof.
  split; [vm_compute; reflexivity |].
  exact (proj1 (timer_stop_then_resume 7500 20000 10000
                  (adminTimerStart 0 10 initial_world) eq_refl
                  ltac:(discriminate))).
Defined.

(** X7.  The grace period of a submission.  While a timer is running no
    submission is too late, whatever expiry was recorded earlier.  Once the
    tick has seen a timer with a positive duration run out in the CATEGORY
    phase, a submission at [now'] is dropped exactly when it comes more
    than 300 ms after the time the timer was set to end (not after the
    time of the tick). *)
Theorem tooLate_after_expiry (now now' e : Z) (w : World) :
  timerEndsAt (st w) = Some e -> e <> 0 ->
  tooLate now' (st w) = false
  /\ (phase (st w) = CATEGORY -> e <= now -> 0 < timerDuration (st w) ->
      tooLate now' (st (timerTick now w)) = (300 <? now' - e))
  /\ (now < e -> timerTick now w = w).
Proof.
  intros He Hne.
  assert (Hz : (e =? 0) = false) by (apply Z.eqb_neq; exact Hne).
  split; [| split].
  - unfold tooLate. rewrite He. cbn [truthyZ]. rewrite Hz.
    destruct (lastTimerEnd (st w)); [| reflexivity].
    cbn [negb]. rewrite andb_false_r. reflexivity.
  - intros Hp Hle Hd. unfold timerTick. rewrite He, Hp. cbn [truthyZ].
    rewrite Hz. apply Z.leb_le in Hle. rewrite Hle.
    rewrite bool_decide_eq_true_2 by reflexivity.
    cbn [negb andb on_state st]. unfold tooLate.
    cbn [set_lastTimerEnd set_timerEndsAt lastTimerEnd timerDuration
         timerEndsAt truthyZ]. rewrite Hz.
    apply Z.ltb_lt in Hd. rewrite Hd. reflexivity.
  - intros Hlt. unfold timerTick. rewrite He.
    assert (Hf : (e <=? now) = false) by (apply Z.leb_gt; exact Hlt).
    rewrite Hf, andb_false_r. reflexivity.
Qed.

(** A timer of 10 s started at 0 in the CATEGORY phase is seen expired by
    the tick at 10200; a submission at 10300 is accepted, one at 10301
    is dropped. *)
Lemma tooLate_after_expiry_witness :
  tooLate 10300 (st (timerTick 10200 (adminTimerStart 0 10 exLocked))) = false
  /\ tooLate 10301 (st (timerTick 10200 (adminTimerStart 0 10 exLocked)))
     = true.
Proof.
  split.
  - exact (proj1 (proj2 (tooLate_after_expiry 10200 10300 10000
                           (adminTimerStart 0 10 exLocked) eq_refl
                           ltac:(discriminate)))
             eq_refl ltac:(discriminate) eq_refl).
  - vm_compute. reflexivity.
Defined.

(** X8.  Starting a timer: the duration is the requested number of seconds
    brought into the range 1..999, the timer ends that many seconds after
    the start, nothing is paused, and the earlier expiry is forgotten, so
    that no submission counts as late. *)
Theorem adminTimerStart_fresh (now seconds now' : Z) (w : World) :
  let s' := st (adminTimerStart now seconds w) in
  1 <= timerDuration s' <= 999
  /\ (1 <= seconds <= 999 -> timerDuration s' = seconds)
  /\ timerEndsAt s' = Some (now + timerDuration s' * 1000)
  /\ timerPausedRemaining s' = 0
  /\ tooLate now' s' = false.
Proof.
  cbv zeta. unfold adminTimerStart, on_state, tooLate. simpl.
  repeat split; lia.
Qed.

Lemma adminTimerStart_fresh_witness :
  timerDuration (st (adminTimerStart 5 30 exLocked)) = 30.
Proof.
  apply (adminTimerStart_fresh 5 30 0 exLocked). lia.
Defined.

(** ** The idempotency guard beyond its window *)

(** X9.  The window of the guard is enforced by the purge only.  An action
    id recorded at [t] is reported as a duplicate at any later time, however
    long after [t], as long as no purge is due (the last purge, or the
    epoch when there was none, is at most 60 s back).  When a purge is due,
    an id older than 10 s is dropped by it, so the action is accepted again
    and recorded with the new time; an id within the window survives the
    purge and is still a duplicate. *)
Theorem stale_action_until_purge (now t : Z) (a : string) (g : Guard) :
  truthy a = true -> recent g !! a = Some t ->
  (now <= default 0 (lastPurge g) + 60000 ->
   isDuplicateAction now (Some a) g = (true, g))
  /\ (default 0 (lastPurge g) + 60000 < now -> now - t > IDEMP_WINDOW_MS ->
      fst (isDuplicateAction now (Some a) g) = false
      /\ recent (snd (isDuplicateAction now (Some a) g)) !! a = Some now
      /\ lastPurge (snd (isDuplicateAction now (Some a) g)) = Some now)
  /\ (default 0 (lastPurge g) + 60000 < now -> now - t <= IDEMP_WINDOW_MS ->
      fst (isDuplicateAction now (Some a) g) = true).
Proof.
  intros Ha Ht.
  assert (Hsz : Nat.eqb (size (recent g)) 0 = false).
  { apply Nat.eqb_neq. intros H0. apply map_size_empty_iff in H0.
    rewrite H0, lookup_empty in Ht. discriminate Ht. }
  unfold isDuplicateAction, purge. rewrite Ha, Hsz. cbn [negb andb].
  split; [| split].
  - intros Hle.
    assert (Hf : (default 0 (lastPurge g) + 60000 <? now) = false)
      by (apply Z.ltb_ge; exact Hle).
    rewrite Hf, Ht. reflexivity.
  - intros Hlt Hold. apply Z.ltb_lt in Hlt. rewrite Hlt. cbn [recent].
    assert (Hn : filter (fun kv : string * Z => ~ now - snd kv > IDEMP_WINDOW_MS)
                   (recent g) !! a = None).
    { apply map_lookup_filter_None. right. intros x Hx Hp.
      rewrite Ht in Hx. injection Hx as <-. apply Hp. exact Hold. }
    rewrite Hn. cbn [fst snd recent lastPurge].
    rewrite lookup_insert_eq. repeat split.
  - intros Hlt Hin. apply Z.ltb_lt in Hlt. rewrite Hlt. cbn [recent].
    assert (Hs : filter (fun kv : string * Z => ~ now - snd kv > IDEMP_WINDOW_MS)
                   (recent g) !! a = Some t).
    { apply map_lookup_filter_Some. split; [exact Ht |]. simpl. lia. }
    rewrite Hs. reflexivity.
Qed.

(** The id "a1" recorded at 1000: a duplicate at 59000, 58 s later;
    accepted again at 70000, when a purge is due. *)
Lemma stale_action_until_purge_witness :
  isDuplicateAction 59000 (Some "a1") (mkGuard {["a1" := 1000]} None)
  = (true, mkGuard {["a1" := 1000]} None)
  /\ fst (isDuplicateAction 70000 (Some "a1") (mkGuard {["a1" := 1000]} None))
     = false.
Proof.
  assert (Ha : truthy "a1" = true) by reflexivity.
  assert (Ht : recent (mkGuard {["a1" := 1000]} None) !! "a1" = Some 1000)
    by (vm_compute; reflexivity).
  pose proof (stale_action_until_purge 59000 1000 "a1" _ Ha Ht) as H1.
  pose proof (stale_action_until_purge 70000 1000 "a1" _ Ha Ht) as H2.
  split.
  - apply (proj1 H1). simpl. lia.
  - apply (proj1 (proj2 H2)); simpl; unfold IDEMP_WINDOW_MS; lia.
Defined.

(** ** Joining and leaving *)

Lemma takenAvatars_elem (ts : gmap string Team.t) (a : string) :
  a ∈ takenAvatars ts <-> exists k t, ts !! k = Some t /\ Team.avatar t = a.
Proof.
  unfold takenAvatars. revert a.
  apply (map_fold_weak_ind
           (fun (r : gset string) (m : gmap string Team.t) =>
              forall a, a ∈ r
                        <-> exists k t, m !! k = Some t /\ Team.avatar t = a)).
  - intros a. split.
    + intros H. apply elem_of_empty in H. contradiction.
    + intros (k & t & H & _). rewrite lookup_empty in H. discriminate H.
  - intros i x m r Hi IH a. rewrite elem_of_union, elem_of_singleton, IH.
    split.
    + intros [-> | (k & t & Hk & Ha)].
      * exists i, x. rewrite lookup_insert_eq. split; reflexivity.
      * exists k, t. split; [| exact Ha].
        rewrite lookup_insert_ne; [exact Hk |].
        intros ->. rewrite Hi in Hk. discriminate Hk.
    + intros (k & t & Hk & Ha).
      apply lookup_insert_Some in Hk as [[_ <-]|[_ Hk]].
      * left. symmetry. exact Ha.
      * right. exists k, t. split; assumption.
Qed.

(** X10.  A first join registers the team under its id with 24 coins, one
    joker and the time of the join, and changes neither the state nor any
    other team.  As long as some avatar of the pool is free, the avatar the
    team gets is from the pool and is held by no other team, whatever avatar
    was asked for. *)
Theorem teamJoin_new_team (now : Z) (id : string) (name avatar : option string)
    (w : World) :
  teams w !! id = None ->
  let w' := teamJoin now id name avatar w in
  st w' = st w
  /\ (forall k, k <> id -> teams w' !! k = teams w !! k)
  /\ exists t, teams w' !! id = Some t
       /\ Team.id t = id /\ Team.coins t = 24 /\ Team.quizJoker t = 1
       /\ Team.joinedAt t = now
       /\ ((exists a, a ∈ AVATAR_POOL /\ a ∉ takenAvatars (teams w)) ->
           Team.avatar t ∈ AVATAR_POOL
           /\ forall k t0, teams w !! k = Some t0 ->
                           Team.avatar t0 <> Team.avatar t).
Proof.
  intros Hnew. cbv zeta. unfold teamJoin. rewrite Hnew. cbn [st teams].
  split; [reflexivity |]. split.
  { intros k Hk. apply lookup_insert_ne. congruence. }
  eexists. split; [apply lookup_insert_eq |]. cbn [Team.id Team.coins
    Team.quizJoker Team.joinedAt Team.avatar].
  repeat (split; [reflexivity |]).
  intros (a0 & Ha0 & Hfree).
  match goal with
  | |- ?av ∈ _ /\ _ =>
      assert (Hav : av ∈ AVATAR_POOL /\ av ∉ takenAvatars (teams w))
  end.
  { destruct (normalizeAvatar <$> avatar) as [a|]; cbn [fmap option_fmap option_map].
    - unfold includesStr.
      destruct (bool_decide (a ∈ AVATAR_POOL)) eqn:Hin;
        destruct (bool_decide (a ∉ takenAvatars (teams w))) eqn:Hnt;
        cbn [andb];
        try (apply bool_decide_eq_true in Hin;
             apply bool_decide_eq_true in Hnt; split; assumption).
      all: destruct (List.find _ AVATAR_POOL) as [b|] eqn:Hf;
        [apply find_some in Hf as [Hb Hbf];
         apply bool_decide_eq_true in Hbf;
         apply list_elem_of_In in Hb; split; assumption
        |exfalso; apply list_elem_of_In in Ha0;
         pose proof (find_none _ _ Hf a0 Ha0) as Hc;
         apply bool_decide_eq_false in Hc; apply Hc; exact Hfree].
    - destruct (List.find _ AVATAR_POOL) as [b|] eqn:Hf;
        [apply find_some in Hf as [Hb Hbf];
         apply bool_decide_eq_true in Hbf;
         apply list_elem_of_In in Hb; split; assumption
        |exfalso; apply list_elem_of_In in Ha0;
         pose proof (find_none _ _ Hf a0 Ha0) as Hc;
         apply bool_decide_eq_false in Hc; apply Hc; exact Hfree]. }
  destruct Hav as [Hpool Hnt]. split; [exact Hpool |].
  intros k t0 Hk Heq. apply Hnt. apply takenAvatars_elem.
  exists k, t0. split; assumption.
Qed.

(** Team "C" joins the game of A and B and asks for the avatar the two
    hold: it gets the next one of the pool. *)
Lemma teamJoin_new_team_witness :
  teams (mkWorld initial_state (exTeams 24 24)) !! "C" = None
  /\ Team.avatar <$>
       teams (teamJoin 9 "C" None (Some "avatars/seekuh.png")
                (mkWorld initial_state (exTeams 24 24))) !! "C"
     = Some "/avatars/waschbaer.png"
  /\ st (teamJoin 9 "C" None (Some "avatars/seekuh.png")
           (mkWorld initial_state (exTeams 24 24)))
     = initial_state.
Proof.
  assert (H : teams (mkWorld initial_state (exTeams 24 24)) !! "C" = None)
    by (vm_compute; reflexivity).
  split; [exact H |]. split; [vm_compute; reflexivity |].
  exact (proj1 (teamJoin_new_team 9 "C" None (Some "avatars/seekuh.png")
                  (mkWorld initial_state (exTeams 24 24)) H)).
Defined.

(** X11.  A join of a team that is registered already (a reconnect) keeps
    its coins, its joker count and the time of its first join; only the
    name (when a non-empty one is given) and the avatar (when a free one of
    the pool is given) can change, and the state and the other teams are
    left alone. *)
Theorem teamJoin_rejoin_keeps_balance (now : Z) (id : string)
    (name avatar : option string) (w : World) (t : Team.t) :
  teams w !! id = Some t ->
  let w' := teamJoin now id name avatar w in
  st w' = st w
  /\ (forall k, k <> id -> teams w' !! k = teams w !! k)
  /\ exists t', teams w' !! id = Some t'
       /\ Team.id t' = Team.id t /\ Team.coins t' = Team.coins t
       /\ Team.quizJoker t' = Team.quizJoker t
       /\ Team.joinedAt t' = Team.joinedAt t
       /\ (name = None \/ name = Some "" -> Team.name t' = Team.name t)
       /\ (avatar = None -> Team.avatar t' = Team.avatar t).
Proof.
  intros Ht. cbv zeta. unfold teamJoin. rewrite Ht. cbn [st teams].
  split; [reflexivity |]. split.
  { intros k Hk. apply lookup_insert_ne. congruence. }
  eexists. split; [apply lookup_insert_eq |].
  repeat split.
  - branches; reflexivity.
  - branches; reflexivity.
  - branches; reflexivity.
  - branches; reflexivity.
  - intros [-> | ->]; simpl; branches; reflexivity.
  - intros ->. simpl. branches; reflexivity.
Qed.

(** Team A, at 15 coins without joker after the lock, joins again under a
    new name. *)
Lemma teamJoin_rejoin_keeps_balance_witness :
  Team.coins <$> teams (teamJoin 99 "A" (Some "Alpha") None exLocked) !! "A"
  = Some 15
  /\ Team.name <$> teams (teamJoin 99 "A" (Some "Alpha") None exLocked) !! "A"
     = Some "Alpha"
  /\ st (teamJoin 99 "A" (Some "Alpha") None exLocked) = st exLocked.
Proof.
  split; [vm_compute; reflexivity |]. split; [vm_compute; reflexivity |].
  exact (proj1 (teamJoin_rejoin_keeps_balance 99 "A" (Some "Alpha") None
                  exLocked (Team.mk "A" "Team 1" "/avatars/seekuh.png" 15 0 0)
                  ltac:(vm_compute; reflexivity))).
Defined.

(** X12.  A kick removes the team and every entry kept under its id: its
    stake, its submission, its round wins, its category earnings and its
    buzzes, while the buzzes of the other teams keep their order.  Phase,
    pot and carry stay as they are, so a stake that is already in the pot
    remains there.  A kick of an id that is not registered changes
    nothing. *)
Theorem adminTeamKick_removes_entries (id : string) (w : World) :
  let w' := adminTeamKick id w in
  (teams w !! id = None -> w' = w)
  /\ (id <> "" -> is_Some (teams w !! id) ->
      teams w' = delete id (teams w)
      /\ stakes (st w') !! id = None
      /\ submissions (st w') !! id = None
      /\ roundWins (st w') !! id = None
      /\ categoryEarnings (st w') !! id = None
      /\ Elch.buzzOrder (elch (st w'))
         = filter (fun b => fst b <> id) (Elch.buzzOrder (elch (st w)))
      /\ (forall k, k <> id -> stakes (st w') !! k = stakes (st w) !! k)
      /\ phase (st w') = phase (st w)
      /\ categoryPot (st w') = categoryPot (st w)
      /\ carryRound (st w') = carryRound (st w)).
Proof.
  cbv zeta. unfold adminTeamKick. split.
  - intros Hn. rewrite Hn.
    rewrite bool_decide_eq_false_2 by (intros [x Hx]; discriminate Hx).
    rewrite andb_false_r. reflexivity.
  - intros Hne Hreg. rewrite (truthy_nonempty id Hne).
    rewrite bool_decide_eq_true_2 by exact Hreg. cbn [andb st teams].
    cbn [set_elch set_roundWins set_categoryEarnings set_submissions
         set_stakes stakes submissions roundWins categoryEarnings elch
         phase categoryPot carryRound Elch.buzzOrder].
    repeat split; try apply lookup_delete_eq.
    intros k Hk. apply lookup_delete_ne. congruence.
Qed.

(** Team A is kicked after the lock: the pot stays 30. *)
Lemma adminTeamKick_removes_entries_witness :
  teams (adminTeamKick "A" exLocked) !! "A" = None
  /\ categoryPot (st (adminTeamKick "A" exLocked)) = 30
  /\ adminTeamKick "Z" exLocked = exLocked.
Proof.
  split; [vm_compute; reflexivity |]. split; [vm_compute; reflexivity |].
  exact (proj1 (adminTeamKick_removes_entries "Z" exLocked)
           ltac:(vm_compute; reflexivity)).
Defined.

(** ** Restarts that lose nothing *)

(** X13.  What a restart keeps.  The restored state does not depend on the
    time of the snapshot; restoring a restored state changes nothing more;
    and the restored state is the state before the restart exactly when the
    six fields that the snapshot leaves out (the recorded timer expiry, the
    round wins, the resolved rounds, the category earnings, the pending and
    the last result) have their initial values, as they have in the lobby
    before any timer ran out. *)
Theorem restart_exact_iff (now : Z) (s : State) :
  (forall now', restart now' s = restart now s)
  /\ (forall now', restart now' (restart now s) = restart now s)
  /\ (restart now s = s
      <-> lastTimerEnd s = None /\ roundWins s = ∅ /\ resolvedRounds s = ∅
          /\ categoryEarnings s = ∅ /\ pendingResult s = None
          /\ lastResult s = None).
Proof.
  split; [| split].
  - intros now'. rewrite !restart_fields. reflexivity.
  - intros now'. rewrite !restart_fields. reflexivity.
  - rewrite restart_fields. split.
    + intros H. destruct s. simpl in *. injection H as <- <- <- <- <- <-.
      repeat split.
    + intros (H1 & H2 & H3 & H4 & H5 & H6). destruct s. simpl in *.
      subst. reflexivity.
Qed.

(** ** The buzzer record in the reachable states *)

Lemma pushUnused_ok (x : string) (used : list string) :
  NoDup used -> NoDup (pushUnused x used) /\ x ∈ pushUnused x used.
Proof.
  intros H. unfold pushUnused, includesStr.
  destruct (bool_decide (x ∈ used)) eqn:Hx.
  - apply bool_decide_eq_true in Hx. split; assumption.
  - apply bool_decide_eq_false in Hx. split.
    + apply NoDup_app. split; [exact H |]. split; [| apply NoDup_singleton].
      intros y Hy Hy'. apply list_elem_of_singleton in Hy'. subst y.
      contradiction.
    + apply elem_of_app. right. apply list_elem_of_singleton. reflexivity.
Qed.

Lemma elchOk_init : elchOk Elch.init.
Proof.
  split; [apply NoDup_nil_2 |]. split; [intros c [=] | apply NoDup_nil_2].
Qed.

Lemma elchOk_elchClearOrder (e : Elch.t) : elchOk e -> elchOk (elchClearOrder e).
Proof.
  intros (H1 & H2 & _). split; [exact H1 |]. split; [exact H2 |].
  apply NoDup_nil_2.
Qed.

Lemma elchOk_elchPick (ri : Z) (e : Elch.t) : elchOk e -> elchOk (elchPick ri e).
Proof.
  intros (H1 & H2 & H3). unfold elchPick. cbv zeta.
  match goal with
  | |- elchOk (if ?b then _ else _) => destruct b eqn:Hp
  end.
  - split; [exact H1 |]. split; [intros c [=] | exact H3].
  - unfold includesStr in Hp. apply bool_decide_eq_false in Hp.
    split; [| split; [| exact H3]]; cbn [Elch.used Elch.category].
    + apply NoDup_app. split; [exact H1 |]. split; [| apply NoDup_singleton].
      intros y Hy Hy'. apply list_elem_of_singleton in Hy'. subst y.
      contradiction.
    + intros c [= <-]. apply elem_of_app. right.
      apply list_elem_of_singleton. reflexivity.
Qed.

Lemma existsb_buzzed (id : string) (order : list (string * Z)) :
  existsb (fun b => String.eqb (fst b) id) order = false ->
  id ∉ fst <$> order.
Proof.
  induction order as [|b l IH]; simpl; intros H Hin.
  - apply elem_of_nil in Hin. exact Hin.
  - apply orb_false_iff in H as [Hb Hl].
    apply elem_of_cons in Hin as [->|Hin].
    + rewrite String.eqb_refl in Hb. discriminate Hb.
    + exact (IH Hl Hin).
Qed.

Lemma NoDup_fst_filter (P : string * Z -> Prop) `{!forall b, Decision (P b)}
    (l : list (string * Z)) :
  NoDup (fst <$> l) -> NoDup (fst <$> filter P l).
Proof.
  induction l as [|b l IH]; simpl; intros Hnd; [exact Hnd |].
  apply NoDup_cons in Hnd as [Hb Hl].
  rewrite filter_cons. destruct (decide (P b)); [| exact (IH Hl)].
  simpl. apply NoDup_cons. split; [| exact (IH Hl)].
  intros Hin. apply Hb.
  apply list_elem_of_fmap in Hin as (y & Hy & Hin).
  apply list_elem_of_filter in Hin as [_ Hin].
  apply list_elem_of_fmap. exists y. split; assumption.
Qed.

Lemma elchOk_teamSubmitBuzz (window now : Z) (id : string) (w : World) :
  elchOk (elch (st w)) -> elchOk (elch (st (teamSubmitBuzz window now id w))).
Proof.
  intros H. unfold teamSubmitBuzz.
  destruct (_ && _)%bool; [| exact H].
  destruct (tooLate now (st w)); [exact H |].
  destruct (Elch.category (elch (st w))) as [c|] eqn:Hc; [| exact H].
  destruct (truthy c); [| exact H].
  destruct (existsb _ _) eqn:Hex;
    [rewrite andb_false_r; exact H |].
  destruct (negb (Elch.buzzLocked (elch (st w)))); [| exact H].
  cbn [andb negb].
  destruct H as (H1 & H2 & H3).
  assert (Hnd : NoDup (fst <$> Elch.buzzOrder (elch (st w)) ++ [(id, now)])).
  { rewrite fmap_app. apply NoDup_app. split; [exact H3 |].
    split; [| apply NoDup_singleton].
    intros y Hy Hy'. simpl in Hy'. apply list_elem_of_singleton in Hy'.
    subst y. exact (existsb_buzzed id _ Hex Hy). }
  destruct (Nat.eqb _ 1); cbn [on_state st set_elch elch];
    (split; [exact H1 |]; split; [| exact Hnd]);
    intros c0 Hc0; apply H2; rewrite Hc; exact Hc0.
Qed.

Lemma elchOk_adminResolveRound (now : Z) (winnerId : jsid)
    (winnerIds : option (list jsid)) (w : World) :
  elchOk (elch (st w)) ->
  elchOk (elch (st (adminResolveRound now winnerId winnerIds w))).
Proof.
  intros H. unfold adminResolveRound.
  destruct (decide _); [| exact H].
  destruct (isRoundResolved _); [exact H |].
  destruct (settle _ _ _); [| exact H].
  rewrite elch_recordResolution. exact H.
Qed.

Lemma elchOk_moveRound (ri' : Z) (w : World) :
  elchOk (elch (st w)) -> elchOk (elch (st (moveRound ri' w))).
Proof.
  intros H. unfold moveRound. cbn [st].
  destruct (decide _); cbn [set_elch elch].
  - apply elchOk_elchPick, elchOk_elchClearOrder.
    cbn [set_submissions set_roundIndex elch].
    rewrite elch_markRoundResolved. exact H.
  - cbn [set_submissions set_roundIndex elch].
    rewrite elch_markRoundResolved. exact H.
Qed.

(** Every command keeps the buzzer record well-formed. *)
Lemma elchOk_step (window now : Z) (c : Command) (w : World) :
  elchOk (elch (st w)) -> elchOk (elch (st (step window now c w))).
Proof.
  intros H. destruct c; cbn [step].
  - unfold teamJoin. destruct (teams w !! id); exact H.
  - unfold teamSetStake.
    destruct (decide _); [destruct (teams w !! id) |]; exact H.
  - apply elchOk_teamSubmitBuzz, H.
  - unfold adminTeamUpdate. destruct (teams w !! id); exact H.
  - unfold adminTeamKick. destruct (_ && _)%bool; [| exact H].
    destruct H as (H1 & H2 & H3).
    split; [exact H1 |]. split; [exact H2 |].
    cbn [st set_elch elch Elch.buzzOrder]. apply NoDup_fst_filter, H3.
  - cbn [adminStartCategory st elch].
    destruct (decide _); [apply elchOk_elchPick |]; apply elchOk_init.
  - unfold adminSetTeamLimit. destruct (_ =? _); exact H.
  - exact H.
  - apply elchOk_adminResolveRound, H.
  - unfold adminRoundEnd. branches; exact H.
  - unfold adminRoundUndo.
    destruct (decide _); [| exact H].
    destruct (isRoundResolved _); [| exact H].
    cbn [st]. rewrite elch_markRoundResolved.
    cbn [set_lastResult set_pendingResult elch].
    destruct (resultOfRound _);
      [rewrite elch_foldl_uncredit |]; destruct carry; exact H.
  - unfold adminRoundNext. destruct (decide _); [| exact H].
    apply elchOk_moveRound, H.
  - unfold adminRoundPrev. destruct (decide _); [| exact H].
    apply elchOk_moveRound, H.
  - apply elchOk_init.
  - apply elchOk_init.
  - exact H.
  - unfold adminTimerStop. simpl.
    destruct (timerEndsAt (st w)); [destruct (negb _) |]; exact H.
  - exact H.
  - unfold adminTimerResume. destruct (_ && _)%bool; exact H.
  - unfold adminElchDraw. destruct (decide _); [| exact H].
    destruct H as (H1 & _ & _).
    destruct (pushUnused_ok (fst (elchCfg (roundIndex (st w)))) _ H1)
      as [Hn Hi].
    split; [exact Hn |]. split; [intros c [= <-]; exact Hi | apply NoDup_nil_2].
  - unfold adminElchSetLock. destruct (decide _); exact H.
  - unfold adminElchClearBuzz. destruct (decide _); [| exact H].
    destruct H as (H1 & _ & _).
    match goal with
    | |- context [pushUnused ?x ?u] =>
        destruct (pushUnused_ok x u H1) as [Hn Hi]
    end.
    split; [exact Hn |]. split; [intros c [= <-]; exact Hi | apply NoDup_nil_2].
  - unfold adminElchConfirm.
    destruct (decide _); [| exact H].
    destruct (decide _); [| exact H].
    destruct (isRoundResolved (st w)); [exact H |].
    match goal with
    | |- context [match ?o with Some _ => _ | None => _ end] =>
        destruct o as [x|]
    end; [| exact H].
    destruct (_ && _)%bool; [| exact H].
    apply elchOk_adminResolveRound. exact H.
  - unfold adminElchUnlock.
    destruct (decide _); [| exact H].
    destruct (Elch.exhausted _); [exact H |].
    destruct H as (H1 & H2 & _).
    split; [exact H1 |]. split; [exact H2 | apply NoDup_nil_2].
  - unfold adminRaceSet. destruct mode; exact H.
  - split; [apply NoDup_nil_2 |]. split; [intros c [=] | apply NoDup_nil_2].
  - unfold timerTick.
    destruct (timerEndsAt (st w)); [destruct (_ && _)%bool |]; exact H.
  - unfold elchAutoUnlock.
    destruct (_ && _)%bool; [| exact H].
    destruct (Elch.buzzAnswerEndsAt _); [| exact H].
    destruct (_ && _)%bool; [| exact H].
    destruct H as (H1 & H2 & _).
    split; [exact H1 |]. split; [exact H2 | apply NoDup_nil_2].
  - exact H.
Qed.

Lemma elchOk_run (window : Z) (cmds : list (Z * Command)) (w : World) :
  elchOk (elch (st w)) -> elchOk (elch (st (run window cmds w))).
Proof.
  revert w. unfold run.
  induction cmds as [|[now c] l IH]; intros w H; simpl; [exact H |].
  apply IH, elchOk_step, H.
Qed.

(** X14.  In every state reached from the initial state no team is listed
    twice in the buzz order, no label is listed twice among the used
    labels, and the label that is drawn is one of the used labels. *)
Theorem buzz_order_and_labels_distinct (window : Z)
    (cmds : list (Z * Command)) :
  let e := elch (st (run window cmds initial_world)) in
  NoDup (fst <$> Elch.buzzOrder e)
  /\ NoDup (Elch.used e)
  /\ (forall c, Elch.category e = Some c -> c ∈ Elch.used e).
Proof.
  destruct (elchOk_run window cmds initial_world elchOk_init)
    as (H1 & H2 & H3).
  cbv zeta. split; [exact H3 |]. split; assumption.
Qed.

Lemma elchCfg_distinct (ri : Z) : fst (elchCfg ri) <> snd (elchCfg ri).
Proof.
  unfold elchCfg. destruct (ri =? 1); [discriminate |].
  destruct (ri =? 2); discriminate.
Qed.

(** X15.  Clearing the buzzer in the category "Elch" always changes the
    label: it draws the fallback label of the round when the primary one
    was drawn and the primary one otherwise, opens the buzzer with an empty
    order, and so a second clearing brings back the label of the first.
    In another category the call changes nothing. *)
Theorem adminElchClearBuzz_switches_label (w : World) :
  let cfg := elchCfg (roundIndex (st w)) in
  let w1 := adminElchClearBuzz w in
  (currentCategory (st w) <> Some "Elch" -> w1 = w)
  /\ (currentCategory (st w) = Some "Elch" ->
      Elch.category (elch (st w1)) <> Elch.category (elch (st w))
      /\ (Elch.category (elch (st w1)) = Some (fst cfg)
          \/ Elch.category (elch (st w1)) = Some (snd cfg))
      /\ Elch.buzzOrder (elch (st w1)) = []
      /\ Elch.buzzLocked (elch (st w1)) = false
      /\ Elch.buzzAnswerEndsAt (elch (st w1)) = None
      /\ Elch.category (elch (st (adminElchClearBuzz (adminElchClearBuzz w1))))
         = Elch.category (elch (st w1))).
Proof.
  cbv zeta. pose proof (elchCfg_distinct (roundIndex (st w))) as Hd.
  assert (Hone : forall v : World,
             currentCategory (st v) = Some "Elch" ->
             Elch.category (elch (st (adminElchClearBuzz v)))
             = Some (if decide (Elch.category (elch (st v))
                                = Some (fst (elchCfg (roundIndex (st v)))))
                     then snd (elchCfg (roundIndex (st v)))
                     else fst (elchCfg (roundIndex (st v))))
             /\ currentCategory (st (adminElchClearBuzz v)) = Some "Elch"
             /\ roundIndex (st (adminElchClearBuzz v)) = roundIndex (st v)
             /\ Elch.buzzOrder (elch (st (adminElchClearBuzz v))) = []
             /\ Elch.buzzLocked (elch (st (adminElchClearBuzz v))) = false
             /\ Elch.buzzAnswerEndsAt (elch (st (adminElchClearBuzz v)))
                = None).
  { intros v Hv. unfold adminElchClearBuzz.
    destruct (decide (currentCategory (st v) = Some "Elch"));
      [| contradiction].
    repeat split. exact Hv. }
  split.
  - intros Hn. unfold adminElchClearBuzz.
    destruct (decide _); [contradiction | reflexivity].
  - intros Hc.
    destruct (Hone w Hc) as (K1 & C1 & R1 & O1 & L1 & A1).
    destruct (Hone _ C1) as (K2 & C2 & R2 & _).
    destruct (Hone _ C2) as (K3 & _).
    rewrite R2, R1 in K3. rewrite R1 in K2.
    set (p := fst (elchCfg (roundIndex (st w)))) in *.
    set (f := snd (elchCfg (roundIndex (st w)))) in *.
    split.
    { rewrite K1. destruct (decide _) as [Heq|Hne].
      - rewrite Heq. intros [= Hx]. apply Hd. symmetry. exact Hx.
      - intros Hx. apply Hne. symmetry. exact Hx. }
    split; [rewrite K1; destruct (decide _); [right | left]; reflexivity |].
    split; [exact O1 |]. split; [exact L1 |]. split; [exact A1 |].
    rewrite K3, K2, K1.
    assert (Hfp : Some f <> Some p) by congruence.
    destruct (decide (Elch.category (elch (st w)) = Some p));
      repeat match goal with
             | |- context [@decide (Some ?a = Some ?b) ?d] =>
                 is_var a; is_var b;
                 destruct (@decide (Some a = Some b) d); try congruence
             end.
Qed.

(** In the first round of "Elch" the label "Städte" is drawn; clearing
    gives "Berufe". *)
Lemma adminElchClearBuzz_switches_label_witness :
  Elch.category (elch (st exBuzzWorld)) = Some "Städte"
  /\ Elch.category (elch (st (adminElchClearBuzz exBuzzWorld)))
     <> Elch.category (elch (st exBuzzWorld))
  /\ Elch.category (elch (st (adminElchClearBuzz exBuzzWorld)))
     = Some "Berufe".
Proof.
  split; [vm_compute; reflexivity |]. split; [| vm_compute; reflexivity].
  exact (proj1 (proj2 (adminElchClearBuzz_switches_label exBuzzWorld)
                  ltac:(vm_compute; reflexivity))).
Defined.

(** ** Resolution without winner and by the buzzer *)

(** X16.  A resolution that names no registered team.  With [winnerId]
    null the round is closed without winner: nobody is paid, no tally
    changes, and the payout of the round is added to the carry for the next
    round.  With any other [winnerId] that is not a registered team
    (undefined, the empty string, an unknown id) the call does nothing: the
    round stays open and the carry is not touched. *)
Theorem adminResolveRound_without_winner (now : Z) (winnerId : jsid)
    (winnerIds : option (list jsid)) (w : World) :
  phase (st w) = CATEGORY -> isRoundResolved (st w) = false ->
  uniqueIds (teams w) winnerIds = [] ->
  let w' := adminResolveRound now winnerId winnerIds w in
  (winnerId = Null ->
   teams w' = teams w
   /\ carryRound (st w')
      = carryRound (st w) + categoryPot (st w) / ROUNDS_PER_CATEGORY
   /\ roundWins (st w') = roundWins (st w)
   /\ categoryEarnings (st w') = categoryEarnings (st w)
   /\ isRoundResolved (st w')
      = bool_decide (is_Some (currentRoundKey (st w))))
  /\ (winnerId = Undefined \/ winnerId = Str ""
      \/ (exists x, winnerId = Str x /\ teams w !! x = None) ->
      w' = w).
Proof.
  intros Hp Hr Hu. cbv zeta. split.
  - intros ->.
    assert (Hs : settle Null winnerIds w
                 = Some (mkSettlement (booksOf w)
                           (carryRound (st w)
                            + categoryPot (st w) / ROUNDS_PER_CATEGORY)
                           None [] None)).
    { unfold settle. rewrite Hu. reflexivity. }
    rewrite (adminResolveRound_resolves now Null winnerIds w _ Hp Hr Hs).
    match goal with
    | |- context [recordResolution now ?x w] =>
        destruct (recordResolution_effects now x w)
          as (Ht & Hc & Hw & He & _ & Hk & Hin)
    end.
    cbn [s_books s_carryRound booksOf b_teams b_roundWins
         b_categoryEarnings] in Ht, Hc, Hw, He.
    repeat (split; [assumption |]).
    unfold isRoundResolved at 1. rewrite Hk.
    destruct (currentRoundKey (st w)) as [k|] eqn:Hkey.
    + rewrite bool_decide_eq_true_2 by (apply Hin; reflexivity).
      symmetry. apply bool_decide_eq_true_2. eexists. reflexivity.
    + symmetry. apply bool_decide_eq_false_2. intros [x Hx]. discriminate Hx.
  - intros Hw. unfold adminResolveRound.
    destruct (decide (phase (st w) = CATEGORY)); [| reflexivity].
    rewrite Hr.
    assert (Hs : settle winnerId winnerIds w = None).
    { unfold settle. rewrite Hu. cbn [length Z.of_nat Z.ltb Z.compare].
      destruct Hw as [-> | [-> | (x & -> & Hx)]]; [reflexivity | reflexivity |].
      rewrite Hx.
      rewrite (bool_decide_eq_false_2 (is_Some None))
        by (intros [y Hy]; discriminate Hy).
      rewrite andb_false_r. reflexivity. }
    rewrite Hs. reflexivity.
Qed.

(** The first round of "Hase" (pot 30) is closed without winner: the carry
    is 10; a resolution for the unknown team "Z" does nothing. *)
Lemma adminResolveRound_without_winner_witness :
  carryRound (st (adminResolveRound 6 Null None exLocked)) = 10
  /\ adminResolveRound 6 (Str "Z") None exLocked = exLocked.
Proof.
  assert (H1 : phase (st exLocked) = CATEGORY) by (vm_compute; reflexivity).
  assert (H2 : isRoundResolved (st exLocked) = false)
    by (vm_compute; reflexivity).
  assert (H3 : uniqueIds (teams exLocked) None = []) by reflexivity.
  split; [vm_compute; reflexivity |].
  apply (proj2 (adminResolveRound_without_winner 6 (Str "Z") None exLocked
                  H1 H2 H3)).
  right. right. exists "Z". split; [reflexivity | vm_compute; reflexivity].
Defined.

(** X17.  Confirming a buzz.  In an open round of the category "Elch" the
    confirmed winner is the team named by the admin when it is registered,
    and otherwise the first team of the buzz order.  That team is paid the
    payout of the round plus the carry, the carry is reset, the round is
    resolved, and the buzzer is locked without answer window.  Without a
    registered winner from either source the call changes nothing. *)
Theorem adminElchConfirm_pays_winner (now : Z) (teamId : jsid) (w : World) :
  currentCategory (st w) = Some "Elch" -> phase (st w) = CATEGORY ->
  isRoundResolved (st w) = false ->
  let w' := adminElchConfirm now teamId w in
  let first := fst <$> head (Elch.buzzOrder (elch (st w))) in
  let named x := teamId = Str x /\ x <> "" /\ is_Some (teams w !! x) in
  (forall x t,
     teams w !! x = Some t -> x <> "" ->
     named x \/ ((forall y, ~ named y) /\ first = Some x) ->
     teams w' !! x
     = Some (addCoins (categoryPot (st w) / ROUNDS_PER_CATEGORY
                       + carryRound (st w)) t)
     /\ (forall k, k <> x -> teams w' !! k = teams w !! k)
     /\ carryRound (st w') = 0
     /\ isRoundResolved (st w') = true
     /\ Elch.buzzLocked (elch (st w')) = true
     /\ Elch.phase (elch (st w')) = Some LOCK
     /\ Elch.buzzAnswerEndsAt (elch (st w')) = None
     /\ Elch.buzzOrder (elch (st w')) = Elch.buzzOrder (elch (st w)))
  /\ ((forall y, ~ named y) ->
      (forall x, first = Some x -> x = "" \/ teams w !! x = None) ->
      w' = w).
Proof.
  intros Hcat Hp Hr. cbv zeta.
  assert (Hreg : forall x, (truthy x && bool_decide (is_Some (teams w !! x)))%bool
                           = true <-> x <> "" /\ is_Some (teams w !! x)).
  { intros x. rewrite andb_true_iff, bool_decide_eq_true.
    unfold truthy. rewrite negb_true_iff, String.eqb_neq. reflexivity. }
  assert (Hsel : forall x,
             (teamId = Str x /\ x <> "" /\ is_Some (teams w !! x))
             \/ ((forall y, ~ (teamId = Str y /\ y <> ""
                               /\ is_Some (teams w !! y)))
                 /\ fst <$> head (Elch.buzzOrder (elch (st w))) = Some x) ->
             match teamId with
             | Str y => if (truthy y
                            && bool_decide (is_Some (teams w !! y)))%bool
                        then Some y
                        else fst <$> head (Elch.buzzOrder (elch (st w)))
             | _ => fst <$> head (Elch.buzzOrder (elch (st w)))
             end = Some x).
  { intros x [(-> & Hx)|[Hno Hf]].
    - apply Hreg in Hx. rewrite Hx. reflexivity.
    - destruct teamId as [| |y]; try exact Hf.
      destruct (truthy y && bool_decide (is_Some (teams w !! y)))%bool eqn:Hy;
        [| exact Hf].
      apply Hreg in Hy. exfalso. apply (Hno y). split; [reflexivity | exact Hy]. }
  split.
  - intros x t Ht Hne Hwho. unfold adminElchConfirm.
    destruct (decide (currentCategory (st w) = Some "Elch"));
      [| contradiction].
    destruct (decide (phase (st w) = CATEGORY)); [| contradiction].
    rewrite Hr, (Hsel x Hwho).
    assert (Hx : (truthy x && bool_decide (is_Some (teams w !! x)))%bool = true).
    { apply Hreg. split; [exact Hne | eexists; exact Ht]. }
    rewrite Hx.
    set (w1 := on_state (set_elch _) w).
    assert (Hs := settle_single (Str x) None w1 x t Ht Hne
                    (or_intror (conj eq_refl eq_refl))).
    rewrite (adminResolveRound_resolves now (Str x) None w1 _ Hp Hr Hs).
    match goal with
    | |- context [recordResolution now ?s w1] =>
        destruct (recordResolution_effects now s w1)
          as (Hte & Hc & _ & _ & _ & _ & _);
        pose proof (isRoundResolved_recordResolution now s w1
                      ("Elch", roundIndex (st w))) as Hres;
        pose proof (elch_recordResolution now s w1) as He
    end.
    cbn [s_books s_carryRound] in Hte, Hc.
    split.
    { rewrite Hte, credit_teams.
      destruct (decide (x = x)); [| congruence].
      cbn [booksOf b_teams]. change (teams w1) with (teams w).
      rewrite Ht. reflexivity. }
    split.
    { intros k Hk. rewrite Hte, credit_teams.
      destruct (decide (k = x)); [contradiction | reflexivity]. }
    split; [exact Hc |].
    split.
    { apply Hres. unfold currentRoundKey, w1. cbn [on_state st set_elch
        currentCategory roundIndex]. rewrite Hcat. reflexivity. }
    rewrite He. repeat split.
  - intros Hno Hfirst. unfold adminElchConfirm.
    destruct (decide (currentCategory (st w) = Some "Elch"));
      [| contradiction].
    destruct (decide (phase (st w) = CATEGORY)); [| contradiction].
    rewrite Hr.
    assert (Hnone : forall x, fst <$> head (Elch.buzzOrder (elch (st w)))
                              = Some x ->
                    (truthy x && bool_decide (is_Some (teams w !! x)))%bool
                    = false).
    { intros x Hx. apply not_true_iff_false. intros Hy. apply Hreg in Hy.
      destruct Hy as [Hne [t Ht]].
      destruct (Hfirst x Hx) as [->|Hn]; [congruence |].
      rewrite Hn in Ht. discriminate Ht. }
    assert (Hfall : match fst <$> head (Elch.buzzOrder (elch (st w))) with
                    | Some x =>
                        if (truthy x
                            && bool_decide (is_Some (teams w !! x)))%bool
                        then adminResolveRound now (Str x) None
                               (on_state
                                  (set_elch
                                     (Elch.mk
                                        (Elch.category (elch (st w)))
                                        (Elch.used (elch (st w)))
                                        (Elch.buzzOrder (elch (st w))) true
                                        (Elch.exhausted (elch (st w)))
                                        (Some LOCK) None)) w)
                        else w
                    | None => w
                    end = w).
    { destruct (fst <$> head (Elch.buzzOrder (elch (st w)))) as [x|];
        [| reflexivity].
      rewrite (Hnone x eq_refl). reflexivity. }
    destruct teamId as [| |y]; try exact Hfall.
    destruct (truthy y && bool_decide (is_Some (teams w !! y)))%bool eqn:Hy;
      [| exact Hfall].
    apply Hreg in Hy. exfalso. apply (Hno y). split; [reflexivity | exact Hy].
Qed.

(** Team B has buzzed in the first round of "Elch" (pot 3, payout 1) and
    the admin confirms without naming a team: B gains 1 coin. *)
Lemma adminElchConfirm_pays_winner_witness :
  Team.coins <$>
    teams (adminElchConfirm 8 Undefined
             (teamSubmitBuzz 45000 5 "B" exBuzzWorld)) !! "B"
  = Some 25.
Proof.
  assert (H1 : currentCategory (st (teamSubmitBuzz 45000 5 "B" exBuzzWorld))
               = Some "Elch") by (vm_compute; reflexivity).
  assert (H2 : phase (st (teamSubmitBuzz 45000 5 "B" exBuzzWorld)) = CATEGORY)
    by (vm_compute; reflexivity).
  assert (H3 : isRoundResolved (st (teamSubmitBuzz 45000 5 "B" exBuzzWorld))
               = false) by (vm_compute; reflexivity).
  assert (H4 : teams (teamSubmitBuzz 45000 5 "B" exBuzzWorld) !! "B"
               = Some (exTeam "B" 24 1)) by (vm_compute; reflexivity).
  assert (H5 : "B" <> "") by discriminate.
  pose proof (proj1 (adminElchConfirm_pays_winner 8 Undefined
                       (teamSubmitBuzz 45000 5 "B" exBuzzWorld) H1 H2 H3)
                "B" (exTeam "B" 24 1) H4 H5) as Hthm.
  cbv zeta in Hthm.
  assert (H6 : (forall y, ~ (Undefined = Str y /\ y <> ""
                  /\ is_Some (teams (teamSubmitBuzz 45000 5 "B" exBuzzWorld)
                              !! y)))
               /\ fst <$> head (Elch.buzzOrder
                                  (elch (st (teamSubmitBuzz 45000 5 "B"
                                               exBuzzWorld))))
                  = Some "B").
  { split; [intros y [Hy _]; discriminate Hy | vm_compute; reflexivity]. }
  destruct (Hthm (or_intror H6)) as [Hpaid _].
  rewrite Hpaid. vm_compute. reflexivity.
Defined.

(** The periodic check and the buzz that follows it, method by method. *)
Lemma elchAutoUnlock_then_buzz (window now t : Z) (id c : string) (w : World) :
  phase (st w) = CATEGORY -> currentCategory (st w) = Some "Elch" ->
  Elch.buzzAnswerEndsAt (elch (st w)) = Some t -> t <> 0 ->
  let w1 := elchAutoUnlock now w in
  (now <= t -> w1 = w)
  /\ (isRoundResolved (st w) = true -> w1 = w)
  /\ (t < now -> isRoundResolved (st w) = false ->
      Elch.buzzOrder (elch (st w1)) = []
      /\ Elch.buzzLocked (elch (st w1)) = false
      /\ Elch.phase (elch (st w1)) = Some BUZZ_READY
      /\ Elch.buzzAnswerEndsAt (elch (st w1)) = None
      /\ (Elch.category (elch (st w)) = Some c -> c <> "" ->
          tooLate now (st w) = false ->
          let e2 := elch (st (teamSubmitBuzz window now id w1)) in
          Elch.buzzOrder e2 = [(id, now)]
          /\ Elch.buzzLocked e2 = true
          /\ Elch.buzzAnswerEndsAt e2 = Some (now + window))).
Proof.
  intros Hp Hcat Ht Hne. cbv zeta.
  assert (Hz : (t =? 0) = false) by (apply Z.eqb_neq; exact Hne).
  unfold elchAutoUnlock. rewrite Hp, Hcat, Ht.
  rewrite !bool_decide_eq_true_2 by reflexivity.
  cbn [andb truthyZ]. rewrite Hz. cbn [negb andb].
  split; [| split].
  - intros Hle.
    assert (Hf : (t <? now) = false) by (apply Z.ltb_ge; exact Hle).
    rewrite Hf. reflexivity.
  - intros Hr. rewrite Hr. cbn [negb]. rewrite andb_false_r. reflexivity.
  - intros Hlt Hr. apply Z.ltb_lt in Hlt. rewrite Hlt, Hr. cbn [negb andb].
    cbn [on_state st set_elch elch Elch.buzzOrder Elch.buzzLocked Elch.phase
         Elch.buzzAnswerEndsAt].
    repeat (split; [reflexivity |]).
    intros Hc Hcne Hlate. unfold teamSubmitBuzz.
    cbn [on_state st set_elch elch phase currentCategory Elch.category
         Elch.buzzOrder Elch.buzzLocked Elch.buzzAnswerEndsAt].
    rewrite Hp, Hcat.
    rewrite !bool_decide_eq_true_2 by reflexivity.
    cbn [andb].
    change (tooLate now (set_elch _ (st w))) with (tooLate now (st w)).
    rewrite Hlate, Hc, (truthy_nonempty c Hcne).
    cbn [existsb negb andb app length Nat.eqb truthyZ on_state st set_elch
         elch Elch.buzzOrder Elch.buzzLocked Elch.buzzAnswerEndsAt].
    repeat split.
Qed.

(** When the guard lets an action through and when it does not. *)
Lemma isDuplicateAction_cases (now : Z) (a : string) (g : Guard) :
  truthy a = true ->
  (recent g !! a = None -> fst (isDuplicateAction now (Some a) g) = false)
  /\ (forall t0, recent g !! a = Some t0 ->
        (now <= default 0 (lastPurge g) + 60000 \/ now - t0 <= IDEMP_WINDOW_MS ->
         fst (isDuplicateAction now (Some a) g) = true)
        /\ (default 0 (lastPurge g) + 60000 < now ->
            now - t0 > IDEMP_WINDOW_MS ->
            fst (isDuplicateAction now (Some a) g) = false)).
Proof.
  intros Ha. unfold isDuplicateAction. rewrite Ha. split.
  - intros Hn.
    assert (Hp : recent (purge now g) !! a = None).
    { unfold purge. destruct (_ && _)%bool; [| exact Hn]. cbn [recent].
      apply map_lookup_filter_None. left. exact Hn. }
    rewrite Hp. reflexivity.
  - intros t0 Ht.
    assert (Hsz : Nat.eqb (size (recent g)) 0 = false).
    { apply Nat.eqb_neq. intros H0. apply map_size_empty_iff in H0.
      rewrite H0, lookup_empty in Ht. discriminate Ht. }
    unfold purge. rewrite Hsz. cbn [negb andb]. split.
    + intros Hc.
      destruct (default 0 (lastPurge g) + 60000 <? now) eqn:Hdue.
      * destruct Hc as [Hc | Hc]; [apply Z.ltb_lt in Hdue; lia |].
        cbn [recent].
        assert (Hs : filter (fun kv : string * Z =>
                               ~ now - snd kv > IDEMP_WINDOW_MS)
                       (recent g) !! a = Some t0).
        { apply map_lookup_filter_Some. split; [exact Ht |]. simpl. lia. }
        rewrite Hs. reflexivity.
      * rewrite Ht. reflexivity.
    + intros Hdue Hold. apply Z.ltb_lt in Hdue. rewrite Hdue. cbn [recent].
      assert (Hn : filter (fun kv : string * Z =>
                             ~ now - snd kv > IDEMP_WINDOW_MS)
                     (recent g) !! a = None).
      { apply map_lookup_filter_None. right. intros x Hx Hp.
        rewrite Ht in Hx. injection Hx as <-. apply Hp. exact Hold. }
      rewrite Hn. reflexivity.
Qed.

(** X18.  The answer window of the buzzer.  While the window is open, or
    once the round is resolved, the periodic check leaves the world as it
    is.  After the window has passed on an open round it empties the buzz
    order and opens the buzzer without answer window.  A [team:elch:buzz]
    message that the guard lets through is then a first buzz again: its
    team is alone in the order, the buzzer is locked and a new window
    opens.  A message that the guard reports as a duplicate leaves the
    buzzer open and empty.  The guard knows a socket by the constant id
    [socket.id + ':elchBuzz']: the message is let through when that id is
    not recorded, or when it is older than 10 s and a purge is due; it is a
    duplicate while the id is recorded and no purge is due, or the id is
    at most 10 s old. *)
Theorem buzzer_reopens_after_window
    (spread : option string -> string -> Z -> string)
    (window now t : Z) (socketId id c : string) (g : Guard) (w : World) :
  phase (st w) = CATEGORY -> currentCategory (st w) = Some "Elch" ->
  Elch.buzzAnswerEndsAt (elch (st w)) = Some t -> t <> 0 ->
  let w1 := elchAutoUnlock now w in
  let key := socketId +:+ ":elchBuzz" in
  let sv2 := dispatch spread window now (OnTeamElchBuzz socketId id)
               (mkServer g w1) in
  (now <= t -> w1 = w)
  /\ (isRoundResolved (st w) = true -> w1 = w)
  /\ (t < now -> isRoundResolved (st w) = false ->
      Elch.buzzOrder (elch (st w1)) = []
      /\ Elch.buzzLocked (elch (st w1)) = false
      /\ Elch.phase (elch (st w1)) = Some BUZZ_READY
      /\ Elch.buzzAnswerEndsAt (elch (st w1)) = None
      /\ (Elch.category (elch (st w)) = Some c -> c <> "" ->
          tooLate now (st w) = false ->
          fst (isDuplicateAction now (Some key) g) = false ->
          let e2 := elch (st (world sv2)) in
          Elch.buzzOrder e2 = [(id, now)]
          /\ Elch.buzzLocked e2 = true
          /\ Elch.buzzAnswerEndsAt e2 = Some (now + window)))
  /\ (fst (isDuplicateAction now (Some key) g) = true -> world sv2 = w1)
  /\ (recent g !! key = None ->
      fst (isDuplicateAction now (Some key) g) = false)
  /\ (forall t0, recent g !! key = Some t0 ->
        (now <= default 0 (lastPurge g) + 60000 \/ now - t0 <= IDEMP_WINDOW_MS ->
         fst (isDuplicateAction now (Some key) g) = true)
        /\ (default 0 (lastPurge g) + 60000 < now ->
            now - t0 > IDEMP_WINDOW_MS ->
            fst (isDuplicateAction now (Some key) g) = false)).
Proof.
  intros Hp Hcat Ht Hne w1 key sv2.
  destruct (elchAutoUnlock_then_buzz window now t id c w Hp Hcat Ht Hne)
    as (H1 & H2 & H3).
  assert (Hw : world sv2
               = (if fst (isDuplicateAction now (Some key) g)
                  then fun x => x else teamSubmitBuzz window now id) w1).
  { subst sv2. rewrite dispatch_parts. reflexivity. }
  split; [exact H1 |]. split; [exact H2 |]. split.
  - intros Hlt Hr. destruct (H3 Hlt Hr) as (Ho & Hl & Hph & He & Hbuzz).
    repeat (split; [assumption |]).
    intros Hc Hcne Hlate Hacc. cbv zeta. rewrite Hw, Hacc.
    exact (Hbuzz Hc Hcne Hlate).
  - split.
    + intros Hdup. rewrite Hw, Hdup. reflexivity.
    + apply isDuplicateAction_cases. apply elchBuzz_key_truthy.
Qed.

(** Team B has buzzed at 5 from the socket "sB" with a window of 45 s.
    The check at 45005 changes nothing.  After the check at 45006 the buzz
    of team A from the socket "sA" is a first buzz, while a second buzz
    from the socket "sB" is dropped: its id is recorded and no purge is
    due. *)
Lemma buzzer_reopens_after_window_witness :
  Elch.buzzAnswerEndsAt (elch (st (world exBuzzed))) = Some 45005
  /\ recent (guard exBuzzed) !! "sB:elchBuzz" = Some 5
  /\ elchAutoUnlock 45005 (world exBuzzed) = world exBuzzed
  /\ Elch.buzzOrder
       (elch (st (world
          (dispatch exSpread 45000 45006 (OnTeamElchBuzz "sA" "A")
             (mkServer (guard exBuzzed)
                (elchAutoUnlock 45006 (world exBuzzed)))))))
     = [("A", 45006)]
  /\ world (dispatch exSpread 45000 45006 (OnTeamElchBuzz "sB" "B")
              (mkServer (guard exBuzzed)
                 (elchAutoUnlock 45006 (world exBuzzed))))
     = elchAutoUnlock 45006 (world exBuzzed).
Proof.
  assert (Hp : phase (st (world exBuzzed)) = CATEGORY)
    by (vm_compute; reflexivity).
  assert (Hc : currentCategory (st (world exBuzzed)) = Some "Elch")
    by (vm_compute; reflexivity).
  assert (He : Elch.buzzAnswerEndsAt (elch (st (world exBuzzed)))
               = Some 45005) by (vm_compute; reflexivity).
  assert (Hz : 45005 <> 0) by discriminate.
  split; [exact He |]. split; [vm_compute; reflexivity |].
  split; [| split].
  - apply (proj1 (buzzer_reopens_after_window exSpread
                    45000 45005 45005 "sB" "B" "Städte" (guard exBuzzed)
                    (world exBuzzed) Hp Hc He Hz)).
    lia.
  - pose proof (proj1 (proj2 (proj2
                  (buzzer_reopens_after_window exSpread
                     45000 45006 45005 "sA" "A" "Städte" (guard exBuzzed)
                     (world exBuzzed) Hp Hc He Hz)))
                  ltac:(lia) ltac:(vm_compute; reflexivity)) as H.
    cbv zeta in H. destruct H as (_ & _ & _ & _ & H).
    exact (proj1 (H ltac:(vm_compute; reflexivity) ltac:(discriminate)
                    ltac:(vm_compute; reflexivity)
                    ltac:(vm_compute; reflexivity))).
  - apply (proj1 (proj2 (proj2 (proj2
             (buzzer_reopens_after_window exSpread
                45000 45006 45005 "sB" "B" "Städte" (guard exBuzzed)
                (world exBuzzed) Hp Hc He Hz))))).
    vm_compute. reflexivity.
Defined.

(** ** Category names *)

(** X19.  Normalising a category name maps the three legacy spellings to
    the one canonical name, leaves every other name (and a missing or empty
    one) as it is, and is idempotent, so that a category stored by
    [adminStartCategory] compares equal to its own normal form. *)
Theorem normalizeCategory_idempotent (cat : option string) (w : World) :
  normalizeCategory (normalizeCategory cat) = normalizeCategory cat
  /\ normalizeCategory (currentCategory (st (adminStartCategory cat w)))
     = currentCategory (st (adminStartCategory cat w))
  /\ (cat <> Some "BÃ¤r" -> cat <> Some "Baer" -> cat <> Some "B??r" ->
      normalizeCategory cat = cat).
Proof.
  assert (Hidem : normalizeCategory (normalizeCategory cat)
                  = normalizeCategory cat).
  { destruct cat as [c|]; [| reflexivity]. unfold normalizeCategory.
    destruct (truthy c) eqn:Hc; [| rewrite Hc; reflexivity].
    unfold normalizeCategoryName.
    destruct (_ || _)%bool eqn:Hb; [reflexivity |].
    rewrite Hc, Hb. reflexivity. }
  split; [exact Hidem |]. split; [exact Hidem |].
  intros H1 H2 H3. destruct cat as [c|]; [| reflexivity].
  unfold normalizeCategory, normalizeCategoryName.
  destruct (truthy c); [| reflexivity].
  destruct (String.eqb c "BÃ¤r") eqn:E1;
    [apply String.eqb_eq in E1; congruence |].
  destruct (String.eqb c "Baer") eqn:E2;
    [apply String.eqb_eq in E2; congruence |].
  destruct (String.eqb c "B??r") eqn:E3;
    [apply String.eqb_eq in E3; congruence |].
  reflexivity.
Qed.

Lemma normalizeCategory_idempotent_witness :
  normalizeCategory (Some "Baer") = Some "Bär"
  /\ normalizeCategory (Some "Hase") = Some "Hase".
Proof.
  split; [vm_compute; reflexivity |].
  apply (proj2 (proj2 (normalizeCategory_idempotent (Some "Hase")
                         initial_world))); discriminate.
Defined.

(** ** Round keys do not accumulate *)

(** X20.  In every state reached from the initial state the set of resolved
    rounds holds no key of another round than the current one: a key that
    is recorded is the key of the current round, unless no category is
    running (after a reset).  Leaving a round deletes its key and starting
    or finishing a category empties the set. *)
Theorem resolved_rounds_only_current (window : Z) (cmds : list (Z * Command))
    (k : RoundKey) :
  let s := st (run window cmds initial_world) in
  k ∈ resolvedRounds s ->
  currentCategory s = None \/ currentRoundKey s = Some k.
Proof.
  destruct (stateOk_run window cmds initial_world stateOk_initial)
    as (_ & _ & H).
  exact (H k).
Qed.

(** After team A has won the first round of "Hase". *)
Lemma resolved_rounds_only_current_witness :
  currentRoundKey
    (st (run 45000
           [(0, TeamJoin "A" None None);
            (1, AdminStartCategory (Some "Hase")); (2, AdminLockStakes);
            (3, AdminResolveRound (Str "A") None)]
           initial_world))
  = Some ("Hase", 0).
Proof.
  assert (Hin : ("Hase", 0) ∈
                resolvedRounds
                  (st (run 45000
                         [(0, TeamJoin "A" None None);
                          (1, AdminStartCategory (Some "Hase"));
                          (2, AdminLockStakes);
                          (3, AdminResolveRound (Str "A") None)]
                         initial_world))).
  { vm_compute. reflexivity. }
  destruct (resolved_rounds_only_current 45000 _ _ Hin) as [Hn|Hk];
    [vm_compute in Hn; discriminate Hn | exact Hk].
Defined.

(** * The two-team module *)

Lemma payTie_other (share remainder idx : Z) (ids : list string)
    (ts : gmap string Team.t) (id : string) :
  id ∉ ids -> Duell.payTie share remainder idx ids ts !! id = ts !! id.
Proof.
  revert idx ts. induction ids as [|x l IH]; intros idx ts Hn; simpl;
    [reflexivity |].
  apply not_elem_of_cons in Hn as [Hx Hl]. rewrite IH by exact Hl.
  destruct (ts !! x); [| reflexivity].
  apply lookup_insert_ne. congruence.
Qed.

Lemma payTie_winner (share remainder idx : Z) (ids : list string)
    (ts : gmap string Team.t) (i : nat) (id : string) :
  NoDup ids -> ids !! i = Some id ->
  Duell.payTie share remainder idx ids ts !! id
  = addCoins (share + (if idx + Z.of_nat i <? remainder then 1 else 0))
      <$> ts !! id.
Proof.
  revert idx ts i. induction ids as [|x l IH]; intros idx ts i Hnd Hi;
    [discriminate Hi |].
  apply NoDup_cons in Hnd as [Hx Hnd]. simpl. destruct i as [|j].
  - injection Hi as ->. rewrite payTie_other by exact Hx.
    rewrite Z.add_0_r.
    destruct (ts !! id) as [t|] eqn:Ht; simpl.
    + rewrite lookup_insert_eq. reflexivity.
    + rewrite Ht. reflexivity.
  - simpl in Hi. rewrite (IH _ _ j Hnd Hi).
    replace (idx + 1 + Z.of_nat j) with (idx + Z.of_nat (S j)) by lia.
    assert (Hne : x <> id).
    { intros ->. apply Hx. eapply list_elem_of_lookup_2. exact Hi. }
    destruct (ts !! x); [| reflexivity].
    rewrite lookup_insert_ne by exact Hne. reflexivity.
Qed.

Lemma tieTotal_eq (share remainder : Z) (n : nat) :
  tieTotal share remainder n
  = Z.of_nat n * share + Z.min (Z.of_nat n) (Z.max 0 remainder).
Proof.
  induction n as [|k IH]; [cbn [tieTotal]; lia |].
  cbn [tieTotal]. rewrite IH. unfold Duell.tieGain.
  destruct (Z.of_nat k <? remainder) eqn:Hk;
    [apply Z.ltb_lt in Hk | apply Z.ltb_ge in Hk]; lia.
Qed.

Lemma duell_resolved_after (s : Duell.State) :
  Duell.isCurrentRoundResolved (Duell.setCurrentRoundResolved true s)
  = bool_decide (is_Some (Duell.currentRoundKey s)).
Proof.
  unfold Duell.isCurrentRoundResolved, Duell.setCurrentRoundResolved.
  destruct (Duell.currentRoundKey s) as [k|] eqn:Hk.
  - change (Duell.currentRoundKey (Duell.set_resolvedRounds _ s))
      with (Duell.currentRoundKey s).
    rewrite Hk. cbn [Duell.set_resolvedRounds Duell.resolvedRounds].
    rewrite bool_decide_eq_true_2
      by (apply elem_of_union; left; apply elem_of_singleton; reflexivity).
    symmetry. apply bool_decide_eq_true_2. eexists. reflexivity.
  - rewrite Hk. symmetry. apply bool_decide_eq_false_2.
    intros [x Hx]. discriminate Hx.
Qed.

Lemma duell_open_after (s : Duell.State) :
  Duell.isCurrentRoundResolved (Duell.setCurrentRoundResolved false s) = false.
Proof.
  unfold Duell.isCurrentRoundResolved, Duell.setCurrentRoundResolved.
  destruct (Duell.currentRoundKey s) as [k|] eqn:Hk.
  - change (Duell.currentRoundKey (Duell.set_resolvedRounds _ s))
      with (Duell.currentRoundKey s).
    rewrite Hk. cbn [Duell.set_resolvedRounds Duell.resolvedRounds].
    apply bool_decide_eq_false. intros Hin.
    apply elem_of_difference in Hin as [_ Hn].
    apply Hn. apply elem_of_singleton. reflexivity.
  - rewrite Hk. reflexivity.
Qed.

Lemma duell_carry_after (flag : bool) (s : Duell.State) :
  Duell.carryRound (Duell.setCurrentRoundResolved flag s) = Duell.carryRound s.
Proof.
  unfold Duell.setCurrentRoundResolved.
  destruct (Duell.currentRoundKey s); [destruct flag |]; reflexivity.
Qed.

(** X21.  A tie in the two-team module hands out the whole pot.  With
    [n > 1] registered winners and a total pot [floor(categoryPot / 3) +
    carryRound >= 0], the winner at position [i] of the list gains
    [floor(totalPot / n)], and one coin more when [i] is below the
    remainder; the gains add up to exactly the total pot, nobody else is
    touched, the carry is reset to 0 and the round is resolved. *)
Theorem duell_tie_pays_whole_pot (winnerId : jsid)
    (winnerIds : option (list jsid)) (w : Duell.World) :
  let ids := uniqueIds (Duell.teams w) winnerIds in
  let n := Z.of_nat (length ids) in
  let totalPot := Duell.categoryPot (Duell.st w) / ROUNDS_PER_CATEGORY
                  + Duell.carryRound (Duell.st w) in
  let w' := Duell.adminResolveRound winnerId winnerIds w in
  Duell.phase (Duell.st w) = CATEGORY ->
  Duell.isCurrentRoundResolved (Duell.st w) = false ->
  1 < n -> 0 <= totalPot ->
  (forall i id t, ids !! i = Some id -> Duell.teams w !! id = Some t ->
     Duell.teams w' !! id
     = Some (addCoins (Duell.tieGain (totalPot / n) (totalPot mod n) i) t))
  /\ (forall id, id ∉ ids -> Duell.teams w' !! id = Duell.teams w !! id)
  /\ tieTotal (totalPot / n) (totalPot mod n) (length ids) = totalPot
  /\ Duell.carryRound (Duell.st w') = 0
  /\ Duell.isCurrentRoundResolved (Duell.st w')
     = bool_decide (is_Some (Duell.currentRoundKey (Duell.st w))).
Proof.
  intros ids n totalPot w' Hp Hr Hn Hpot. subst w'.
  unfold Duell.adminResolveRound.
  destruct (decide (Duell.phase (Duell.st w) = CATEGORY)); [| contradiction].
  rewrite Hr. fold ids. fold n. fold totalPot.
  assert (H1 : (1 <? n) = true) by (apply Z.ltb_lt; exact Hn).
  assert (H0 : (n =? 0) = false) by (apply Z.eqb_neq; lia).
  rewrite H1, H0.
  rewrite (Z.rem_mod_nonneg totalPot n) by lia.
  cbn [Duell.st Duell.teams].
  split; [| split; [| split; [| split]]].
  - intros i id t Hi Ht.
    rewrite (payTie_winner _ _ 0 ids _ i id (uniqueIds_NoDup _ _) Hi), Ht.
    reflexivity.
  - intros id Hid. apply payTie_other. exact Hid.
  - rewrite tieTotal_eq. fold n.
    pose proof (Z.mod_pos_bound totalPot n ltac:(lia)) as Hm.
    pose proof (Z.div_mod totalPot n ltac:(lia)) as Hd. lia.
  - rewrite duell_carry_after. reflexivity.
  - rewrite duell_resolved_after. reflexivity.
Qed.

(** A pot of 30 with a carry of 1: the total pot 11 is split 6 and 5, and
    nothing is carried on. *)
Lemma duell_tie_pays_whole_pot_witness :
  Team.coins <$>
    Duell.teams (Duell.adminResolveRound Undefined (Some [Str "A"; Str "B"])
                   (Duell.exWorld 1 1 15 15)) !! "A" = Some 21
  /\ Team.coins <$>
       Duell.teams (Duell.adminResolveRound Undefined (Some [Str "A"; Str "B"])
                      (Duell.exWorld 1 1 15 15)) !! "B" = Some 20
  /\ Duell.carryRound
       (Duell.st (Duell.adminResolveRound Undefined (Some [Str "A"; Str "B"])
                    (Duell.exWorld 1 1 15 15))) = 0.
Proof.
  split; [vm_compute; reflexivity |]. split; [vm_compute; reflexivity |].
  exact (proj1 (proj2 (proj2 (proj2
           (duell_tie_pays_whole_pot Undefined (Some [Str "A"; Str "B"])
              (Duell.exWorld 1 1 15 15) eq_refl eq_refl eq_refl
              ltac:(vm_compute; discriminate)))))).
Defined.

(** X22.  The server resolves as the two-team module does whenever there is
    no tie.  For a server world and a module world with the same teams, pot,
    carry and phase whose current rounds are both open or both resolved, a
    resolution that names at most one registered team in [winnerIds] leaves
    the same teams and the same carry in both. *)
Theorem resolve_agrees_without_tie (now : Z) (winnerId : jsid)
    (winnerIds : option (list jsid)) (w : World) (d : Duell.World) :
  Duell.teams d = teams w ->
  Duell.phase (Duell.st d) = phase (st w) ->
  Duell.categoryPot (Duell.st d) = categoryPot (st w) ->
  Duell.carryRound (Duell.st d) = carryRound (st w) ->
  Duell.isCurrentRoundResolved (Duell.st d) = isRoundResolved (st w) ->
  (length (uniqueIds (teams w) winnerIds) <= 1)%nat ->
  Duell.teams (Duell.adminResolveRound winnerId winnerIds d)
  = teams (adminResolveRound now winnerId winnerIds w)
  /\ Duell.carryRound (Duell.st (Duell.adminResolveRound winnerId winnerIds d))
     = carryRound (st (adminResolveRound now winnerId winnerIds w)).
Proof.
  intros Ht Hp Hpot Hc Hr Hlen.
  unfold Duell.adminResolveRound, adminResolveRound.
  rewrite Hp, Hr, Ht, Hpot, Hc.
  destruct (decide (phase (st w) = CATEGORY)); [| split; assumption].
  destruct (isRoundResolved (st w)); [split; assumption |].
  assert (H1 : (1 <? Z.of_nat (length (uniqueIds (teams w) winnerIds)))
               = false) by (apply Z.ltb_ge; lia).
  rewrite H1.
  destruct (settle winnerId winnerIds w) as [x|] eqn:Hs.
  - destruct (recordResolution_effects now x w) as (Hte & Hca & _).
    rewrite Hte, Hca. revert Hs. unfold settle. rewrite H1.
    destruct (match match uniqueIds (teams w) winnerIds with
                    | [x0] => Str x0
                    | _ => winnerId
                    end with
              | Str x0 => Some x0
              | _ => None
              end) as [y|].
    + destruct (truthy y); cbn [andb].
      * destruct (teams w !! y) as [t|] eqn:Hy.
        -- rewrite bool_decide_eq_true_2 by (eexists; reflexivity).
           intros [= <-]. cbn [s_books s_carryRound Duell.st Duell.teams].
           rewrite duell_carry_after. split; [| reflexivity].
           unfold credit. cbn [booksOf b_teams]. rewrite Hy. reflexivity.
        -- rewrite bool_decide_eq_false_2
             by (intros [z Hz]; discriminate Hz).
           destruct winnerId; intros [= <-].
           cbn [s_books s_carryRound Duell.st Duell.teams booksOf b_teams].
           rewrite duell_carry_after. split; reflexivity.
      * destruct winnerId; intros [= <-].
        cbn [s_books s_carryRound Duell.st Duell.teams booksOf b_teams].
        rewrite duell_carry_after. split; reflexivity.
    + destruct winnerId; intros [= <-].
      cbn [s_books s_carryRound Duell.st Duell.teams booksOf b_teams].
      rewrite duell_carry_after. split; reflexivity.
  - revert Hs. unfold settle. rewrite H1.
    destruct (match match uniqueIds (teams w) winnerIds with
                    | [x0] => Str x0
                    | _ => winnerId
                    end with
              | Str x0 => Some x0
              | _ => None
              end) as [y|].
    + destruct (truthy y); cbn [andb].
      * destruct (teams w !! y) as [t|] eqn:Hy.
        -- rewrite bool_decide_eq_true_2 by (eexists; reflexivity).
           intros [=].
        -- destruct winnerId; intros [=]; split; assumption.
      * destruct winnerId; intros [=]; split; assumption.
    + destruct winnerId; intros [=]; split; assumption.
Qed.

(** Team A alone wins a round with pot 30 and carry 5 in both. *)
Lemma resolve_agrees_without_tie_witness :
  Duell.teams (Duell.adminResolveRound (Str "A") None (Duell.exWorld 0 5 15 15))
  = teams (adminResolveRound 7 (Str "A") None
             (mkWorld (exState CATEGORY 0 ∅ 30 5) (exTeams 15 15))).
Proof.
  exact (proj1 (resolve_agrees_without_tie 7 (Str "A") None
                  (mkWorld (exState CATEGORY 0 ∅ 30 5) (exTeams 15 15))
                  (Duell.exWorld 0 5 15 15)
                  eq_refl eq_refl eq_refl eq_refl eq_refl
                  ltac:(vm_compute; lia))).
Defined.

(** X23.  Moving between rounds in the two-team module.  "Next" opens the
    round it enters (also the last round when it is pressed there), while
    "previous" touches no flag: a round that was resolved before it was left
    is still resolved when the admin comes back to it, and cannot be paid a
    second time. *)
Theorem duell_prev_keeps_resolved (now : Z) (w : Duell.World) :
  Duell.phase (Duell.st w) = CATEGORY ->
  Duell.isCurrentRoundResolved (Duell.st (Duell.adminRoundNext now w)) = false
  /\ Duell.resolvedRounds (Duell.st (Duell.adminRoundPrev now w))
     = Duell.resolvedRounds (Duell.st w)
  /\ (forall c winnerId winnerIds,
        Duell.currentCategory (Duell.st w) = Some c -> c <> "" ->
        (c, Z.max 0 (Duell.roundIndex (Duell.st w) - 1))
          ∈ Duell.resolvedRounds (Duell.st w) ->
        Duell.adminResolveRound winnerId winnerIds (Duell.adminRoundPrev now w)
        = Duell.adminRoundPrev now w).
Proof.
  intros Hp. unfold Duell.adminRoundNext, Duell.adminRoundPrev.
  destruct (decide (Duell.phase (Duell.st w) = CATEGORY)); [| contradiction].
  cbn [Duell.on_state Duell.st].
  split; [| split].
  - apply duell_open_after.
  - reflexivity.
  - intros c winnerId winnerIds Hc Hne Hin.
    match goal with
    | |- Duell.adminResolveRound _ _ ?w1 = _ => set (d := w1)
    end.
    assert (Hp1 : Duell.phase (Duell.st d) = CATEGORY) by exact Hp.
    assert (Hr1 : Duell.isCurrentRoundResolved (Duell.st d) = true).
    { unfold Duell.isCurrentRoundResolved, Duell.currentRoundKey, roundKeyFor.
      subst d.
      cbn [Duell.on_state Duell.st Duell.currentCategory Duell.roundIndex
           Duell.resolvedRounds Duell.set_roundStartTs Duell.set_fuchsHistory
           Duell.set_submissions Duell.set_roundIndex].
      rewrite Hc, (truthy_nonempty c Hne).
      apply bool_decide_eq_true_2. exact Hin. }
    unfold Duell.adminResolveRound.
    destruct (decide (Duell.phase (Duell.st d) = CATEGORY)); [| contradiction].
    rewrite Hr1. reflexivity.
Qed.

(** The first round is resolved, the admin goes on and comes back: a
    resolution for team A changes nothing. *)
Lemma duell_prev_keeps_resolved_witness :
  Team.coins <$>
    Duell.teams
      (Duell.adminResolveRound (Str "A") None
         (Duell.adminRoundPrev 9
            (Duell.adminRoundNext 8
               (Duell.adminResolveRound (Str "A") None
                  (Duell.exWorld 0 0 15 15))))) !! "A"
  = Some 25.
Proof.
  assert (Hp : Duell.phase
                 (Duell.st (Duell.adminRoundNext 8
                              (Duell.adminResolveRound (Str "A") None
                                 (Duell.exWorld 0 0 15 15)))) = CATEGORY)
    by (vm_compute; reflexivity).
  assert (Hin : ("Hase", Z.max 0 (1 - 1)) ∈
                Duell.resolvedRounds
                  (Duell.st (Duell.adminRoundNext 8
                               (Duell.adminResolveRound (Str "A") None
                                  (Duell.exWorld 0 0 15 15)))))
    by (vm_compute; reflexivity).
  rewrite (proj2 (proj2 (duell_prev_keeps_resolved 9 _ Hp))
             "Hase" (Str "A") None eq_refl ltac:(discriminate) Hin).
  vm_compute. reflexivity.
Defined.

(** ** The guess history of "Fuchs" *)

Lemma noRepeat_tail (a : string * Z) (h : list (string * Z)) :
  Duell.noRepeat (a :: h) -> Duell.noRepeat h.
Proof. intros [_ H]. exact H. Qed.

Lemma noRepeat_drop (k : nat) (h : list (string * Z)) :
  Duell.noRepeat h -> Duell.noRepeat (drop k h).
Proof.
  revert h. induction k as [|k IH]; intros h H; [rewrite drop_0; exact H |].
  destruct h as [|a r]; [exact H |]. simpl. apply IH.
  exact (noRepeat_tail a r H).
Qed.

Lemma noRepeat_snoc (h : list (string * Z)) (x : string * Z) :
  Duell.noRepeat h ->
  (forall l, last h = Some l -> fst l <> fst x) ->
  Duell.noRepeat (h ++ [x]).
Proof.
  induction h as [|a r IH]; intros H Hl; [simpl; tauto |].
  destruct H as [Ha Hr]. destruct r as [|b r'].
  - simpl. split; [| tauto]. apply Hl. reflexivity.
  - split; [exact Ha |]. apply IH; [exact Hr |].
    intros l Hlast. apply Hl. exact Hlast.
Qed.

Lemma pushGuess_ok (now : Z) (val : string) (h : list (string * Z)) :
  (length h <= Duell.HISTORY_CAP)%nat -> Duell.noRepeat h ->
  Duell.historyOk (Duell.pushGuess now val h).
Proof.
  intros Hlen Hnr.
  assert (Hpush : (forall l, last h = Some l -> fst l <> val) ->
            Duell.historyOk
              (if (Duell.HISTORY_CAP <? length (h ++ [(val, now)]))%nat
               then drop (length (h ++ [(val, now)]) - Duell.HISTORY_CAP)
                         (h ++ [(val, now)])
               else h ++ [(val, now)])).
  { intros Hl.
    pose proof (noRepeat_snoc h (val, now) Hnr Hl) as Hsn.
    assert (Hlen' : length (h ++ [(val, now)]) = S (length h))
      by (rewrite length_app; simpl; lia).
    destruct (Duell.HISTORY_CAP <? length (h ++ [(val, now)]))%nat eqn:Hc.
    - apply Nat.ltb_lt in Hc.
      assert (Hd : length (drop (length (h ++ [(val, now)]) - Duell.HISTORY_CAP)
                             (h ++ [(val, now)])) = Duell.HISTORY_CAP)
        by (rewrite length_drop; lia).
      split; [rewrite Hd; lia |]. split; [apply noRepeat_drop, Hsn |].
      intros Hnil. rewrite Hnil in Hd. discriminate Hd.
    - apply Nat.ltb_ge in Hc.
      split; [exact Hc |]. split; [exact Hsn |].
      intros Hnil. apply app_eq_nil in Hnil as [_ Hnil]. discriminate Hnil. }
  unfold Duell.pushGuess. destruct (last h) as [l|] eqn:Hlast.
  - destruct (decide (fst l <> val)) as [Hne|Heq].
    + apply Hpush. intros l' [= <-]. exact Hne.
    + split; [exact Hlen |]. split; [exact Hnr |].
      intros ->. discriminate Hlast.
  - apply Hpush. intros l' [=].
Qed.

Section DuellHistory.

Variable trim : string -> string.

Lemma duell_history_resolved (flag : bool) (s : Duell.State) :
  Duell.fuchsHistory (Duell.setCurrentRoundResolved flag s)
  = Duell.fuchsHistory s.
Proof.
  unfold Duell.setCurrentRoundResolved.
  destruct (Duell.currentRoundKey s); [destruct flag |]; reflexivity.
Qed.

(** Every command keeps the histories well-formed. *)
Lemma duell_history_step (now : Z) (c : Duell.Command) (w : Duell.World) :
  (forall id h, Duell.fuchsHistory (Duell.st w) !! id = Some h ->
                Duell.historyOk h) ->
  forall id h,
    Duell.fuchsHistory (Duell.st (Duell.step trim now c w)) !! id = Some h ->
    Duell.historyOk h.
Proof.
  intros H. destruct c; cbn [Duell.step].
  - unfold Duell.teamJoin. destruct (Duell.teams w !! id); exact H.
  - unfold Duell.teamSetStake.
    destruct (decide _); [destruct (Duell.teams w !! id) |]; exact H.
  - unfold Duell.teamSubmit.
    destruct (_ && _)%bool; [| exact H].
    cbn [Duell.st].
    destruct (payload !! "guess") as [[g| | |]|]; try exact H.
    destruct (_ && _)%bool; [| exact H].
    cbn [Duell.set_fuchsHistory Duell.set_submissions Duell.fuchsHistory].
    intros id' h'. destruct (decide (id = id')) as [<-|Hne].
    + rewrite lookup_insert_eq. intros [= <-].
      destruct (Duell.fuchsHistory (Duell.st w) !! id) as [h0|] eqn:Hh0;
        cbn [default].
      * destruct (H id h0 Hh0) as (Hl & Hn & _).
        apply pushGuess_ok; assumption.
      * apply pushGuess_ok; [simpl; unfold Duell.HISTORY_CAP; lia | exact I].
    + rewrite lookup_insert_ne by exact Hne. apply H.
  - unfold Duell.adminTeamUpdate. destruct (Duell.teams w !! id); exact H.
  - intros id h Hl. simpl in Hl. rewrite lookup_empty in Hl. discriminate Hl.
  - unfold Duell.adminLockStakes. cbn [Duell.st].
    destruct (decide _).
    + intros id h Hl. simpl in Hl. rewrite lookup_empty in Hl.
      discriminate Hl.
    + rewrite duell_history_resolved. exact H.
  - unfold Duell.adminResolveRound.
    destruct (decide _); [| exact H].
    destruct (Duell.isCurrentRoundResolved _); [exact H |].
    destruct (1 <? _).
    + cbn [Duell.st]. rewrite duell_history_resolved. exact H.
    + assert (Hno : forall id h,
                Duell.fuchsHistory
                  (Duell.st
                     match winnerId with
                     | Null =>
                         Duell.mkWorld
                           (Duell.setCurrentRoundResolved true
                              (Duell.set_carryRound
                                 (Duell.carryRound (Duell.st w)
                                  + Duell.categoryPot (Duell.st w)
                                    / ROUNDS_PER_CATEGORY) (Duell.st w)))
                           (Duell.teams w)
                     | _ => w
                     end) !! id = Some h -> Duell.historyOk h).
      { destruct winnerId; try exact H.
        cbn [Duell.st]. rewrite duell_history_resolved. exact H. }
      destruct (match match uniqueIds (Duell.teams w) winnerIds with
                      | [x0] => Str x0
                      | _ => winnerId
                      end with
                | Str x0 => Some x0
                | _ => None
                end) as [y|]; [| exact Hno].
      destruct (truthy y); [| exact Hno].
      destruct (Duell.teams w !! y); [| exact Hno].
      cbn [Duell.st]. rewrite duell_history_resolved. exact H.
  - unfold Duell.adminRoundUndo.
    destruct (decide _); [| exact H].
    destruct (Duell.isCurrentRoundResolved _); [| exact H].
    destruct snapshot as [[coinMap carry]|]; [| exact H].
    cbn [Duell.st]. rewrite duell_history_resolved.
    destruct carry; exact H.
  - unfold Duell.adminRoundNext. destruct (decide _); [| exact H].
    cbn [Duell.on_state Duell.st]. rewrite duell_history_resolved.
    intros id h Hl. simpl in Hl. rewrite lookup_empty in Hl. discriminate Hl.
  - unfold Duell.adminRoundPrev. destruct (decide _); [| exact H].
    intros id h Hl. simpl in Hl. rewrite lookup_empty in Hl. discriminate Hl.
  - intros id h Hl. simpl in Hl. rewrite lookup_empty in Hl. discriminate Hl.
  - exact H.
  - exact H.
  - exact H.
Qed.

(** X24.  The guess histories of the two-team module.  In every state
    reached from the initial one, whatever [trim] does, each history that
    exists is non-empty, holds at most 25 guesses, and no guess in it
    repeats the one before it. *)
Theorem duell_history_bounded (cmds : list (Z * Duell.Command))
    (id : string) (h : list (string * Z)) :
  Duell.fuchsHistory (Duell.st (Duell.run trim cmds Duell.initial_world)) !! id
  = Some h ->
  (0 < length h <= 25)%nat /\ Duell.noRepeat h.
Proof.
  assert (Hrun : forall w,
            (forall id h, Duell.fuchsHistory (Duell.st w) !! id = Some h ->
                          Duell.historyOk h) ->
            forall id h,
              Duell.fuchsHistory (Duell.st (Duell.run trim cmds w)) !! id
              = Some h -> Duell.historyOk h).
  { unfold Duell.run. induction cmds as [|[now c] l IH]; intros w Hw;
      simpl; [exact Hw |].
    apply IH. apply duell_history_step. exact Hw. }
  intros Hh.
  destruct (Hrun Duell.initial_world
              ltac:(intros i x Hl; simpl in Hl; rewrite lookup_empty in Hl;
                    discriminate Hl) id h Hh) as (Hlen & Hnr & Hne).
  split; [| exact Hnr]. split; [| exact Hlen].
  destruct h; [contradiction | simpl; lia].
Qed.

End DuellHistory.

(** Team A guesses "igel", "igel" again and then "hase": two entries. *)
Lemma duell_history_bounded_witness :
  Duell.fuchsHistory
    (Duell.st
       (Duell.run (fun s => s)
          [(1, Duell.AdminStartCategory (Some "Fuchs"));
           (2, Duell.AdminLockStakes);
           (3, Duell.TeamSubmit "A" (Some "Fuchs") {["guess" := Duell.PStr "igel"]});
           (4, Duell.TeamSubmit "A" (Some "Fuchs") {["guess" := Duell.PStr "igel"]});
           (5, Duell.TeamSubmit "A" (Some "Fuchs") {["guess" := Duell.PStr "hase"]})]
          Duell.initial_world)) !! "A"
  = Some [("igel", 3); ("hase", 5)]
  /\ (0 < 2 <= 25)%nat.
Proof.
  assert (H : Duell.fuchsHistory
    (Duell.st
       (Duell.run (fun s => s)
          [(1, Duell.AdminStartCategory (Some "Fuchs"));
           (2, Duell.AdminLockStakes);
           (3, Duell.TeamSubmit "A" (Some "Fuchs") {["guess" := Duell.PStr "igel"]});
           (4, Duell.TeamSubmit "A" (Some "Fuchs") {["guess" := Duell.PStr "igel"]});
           (5, Duell.TeamSubmit "A" (Some "Fuchs") {["guess" := Duell.PStr "hase"]})]
          Duell.initial_world)) !! "A"
  = Some [("igel", 3); ("hase", 5)]) by (vm_compute; reflexivity).
  split; [exact H |].
  exact (proj1 (duell_history_bounded (fun s => s) _ "A" _ H)).
Defined.

(** * The multipliers of a player *)

Lemma find_snoc (P : Rooms.Multiplier -> bool) (l : list Rooms.Multiplier)
    (a : Rooms.Multiplier) :
  List.find P (l ++ [a])
  = match List.find P l with
    | Some m => Some m
    | None => if P a then Some a else None
    end.
Proof.
  induction l as [|b l IH]; simpl; [reflexivity |].
  destruct (P b); [reflexivity | exact IH].
Qed.

(** The map built from a list holds, under an id, the last entry with that
    id. *)
Lemma byIdOf_lookup (l : list Rooms.Multiplier)
    (acc : gmap string Rooms.Multiplier) (k : string) :
  foldl (fun acc m => <[Rooms.m_id m := m]> acc) acc l !! k
  = match List.find (fun m => String.eqb (Rooms.m_id m) k) (rev l) with
    | Some m => Some m
    | None => acc !! k
    end.
Proof.
  revert acc. induction l as [|a l IH]; intros acc; simpl; [reflexivity |].
  rewrite IH, find_snoc.
  destruct (List.find _ (rev l)); [reflexivity |].
  destruct (String.eqb (Rooms.m_id a) k) eqn:Ha.
  - apply String.eqb_eq in Ha. subst k. apply lookup_insert_eq.
  - apply String.eqb_neq in Ha. apply lookup_insert_ne. exact Ha.
Qed.

Lemma mergeDefaults_lookup (ds : list Rooms.Multiplier)
    (acc : gmap string Rooms.Multiplier) (k : string) :
  Rooms.mergeDefaults ds acc !! k
  = match acc !! k with
    | Some m => Some m
    | None => List.find (fun d => String.eqb (Rooms.m_id d) k) ds
    end.
Proof.
  unfold Rooms.mergeDefaults. revert acc.
  induction ds as [|d ds IH]; intros acc; simpl.
  - destruct (acc !! k); reflexivity.
  - rewrite IH. destruct (String.eqb (Rooms.m_id d) k) eqn:Hd.
    + apply String.eqb_eq in Hd. subst k.
      destruct (acc !! Rooms.m_id d) as [m|] eqn:Hm.
      * rewrite Hm. reflexivity.
      * rewrite lookup_insert_eq. reflexivity.
    + apply String.eqb_neq in Hd.
      destruct (acc !! Rooms.m_id d) as [m|] eqn:Hm; [reflexivity |].
      rewrite lookup_insert_ne by exact Hd. reflexivity.
Qed.

Lemma find_id (k : string) (l : list Rooms.Multiplier) (m : Rooms.Multiplier) :
  List.find (fun x => String.eqb (Rooms.m_id x) k) l = Some m ->
  Rooms.m_id m = k /\ m ∈ l.
Proof.
  intros H. apply find_some in H as [Hin He].
  apply String.eqb_eq in He. split; [exact He |].
  apply list_elem_of_In. exact Hin.
Qed.

Lemma find_unique (l : list Rooms.Multiplier) (m : Rooms.Multiplier) :
  NoDup (Rooms.m_id <$> l) -> m ∈ l ->
  List.find (fun x => String.eqb (Rooms.m_id x) (Rooms.m_id m)) l = Some m.
Proof.
  induction l as [|a l IH]; intros Hnd Hin; [apply elem_of_nil in Hin; contradiction |].
  simpl in Hnd. apply NoDup_cons in Hnd as [Ha Hnd]. simpl.
  apply elem_of_cons in Hin as [->|Hin].
  - rewrite String.eqb_refl. reflexivity.
  - destruct (String.eqb (Rooms.m_id a) (Rooms.m_id m)) eqn:He.
    + exfalso. apply String.eqb_eq in He. apply Ha. rewrite He.
      apply list_elem_of_fmap. exists m. split; [reflexivity | exact Hin].
    + apply IH; assumption.
Qed.

Lemma find_unique_key (l : list Rooms.Multiplier) (m : Rooms.Multiplier)
    (k : string) :
  NoDup (Rooms.m_id <$> l) -> m ∈ l -> Rooms.m_id m = k ->
  List.find (fun x => String.eqb (Rooms.m_id x) k) l = Some m.
Proof. intros Hnd Hin <-. apply find_unique; assumption. Qed.

(** What is listed for a standard multiplier [d]: the last entry of
    [existing] with its id, and [d] itself when there is none. *)
Lemma ensure_entry (existing : list Rooms.Multiplier) (d : Rooms.Multiplier) :
  d ∈ Rooms.standardDefaults ->
  Rooms.mergeDefaults Rooms.standardDefaults (Rooms.byIdOf existing)
    !! Rooms.m_id d
  = Some (default d (List.find (fun m => String.eqb (Rooms.m_id m) (Rooms.m_id d))
                       (rev existing))).
Proof.
  intros Hd. rewrite mergeDefaults_lookup. unfold Rooms.byIdOf.
  rewrite byIdOf_lookup, lookup_empty.
  destruct (List.find _ (rev existing)); [reflexivity |].
  apply find_unique; [| exact Hd].
  apply (bool_decide_unpack _). vm_compute. reflexivity.
Qed.

Lemma ensure_eq (existing : list Rooms.Multiplier) :
  Rooms.ensureStandardMultipliers existing
  = ((fun d => default d
                 (List.find (fun m => String.eqb (Rooms.m_id m) (Rooms.m_id d))
                    (rev existing))) <$> Rooms.standardDefaults)
    ++ filter (fun m => Rooms.m_type m <> "standard") existing.
Proof.
  unfold Rooms.ensureStandardMultipliers. f_equal.
  assert (H : forall ds : list Rooms.Multiplier,
             (forall d, d ∈ ds -> d ∈ Rooms.standardDefaults) ->
             omap (fun d =>
                     Rooms.mergeDefaults Rooms.standardDefaults
                       (Rooms.byIdOf existing) !! Rooms.m_id d) ds
             = (fun d => default d
                  (List.find (fun m => String.eqb (Rooms.m_id m) (Rooms.m_id d))
                     (rev existing))) <$> ds).
  { induction ds as [|d ds IH]; intros Hin; [reflexivity |].
    cbn [omap list_omap fmap list_fmap].
    rewrite (ensure_entry existing d) by (apply Hin; left).
    f_equal. apply IH. intros d' Hd'. apply Hin. right. exact Hd'. }
  apply H. intros d Hd. exact Hd.
Qed.

Lemma find_app_or (P : Rooms.Multiplier -> bool)
    (l k : list Rooms.Multiplier) :
  List.find P (l ++ k)
  = match List.find P l with
    | Some m => Some m
    | None => List.find P k
    end.
Proof.
  induction l as [|b l IH]; simpl; [reflexivity |].
  destruct (P b); [reflexivity | exact IH].
Qed.

Lemma find_absent (k : string) (l : list Rooms.Multiplier) :
  (forall m, m ∈ l -> Rooms.m_id m <> k) ->
  List.find (fun x => String.eqb (Rooms.m_id x) k) l = None.
Proof.
  intros H. destruct (List.find _ l) as [m|] eqn:Hf; [| reflexivity].
  apply find_id in Hf as [Hid Hin]. exfalso. exact (H m Hin Hid).
Qed.

Lemma elem_of_rev_std (x : Rooms.Multiplier) (l : list Rooms.Multiplier) :
  x ∈ rev l <-> x ∈ l.
Proof. rewrite !list_elem_of_In. symmetry. apply in_rev. Qed.

Lemma fmap_rev_std {B : Type} (f : Rooms.Multiplier -> B)
    (l : list Rooms.Multiplier) :
  f <$> rev l = rev (f <$> l).
Proof.
  induction l as [|a l IH]; [reflexivity |].
  simpl. rewrite fmap_app, IH. reflexivity.
Qed.

Lemma filter_none_std (P : Rooms.Multiplier -> Prop)
    `{!forall m, Decision (P m)} (l : list Rooms.Multiplier) :
  (forall m, m ∈ l -> ~ P m) -> filter P l = [].
Proof.
  induction l as [|a l IH]; intros Hn; [reflexivity |].
  rewrite filter_cons. destruct (decide (P a)) as [Ha|_].
  - exfalso. apply (Hn a); [left | exact Ha].
  - apply IH. intros m Hm. apply Hn. right. exact Hm.
Qed.

Lemma filter_twice_std (P : Rooms.Multiplier -> Prop)
    `{!forall m, Decision (P m)} (l : list Rooms.Multiplier) :
  filter P (filter P l) = filter P l.
Proof.
  induction l as [|a l IH]; [reflexivity |].
  rewrite filter_cons. destruct (decide (P a)) as [Ha|Ha]; [| exact IH].
  rewrite filter_cons. destruct (decide (P a)); [| contradiction].
  f_equal. exact IH.
Qed.

Lemma standardDefaults_type (d : Rooms.Multiplier) :
  d ∈ Rooms.standardDefaults -> Rooms.m_type d = "standard".
Proof.
  intros H. apply list_elem_of_filter in H as [H _]. exact H.
Qed.

(** X25.  The multipliers of a player after [ensureStandardMultipliers].
    The list starts with one entry for each of the six standard
    multipliers, in the order of the defaults: the last entry of the given
    list with that id when there is one, and the default otherwise.  The
    entries of the given list whose type is not "standard" follow in their
    order.  When only standard entries of the given list carry a standard
    id, a second call changes nothing. *)
Theorem ensureStandardMultipliers_shape (existing : list Rooms.Multiplier) :
  let r := Rooms.ensureStandardMultipliers existing in
  Rooms.m_id <$> take 6 r = ["m05"; "m2"; "m5"; "m10"; "d5"; "d10"]
  /\ drop 6 r = filter (fun m => Rooms.m_type m <> "standard") existing
  /\ (forall m, m ∈ take 6 r -> m ∈ existing \/ m ∈ Rooms.standardDefaults)
  /\ (forall d, d ∈ Rooms.standardDefaults ->
        (forall m, m ∈ existing -> Rooms.m_id m <> Rooms.m_id d) ->
        d ∈ take 6 r)
  /\ (Rooms.typedById existing -> Rooms.ensureStandardMultipliers r = r).
Proof.
  cbv zeta. rewrite ensure_eq.
  set (g := fun (l : list Rooms.Multiplier) (d : Rooms.Multiplier) =>
              default d
                (List.find (fun m => String.eqb (Rooms.m_id m) (Rooms.m_id d))
                   (rev l))).
  change (((fun d => default d
                 (List.find (fun m => String.eqb (Rooms.m_id m) (Rooms.m_id d))
                    (rev existing))) <$> Rooms.standardDefaults))
    with (g existing <$> Rooms.standardDefaults).
  set (O := filter (fun m => Rooms.m_type m <> "standard") existing).
  assert (Hlen : 6%nat = length (g existing <$> Rooms.standardDefaults))
    by (rewrite length_fmap; reflexivity).
  assert (Hgid : forall l d, Rooms.m_id (g l d) = Rooms.m_id d).
  { intros l d. unfold g.
    destruct (List.find _ (rev l)) as [m|] eqn:Hf; [| reflexivity].
    apply find_id in Hf as [Hid _]. exact Hid. }
  assert (Hgin : forall l d, g l d ∈ l \/ g l d = d).
  { intros l d. unfold g.
    destruct (List.find _ (rev l)) as [m|] eqn:Hf; [| right; reflexivity].
    apply find_id in Hf as [_ Hin]. left. apply elem_of_rev_std. exact Hin. }
  rewrite (take_app_length' _ _ _ Hlen), (drop_app_length' _ _ _ Hlen).
  split; [| split; [reflexivity | split; [| split]]].
  - rewrite <- list_fmap_compose.
    rewrite (list_fmap_ext (Rooms.m_id ∘ g existing) Rooms.m_id
               Rooms.standardDefaults)
      by (intros i d _; apply Hgid).
    reflexivity.
  - intros m Hm. apply list_elem_of_fmap in Hm as (d & -> & Hd).
    destruct (Hgin existing d) as [Hin | ->]; [left | right]; assumption.
  - intros d Hd Hno. apply list_elem_of_fmap. exists d.
    split; [| exact Hd]. unfold g. rewrite find_absent; [reflexivity |].
    intros m Hm. apply Hno. apply elem_of_rev_std. exact Hm.
  - intros Hty. rewrite ensure_eq.
    change (fun d => default d
              (List.find (fun m => String.eqb (Rooms.m_id m) (Rooms.m_id d))
                 (rev (g existing <$> Rooms.standardDefaults ++ O))))
      with (g (g existing <$> Rooms.standardDefaults ++ O)).
    assert (HO : forall m, m ∈ O -> Rooms.m_id m ∉ Rooms.standardIds).
    { intros m Hm Hid. apply list_elem_of_filter in Hm as [Hns Hin].
      apply Hns. apply Hty; assumption. }
    f_equal.
    + apply list_fmap_ext. intros i d Hi.
      assert (Hd : d ∈ Rooms.standardDefaults)
        by (eapply list_elem_of_lookup_2; exact Hi).
      unfold g at 1. rewrite rev_app_distr, find_app_or.
      rewrite find_absent.
      * change (fun d0 => default d0
                  (List.find
                     (fun m => String.eqb (Rooms.m_id m) (Rooms.m_id d0))
                     (rev existing)))
          with (g existing).
        rewrite (find_unique_key _ (g existing d) (Rooms.m_id d));
          [reflexivity | | | apply Hgid].
        -- rewrite <- fmap_rev_std, <- list_fmap_compose.
           rewrite (list_fmap_ext (Rooms.m_id ∘ g existing) Rooms.m_id
                      (rev Rooms.standardDefaults))
             by (intros j x _; apply Hgid).
           apply (bool_decide_unpack _). vm_compute. reflexivity.
        -- apply elem_of_rev_std. apply list_elem_of_fmap. exists d.
           split; [reflexivity | exact Hd].
      * intros m Hm Hid. apply (proj1 (elem_of_rev_std _ _)) in Hm.
        apply (HO m Hm). rewrite Hid. apply list_elem_of_fmap.
        exists d. split; [reflexivity | exact Hd].
    + rewrite filter_app.
      assert (HF : filter (fun m => Rooms.m_type m <> "standard")
                     (g existing <$> Rooms.standardDefaults) = []).
      { apply filter_none_std. intros m Hm Hns. apply Hns.
        apply list_elem_of_fmap in Hm as (d & -> & Hd).
        destruct (Hgin existing d) as [Hin | ->].
        - apply Hty; [exact Hin |]. rewrite Hgid.
          apply list_elem_of_fmap. exists d. split; [reflexivity | exact Hd].
        - apply standardDefaults_type. exact Hd. }
      rewrite HF. simpl. subst O. apply filter_twice_std.
Qed.

(** A player with a changed standard entry and a used joker. *)
Lemma ensureStandardMultipliers_shape_witness :
  Rooms.m_id <$>
    Rooms.ensureStandardMultipliers
      [Rooms.mkMult "j50_mul" "×50" (50 # 1) "joker" (Some true);
       Rooms.mkMult "m2" "×2" (3 # 1) "standard" None]
  = ["m05"; "m2"; "m5"; "m10"; "d5"; "d10"; "j50_mul"]
  /\ Rooms.ensureStandardMultipliers
       (Rooms.ensureStandardMultipliers
          [Rooms.mkMult "j50_mul" "×50" (50 # 1) "joker" (Some true);
           Rooms.mkMult "m2" "×2" (3 # 1) "standard" None])
     = Rooms.ensureStandardMultipliers
         [Rooms.mkMult "j50_mul" "×50" (50 # 1) "joker" (Some true);
          Rooms.mkMult "m2" "×2" (3 # 1) "standard" None].
Proof.
  split; [vm_compute; reflexivity |].
  apply (proj2 (proj2 (proj2 (proj2
           (ensureStandardMultipliers_shape
              [Rooms.mkMult "j50_mul" "×50" (50 # 1) "joker" (Some true);
               Rooms.mkMult "m2" "×2" (3 # 1) "standard" None]))))).
  intros m Hm Hid.
  apply elem_of_cons in Hm as [->|Hm].
  - exfalso. revert Hid. apply (bool_decide_unpack _). vm_compute. reflexivity.
  - apply list_elem_of_singleton in Hm. subst m. reflexivity.
Defined.

(** * The tallies of round wins across resolution and undo *)

Lemma credit_roundWins (gain : Z) (b : Books) (x id : string) :
  is_Some (b_teams b !! x) ->
  b_roundWins (credit gain b x) !! id
  = if decide (id = x) then Some (default 0 (b_roundWins b !! id) + 1)
    else b_roundWins b !! id.
Proof.
  intros [t Ht]. unfold credit. rewrite Ht. cbn [b_roundWins].
  destruct (decide (id = x)) as [->|Hne].
  - apply lookup_insert_eq.
  - apply lookup_insert_ne. congruence.
Qed.

Lemma foldl_credit_roundWins (gain : Z) (ids : list string) (b : Books)
    (id : string) :
  NoDup ids -> (forall y, y ∈ ids -> is_Some (b_teams b !! y)) ->
  b_roundWins (foldl (credit gain) b ids) !! id
  = if decide (id ∈ ids) then Some (default 0 (b_roundWins b !! id) + 1)
    else b_roundWins b !! id.
Proof.
  intros Hnd. revert b.
  induction Hnd as [|x l Hx Hnd IH]; intros b Hreg; simpl.
  - destruct (decide (id ∈ [])) as [Hin|]; [| reflexivity].
    apply elem_of_nil in Hin. contradiction.
  - assert (Hregx : is_Some (b_teams b !! x)) by (apply Hreg; left).
    rewrite IH.
    + rewrite (credit_roundWins gain b x id Hregx).
      destruct (decide (id = x)) as [->|Hne].
      * destruct (decide (x ∈ l)); [contradiction |].
        destruct (decide (x ∈ x :: l)) as [|Hn]; [reflexivity |].
        exfalso. apply Hn. left.
      * destruct (decide (id ∈ l)) as [Hin|Hnin].
        -- destruct (decide (id ∈ x :: l)) as [|Hn]; [reflexivity |].
           exfalso. apply Hn. right. exact Hin.
        -- destruct (decide (id ∈ x :: l)) as [Hin|]; [| reflexivity].
           apply elem_of_cons in Hin as [?|?]; contradiction.
    + intros y Hy. rewrite credit_teams.
      destruct (decide (y = x));
        [apply fmap_is_Some |]; apply Hreg; right; exact Hy.
Qed.

(** The winners of a settlement and its round wins. *)
Lemma settle_roundWins (winnerId : jsid) (winnerIds : option (list jsid))
    (w : World) (x : Settlement) :
  settle winnerId winnerIds w = Some x ->
  NoDup (s_winnerIds x)
  /\ (s_winnerIds x = [] -> s_winnerId x = None)
  /\ forall id,
       b_roundWins (s_books x) !! id
       = if decide (id ∈ s_winnerIds x)
         then Some (default 0 (roundWins (st w) !! id) + 1)
         else roundWins (st w) !! id.
Proof.
  unfold settle. destruct (1 <? _).
  - intros [= <-]. cbn [s_books s_winnerIds s_winnerId].
    split; [apply uniqueIds_NoDup |]. split; [reflexivity |].
    intros id. apply foldl_credit_roundWins; [apply uniqueIds_NoDup |].
    intros y Hy. exact (uniqueIds_registered _ _ _ Hy).
  - assert (Hnone :
        forall r, match winnerId with
                  | Null =>
                      Some (mkSettlement (booksOf w)
                              (carryRound (st w)
                               + categoryPot (st w) / ROUNDS_PER_CATEGORY)
                              None [] None)
                  | _ => None
                  end = Some r ->
                  NoDup (s_winnerIds r)
                  /\ (s_winnerIds r = [] -> s_winnerId r = None)
                  /\ forall id,
                       b_roundWins (s_books r) !! id
                       = if decide (id ∈ s_winnerIds r)
                         then Some (default 0 (roundWins (st w) !! id) + 1)
                         else roundWins (st w) !! id).
    { intros r. destruct winnerId; intros [= <-].
      cbn [s_books s_winnerIds s_winnerId booksOf b_roundWins].
      split; [apply NoDup_nil_2 |]. split; [reflexivity |].
      intros id. destruct (decide (id ∈ [])) as [Hin|]; [| reflexivity].
      apply elem_of_nil in Hin. contradiction. }
    destruct (match match uniqueIds (teams w) winnerIds with
                    | [x0] => Str x0
                    | _ => winnerId
                    end with
              | Str x0 => Some x0
              | _ => None
              end) as [y|]; [| apply Hnone].
    destruct (truthy y && bool_decide (is_Some (teams w !! y)))%bool eqn:Hy;
      [| apply Hnone].
    apply andb_true_iff in Hy as [_ Hy]. apply bool_decide_eq_true in Hy.
    intros [= <-]. cbn [s_books s_winnerIds s_winnerId].
    split; [apply NoDup_singleton |]. split; [intros [=] |].
    intros id. rewrite (credit_roundWins _ (booksOf w) y id Hy).
    cbn [booksOf b_roundWins].
    destruct (decide (id = y)) as [->|Hne].
    + destruct (decide (y ∈ [y])) as [|Hn]; [reflexivity |].
      exfalso. apply Hn. left.
    + destruct (decide (id ∈ [y])) as [Hin|]; [| reflexivity].
      apply list_elem_of_singleton in Hin. contradiction.
Qed.

Lemma uncredit_roundWins (last : Result.t) (s : State) (y id : string) :
  roundWins (uncredit last s y) !! id
  = if decide (id = y)
    then match roundWins s !! id with
         | Some n => Some (if n =? 0 then n else Z.max 0 (n - 1))
         | None => None
         end
    else roundWins s !! id.
Proof.
  assert (H1 : roundWins (uncredit last s y)
               = roundWins match roundWins s !! y with
                           | Some n =>
                               if n =? 0 then s
                               else set_roundWins
                                      (<[y := Z.max 0 (n - 1)]> (roundWins s)) s
                           | None => s
                           end).
  { unfold uncredit. cbv zeta.
    match goal with
    | |- roundWins (match categoryEarnings ?s1 !! y with _ => _ end) = _ =>
        destruct (categoryEarnings s1 !! y);
          [destruct (_ || _)%bool |]; reflexivity
    end. }
  rewrite H1. destruct (decide (id = y)) as [->|Hne].
  - destruct (roundWins s !! y) as [n|] eqn:Hn.
    + destruct (n =? 0); [exact Hn |]. apply lookup_insert_eq.
    + exact Hn.
  - destruct (roundWins s !! y) as [n|]; [| reflexivity].
    destruct (n =? 0); [reflexivity |].
    apply lookup_insert_ne. congruence.
Qed.

Lemma foldl_uncredit_roundWins (last : Result.t) (ids : list string)
    (s : State) (id : string) :
  NoDup ids ->
  roundWins (foldl (uncredit last) s ids) !! id
  = if decide (id ∈ ids)
    then match roundWins s !! id with
         | Some n => Some (if n =? 0 then n else Z.max 0 (n - 1))
         | None => None
         end
    else roundWins s !! id.
Proof.
  intros Hnd. revert s.
  induction Hnd as [|x l Hx Hnd IH]; intros s; simpl.
  - destruct (decide (id ∈ [])) as [Hin|]; [| reflexivity].
    apply elem_of_nil in Hin. contradiction.
  - rewrite IH, uncredit_roundWins.
    destruct (decide (id = x)) as [->|Hne].
    + destruct (decide (x ∈ l)); [contradiction |].
      destruct (decide (x ∈ x :: l)) as [|Hn]; [reflexivity |].
      exfalso. apply Hn. left.
    + destruct (decide (id ∈ l)) as [Hin|Hnin].
      * destruct (decide (id ∈ x :: l)) as [|Hn]; [reflexivity |].
        exfalso. apply Hn. right. exact Hin.
      * destruct (decide (id ∈ x :: l)) as [Hin|]; [| reflexivity].
        apply elem_of_cons in Hin as [?|?]; contradiction.
Qed.

Lemma uncredit_carryRound (last : Result.t) (c : Z) (s : State) (y : string) :
  uncredit last (set_carryRound c s) y = set_carryRound c (uncredit last s y).
Proof.
  unfold uncredit. cbv zeta.
  cbn [set_carryRound roundWins categoryEarnings].
  destruct (roundWins s !! y) as [n|];
    [destruct (n =? 0) |];
    cbn [set_roundWins set_carryRound roundWins categoryEarnings];
    (destruct (categoryEarnings s !! y) as [e|];
     [destruct (_ || _)%bool |]); reflexivity.
Qed.

Lemma foldl_uncredit_carryRound (last : Result.t) (c : Z) (ids : list string)
    (s : State) :
  foldl (uncredit last) (set_carryRound c s) ids
  = set_carryRound c (foldl (uncredit last) s ids).
Proof.
  revert s. induction ids as [|y l IH]; intros s; simpl; [reflexivity |].
  rewrite uncredit_carryRound. apply IH.
Qed.

Lemma resultOfRound_carryRound (c : Z) (s : State) :
  resultOfRound (set_carryRound c s) = resultOfRound s.
Proof. reflexivity. Qed.

Lemma resultOfRound_pending (s : State) (r : Result.t) :
  pendingResult s = Some r ->
  Result.category r = currentCategory s ->
  Result.roundIndex r = roundIndex s ->
  resultOfRound s = Some r.
Proof.
  intros H1 H2 H3. unfold resultOfRound. rewrite H1, H2, H3.
  rewrite !bool_decide_eq_true_2 by reflexivity. reflexivity.
Qed.

Lemma resultOfRound_last (s : State) (r : Result.t) :
  pendingResult s = None -> lastResult s = Some r ->
  Result.category r = currentCategory s ->
  Result.roundIndex r = roundIndex s ->
  resultOfRound s = Some r.
Proof.
  intros H0 H1 H2 H3. unfold resultOfRound. rewrite H0, H1, H2, H3.
  rewrite !bool_decide_eq_true_2 by reflexivity. reflexivity.
Qed.

(** The two tallies after the undo of a round whose result is [r]: those of
    the winner loop run on the state before. *)
Lemma adminRoundUndo_tallies (coinMap : option (gmap string jsnum))
    (carry : jsnum) (w : World) (r : Result.t) :
  phase (st w) = CATEGORY -> isRoundResolved (st w) = true ->
  resultOfRound (st w) = Some r ->
  let winners := match Result.winnerIds r with
                 | [] => match Result.winnerId r with
                         | Some y => [y]
                         | None => []
                         end
                 | l => l
                 end in
  roundWins (st (adminRoundUndo coinMap carry w))
  = roundWins (foldl (uncredit r) (st w) winners)
  /\ categoryEarnings (st (adminRoundUndo coinMap carry w))
     = categoryEarnings (foldl (uncredit r) (st w) winners).
Proof.
  intros Hp Hr Hres winners.
  unfold adminRoundUndo.
  destruct (decide (phase (st w) = CATEGORY)); [| contradiction].
  rewrite Hr. cbn [st]. rewrite markRoundResolved_only.
  cbn [set_resolvedRounds set_lastResult set_pendingResult roundWins
       categoryEarnings].
  destruct carry as [q|].
  - rewrite resultOfRound_carryRound, Hres.
    fold winners. rewrite foldl_uncredit_carryRound. split; reflexivity.
  - rewrite Hres. split; reflexivity.
Qed.

(** The result recorded by a resolution is the one the undo refers to. *)
Lemma pendingResult_recordResolution (now : Z) (x : Settlement) (w : World) :
  exists r,
    pendingResult (st (recordResolution now x w)) = Some r
    /\ Result.winnerId r = s_winnerId x
    /\ Result.winnerIds r = s_winnerIds x
    /\ Result.category r = currentCategory (st w)
    /\ Result.roundIndex r = roundIndex (st w)
    /\ Result.payout r = categoryPot (st w) / ROUNDS_PER_CATEGORY
    /\ Result.carry r = s_carryRound x
    /\ Result.tiePayouts r = tiePayoutsOf (s_winnerIds x) (s_tieShare x).
Proof.
  unfold recordResolution. cbn [st].
  unfold emitPendingResult. cbn [pendingResult set_pendingResult].
  cbn [set_lastResult pendingResult].
  eexists. split; [reflexivity |].
  cbn [Result.winnerId Result.winnerIds Result.category Result.roundIndex
       Result.payout Result.carry Result.tiePayouts].
  repeat split;
    unfold markRoundResolved; rewrite currentRoundKey_recorded;
    destruct (currentRoundKey (st w)); reflexivity.
Qed.

(** X26.  Undo takes back the round win.  Under the conditions of the
    undo of a resolution (open round with a key in the CATEGORY phase, a
    settlement), and with no negative count of round wins before, the
    number of round wins of every team after resolution and undo is the
    one from before the resolution, and in between it was one more for
    exactly the winners. *)
Theorem undo_restores_round_wins (now : Z) (winnerId : jsid)
    (winnerIds : option (list jsid)) (coinMap : option (gmap string jsnum))
    (carry : jsnum) (w : World) (k : RoundKey) (x : Settlement) (id : string) :
  phase (st w) = CATEGORY ->
  currentRoundKey (st w) = Some k ->
  isRoundResolved (st w) = false ->
  settle winnerId winnerIds w = Some x ->
  (forall y n, roundWins (st w) !! y = Some n -> 0 <= n) ->
  let w1 := adminResolveRound now winnerId winnerIds w in
  let w2 := adminRoundUndo coinMap carry w1 in
  default 0 (roundWins (st w1) !! id)
  = default 0 (roundWins (st w) !! id)
    + (if decide (id ∈ s_winnerIds x) then 1 else 0)
  /\ default 0 (roundWins (st w2) !! id) = default 0 (roundWins (st w) !! id).
Proof.
  intros Hp Hk Hr Hs Hpos. cbv zeta.
  rewrite (adminResolveRound_resolves now winnerId winnerIds w x Hp Hr Hs).
  destruct (recordResolution_effects now x w)
    as (_ & _ & Hrw & _ & Hp' & _ & _).
  pose proof (isRoundResolved_recordResolution now x w k Hk) as Hr'.
  destruct (settle_roundWins winnerId winnerIds w x Hs) as (Hnd & Hnil & Hb).
  destruct (pendingResult_recordResolution now x w)
    as (r & Hpe & Hwi & Hwis & Hcat & Hri & _).
  assert (Hcr : currentCategory (st (recordResolution now x w))
                = currentCategory (st w)
                /\ roundIndex (st (recordResolution now x w))
                   = roundIndex (st w)).
  { rewrite (recordResolution_only now x w). split; reflexivity. }
  destruct Hcr as [Hc1 Hc2].
  split.
  { rewrite Hrw, Hb. destruct (decide (id ∈ s_winnerIds x)); simpl; lia. }
  rewrite Hp in Hp'.
  destruct (adminRoundUndo_tallies coinMap carry (recordResolution now x w) r
              Hp' Hr'
              (resultOfRound_pending _ r Hpe (eq_trans Hcat (eq_sym Hc1))
                 (eq_trans Hri (eq_sym Hc2)))) as [Htal _].
  rewrite Htal, Hwis, Hwi.
  assert (Hwin : match s_winnerIds x with
                 | [] => match s_winnerId x with
                         | Some y => [y]
                         | None => []
                         end
                 | l => l
                 end = s_winnerIds x).
  { destruct (s_winnerIds x) as [|a l] eqn:Hl; [| reflexivity].
    rewrite (Hnil eq_refl). reflexivity. }
  rewrite Hwin, (foldl_uncredit_roundWins r _ _ id Hnd), Hrw, Hb.
  destruct (decide (id ∈ s_winnerIds x)); [| reflexivity].
  destruct (roundWins (st w) !! id) as [n|] eqn:Hn;
    unfold default, from_option, Datatypes.id.
  - pose proof (Hpos id n Hn) as Hn0.
    destruct (n + 1 =? 0) eqn:Hz; [apply Z.eqb_eq in Hz; lia | lia].
  - reflexivity.
Qed.

(** Team A wins the first round of "Hase" and the round is undone: A has
    one round win in between and none afterwards. *)
Lemma undo_restores_round_wins_witness :
  default 0 (roundWins (st (adminResolveRound 7 (Str "A") None
                              (mkWorld (exState CATEGORY 0 ∅ 30 0)
                                 (exTeams 15 15)))) !! "A") = 1
  /\ default 0
       (roundWins
          (st (adminRoundUndo None NonFinite
                 (adminResolveRound 7 (Str "A") None
                    (mkWorld (exState CATEGORY 0 ∅ 30 0) (exTeams 15 15)))))
          !! "A") = 0.
Proof.
  split; [vm_compute; reflexivity |].
  exact (proj2 (undo_restores_round_wins 7 (Str "A") None None NonFinite
                  (mkWorld (exState CATEGORY 0 ∅ 30 0) (exTeams 15 15))
                  ("Hase", 0)
                  (mkSettlement
                     (credit 10
                        (booksOf (mkWorld (exState CATEGORY 0 ∅ 30 0)
                                    (exTeams 15 15))) "A")
                     0 (Some "A") ["A"] None)
                  "A" eq_refl eq_refl eq_refl eq_refl
                  ltac:(intros y n Hy; vm_compute in Hy; discriminate Hy))).
Defined.

(** * The category earnings across resolution and undo *)

Lemma credit_categoryEarnings (gain : Z) (b : Books) (x id : string) :
  is_Some (b_teams b !! x) ->
  b_categoryEarnings (credit gain b x) !! id
  = if decide (id = x) then Some (default 0 (b_categoryEarnings b !! id) + gain)
    else b_categoryEarnings b !! id.
Proof.
  intros [t Ht]. unfold credit. rewrite Ht. cbn [b_categoryEarnings].
  destruct (decide (id = x)) as [->|Hne].
  - apply lookup_insert_eq.
  - apply lookup_insert_ne. congruence.
Qed.

Lemma foldl_credit_categoryEarnings (gain : Z) (ids : list string) (b : Books)
    (id : string) :
  NoDup ids -> (forall y, y ∈ ids -> is_Some (b_teams b !! y)) ->
  b_categoryEarnings (foldl (credit gain) b ids) !! id
  = if decide (id ∈ ids)
    then Some (default 0 (b_categoryEarnings b !! id) + gain)
    else b_categoryEarnings b !! id.
Proof.
  intros Hnd. revert b.
  induction Hnd as [|x l Hx Hnd IH]; intros b Hreg; simpl.
  - destruct (decide (id ∈ [])) as [Hin|]; [| reflexivity].
    apply elem_of_nil in Hin. contradiction.
  - assert (Hregx : is_Some (b_teams b !! x)) by (apply Hreg; left).
    rewrite IH.
    + rewrite (credit_categoryEarnings gain b x id Hregx).
      destruct (decide (id = x)) as [->|Hne].
      * destruct (decide (x ∈ l)); [contradiction |].
        destruct (decide (x ∈ x :: l)) as [|Hn]; [reflexivity |].
        exfalso. apply Hn. left.
      * destruct (decide (id ∈ l)) as [Hin|Hnin].
        -- destruct (decide (id ∈ x :: l)) as [|Hn]; [reflexivity |].
           exfalso. apply Hn. right. exact Hin.
        -- destruct (decide (id ∈ x :: l)) as [Hin|]; [| reflexivity].
           apply elem_of_cons in Hin as [?|?]; contradiction.
    + intros y Hy. rewrite credit_teams.
      destruct (decide (y = x));
        [apply fmap_is_Some |]; apply Hreg; right; exact Hy.
Qed.

Lemma uncredit_categoryEarnings (last : Result.t) (s : State) (y id : string) :
  categoryEarnings (uncredit last s y) !! id
  = if decide (id = y)
    then match categoryEarnings s !! id with
         | Some e =>
             Some (if ((undoGain last y =? 0) || (e =? 0))%bool then e
                   else Z.max 0 (e - undoGain last y))
         | None => None
         end
    else categoryEarnings s !! id.
Proof.
  unfold uncredit. cbv zeta. fold (undoGain last y).
  set (s1 := match roundWins s !! y with
             | Some n => if n =? 0 then s
                         else set_roundWins (<[y := Z.max 0 (n - 1)]> (roundWins s)) s
             | None => s
             end).
  assert (H1 : categoryEarnings s1 = categoryEarnings s).
  { subst s1. destruct (roundWins s !! y) as [n|]; [| reflexivity].
    destruct (n =? 0); reflexivity. }
  rewrite H1.
  destruct (decide (id = y)) as [->|Hne].
  - destruct (categoryEarnings s !! y) as [e|] eqn:He.
    + destruct (_ || _)%bool.
      * rewrite ?H1. exact He.
      * cbn [set_categoryEarnings categoryEarnings]. rewrite ?H1.
        apply lookup_insert_eq.
    + rewrite ?H1. exact He.
  - destruct (categoryEarnings s !! y) as [e|]; [| rewrite ?H1; reflexivity].
    destruct (_ || _)%bool; [rewrite ?H1; reflexivity |].
    cbn [set_categoryEarnings categoryEarnings]. rewrite ?H1.
    apply lookup_insert_ne. congruence.
Qed.

Lemma foldl_uncredit_categoryEarnings (last : Result.t) (ids : list string)
    (s : State) (id : string) :
  NoDup ids ->
  categoryEarnings (foldl (uncredit last) s ids) !! id
  = if decide (id ∈ ids)
    then match categoryEarnings s !! id with
         | Some e =>
             Some (if ((undoGain last id =? 0) || (e =? 0))%bool then e
                   else Z.max 0 (e - undoGain last id))
         | None => None
         end
    else categoryEarnings s !! id.
Proof.
  intros Hnd. revert s.
  induction Hnd as [|x l Hx Hnd IH]; intros s; simpl.
  - destruct (decide (id ∈ [])) as [Hin|]; [| reflexivity].
    apply elem_of_nil in Hin. contradiction.
  - rewrite IH, uncredit_categoryEarnings.
    destruct (decide (id = x)) as [->|Hne].
    + destruct (decide (x ∈ l)); [contradiction |].
      destruct (decide (x ∈ x :: l)) as [|Hn]; [reflexivity |].
      exfalso. apply Hn. left.
    + destruct (decide (id ∈ l)) as [Hin|Hnin].
      * destruct (decide (id ∈ x :: l)) as [|Hn]; [reflexivity |].
        exfalso. apply Hn. right. exact Hin.
      * destruct (decide (id ∈ x :: l)) as [Hin|]; [| reflexivity].
        apply elem_of_cons in Hin as [?|?]; contradiction.
Qed.

Lemma foldl_insert_const (sh : Z) (ids : list string) (acc : gmap string Z)
    (id : string) :
  foldl (fun acc id => <[id := sh]> acc) acc ids !! id
  = if decide (id ∈ ids) then Some sh else acc !! id.
Proof.
  revert acc. induction ids as [|x l IH]; intros acc; simpl.
  - destruct (decide (id ∈ [])) as [Hin|]; [| reflexivity].
    apply elem_of_nil in Hin. contradiction.
  - rewrite IH. destruct (decide (id ∈ l)) as [Hin|Hnin].
    + destruct (decide (id ∈ x :: l)) as [|Hn]; [reflexivity |].
      exfalso. apply Hn. right. exact Hin.
    + destruct (decide (id = x)) as [->|Hne].
      * rewrite lookup_insert_eq.
        destruct (decide (x ∈ x :: l)) as [|Hn]; [reflexivity |].
        exfalso. apply Hn. left.
      * rewrite lookup_insert_ne by congruence.
        destruct (decide (id ∈ x :: l)) as [Hin|]; [| reflexivity].
        apply elem_of_cons in Hin as [?|?]; contradiction.
Qed.

(** The category earnings of a settlement, and what an undo of the result
    recorded for it will take back from a winner: the whole gain at a tie,
    the gain less the carry for a single winner. *)
Lemma settle_categoryEarnings (winnerId : jsid)
    (winnerIds : option (list jsid)) (w : World) (x : Settlement)
    (r : Result.t) :
  settle winnerId winnerIds w = Some x ->
  0 <= categoryPot (st w) -> 0 <= carryRound (st w) ->
  Result.winnerId r = s_winnerId x ->
  Result.payout r = categoryPot (st w) / ROUNDS_PER_CATEGORY ->
  Result.carry r = s_carryRound x ->
  Result.tiePayouts r = tiePayoutsOf (s_winnerIds x) (s_tieShare x) ->
  forall id,
    (id ∉ s_winnerIds x ->
     b_categoryEarnings (s_books x) !! id = categoryEarnings (st w) !! id)
    /\ (id ∈ s_winnerIds x ->
        exists gain kept,
          b_categoryEarnings (s_books x) !! id
          = Some (default 0 (categoryEarnings (st w) !! id) + gain)
          /\ undoGain r id = gain - kept
          /\ 0 <= kept <= gain
          /\ kept = (if decide (s_winnerId x = Some id)
                     then carryRound (st w) else 0)).
Proof.
  intros Hs Hpot Hcar Hwi Hpay Hca Htp id.
  assert (Hp3 : 0 <= categoryPot (st w) / ROUNDS_PER_CATEGORY)
    by (apply Z.div_pos; [exact Hpot | reflexivity]).
  revert Hs. unfold settle.
  destruct (1 <? Z.of_nat (length (uniqueIds (teams w) winnerIds))) eqn:Hn.
  - apply Z.ltb_lt in Hn.
    assert (H0 : (Z.of_nat (length (uniqueIds (teams w) winnerIds)) =? 0)
                 = false) by (apply Z.eqb_neq; lia).
    rewrite H0. intros [= <-].
    cbn [s_books s_winnerIds s_winnerId s_tieShare s_carryRound] in *.
    pose proof (foldl_credit_categoryEarnings
                  ((categoryPot (st w) / ROUNDS_PER_CATEGORY
                    + carryRound (st w))
                   / Z.of_nat (length (uniqueIds (teams w) winnerIds)))
                  (uniqueIds (teams w) winnerIds) (booksOf w) id
                  (uniqueIds_NoDup _ _)
                  (fun y Hy => uniqueIds_registered _ _ _ Hy)) as Hce.
    cbn [booksOf b_categoryEarnings] in Hce.
    split.
    + intros Hnin. rewrite Hce.
      destruct (decide _); [contradiction | reflexivity].
    + intros Hin. eexists. exists 0. rewrite Hce.
      destruct (decide (id ∈ uniqueIds (teams w) winnerIds));
        [| contradiction].
      split; [reflexivity |]. split.
      * unfold undoGain. rewrite Htp. unfold tiePayoutsOf.
        apply Z.ltb_lt in Hn. rewrite Hn.
        rewrite foldl_insert_const.
        destruct (decide (id ∈ uniqueIds (teams w) winnerIds));
          [| contradiction].
        simpl. lia.
      * split; [| reflexivity]. split; [lia |].
        apply Z.div_pos; lia.
  - assert (Hnone :
        forall x0, match winnerId with
                   | Null =>
                       Some (mkSettlement (booksOf w)
                               (carryRound (st w)
                                + categoryPot (st w) / ROUNDS_PER_CATEGORY)
                               None [] None)
                   | _ => None
                   end = Some x0 ->
                   s_winnerIds x0 = []
                   /\ b_categoryEarnings (s_books x0)
                      = categoryEarnings (st w)).
    { intros x0. destruct winnerId; intros [= <-]. split; reflexivity. }
    assert (Hfin : s_winnerIds x = []
                   /\ b_categoryEarnings (s_books x) = categoryEarnings (st w) ->
                   (id ∉ s_winnerIds x ->
                    b_categoryEarnings (s_books x) !! id
                    = categoryEarnings (st w) !! id)
                   /\ (id ∈ s_winnerIds x ->
                       exists gain kept,
                         b_categoryEarnings (s_books x) !! id
                         = Some (default 0 (categoryEarnings (st w) !! id)
                                 + gain)
                         /\ undoGain r id = gain - kept
                         /\ 0 <= kept <= gain
                         /\ kept = (if decide (s_winnerId x = Some id)
                                    then carryRound (st w) else 0))).
    { intros [Hnil Hsame]. rewrite Hnil, Hsame. split; [reflexivity |].
      intros Hin. apply elem_of_nil in Hin. contradiction. }
    destruct (match match uniqueIds (teams w) winnerIds with
                    | [x0] => Str x0
                    | _ => winnerId
                    end with
              | Str x0 => Some x0
              | _ => None
              end) as [y|];
      [| intros Hs; apply Hfin, Hnone, Hs].
    destruct (truthy y && bool_decide (is_Some (teams w !! y)))%bool eqn:Hy;
      [| intros Hs; apply Hfin, Hnone, Hs].
    apply andb_true_iff in Hy as [_ Hy]. apply bool_decide_eq_true in Hy.
    intros [= <-].
    cbn [s_books s_winnerIds s_winnerId s_tieShare s_carryRound] in *.
    pose proof (credit_categoryEarnings
                  (categoryPot (st w) / ROUNDS_PER_CATEGORY + carryRound (st w))
                  (booksOf w) y id Hy) as Hce.
    cbn [booksOf b_categoryEarnings] in Hce.
    split.
    + intros Hnin. rewrite Hce.
      destruct (decide (id = y)) as [->|]; [| reflexivity].
      exfalso. apply Hnin. left.
    + intros Hin. apply list_elem_of_singleton in Hin. subst id.
      eexists. exists (carryRound (st w)). rewrite Hce.
      destruct (decide (y = y)); [| congruence].
      split; [reflexivity |]. split.
      * unfold undoGain. rewrite Htp, Hwi, Hpay, Hca.
        unfold tiePayoutsOf.
        change (1 <? Z.of_nat (length [y])) with false. cbv iota.
        destruct (decide (Some y = Some y)); [lia | congruence].
      * split; [lia |].
        destruct (decide (Some y = Some y)); [reflexivity | congruence].
Qed.

(** X27.  What an undo takes back from the category earnings.  Under the
    conditions of the undo of a resolution, with pot, carry and earnings
    not negative, the category earnings of every team after resolution and
    undo are those from before the resolution, except for a single winner:
    the undo takes back the payout of the round but not the carry that was
    paid with it, so the winner keeps the carry of before in its category
    earnings (while the coins themselves go back with the snapshot). *)
Theorem undo_keeps_carry_in_earnings (now : Z) (winnerId : jsid)
    (winnerIds : option (list jsid)) (coinMap : option (gmap string jsnum))
    (carry : jsnum) (w : World) (k : RoundKey) (x : Settlement) (id : string) :
  phase (st w) = CATEGORY ->
  currentRoundKey (st w) = Some k ->
  isRoundResolved (st w) = false ->
  settle winnerId winnerIds w = Some x ->
  0 <= categoryPot (st w) -> 0 <= carryRound (st w) ->
  (forall y e, categoryEarnings (st w) !! y = Some e -> 0 <= e) ->
  let w2 := adminRoundUndo coinMap carry
              (adminResolveRound now winnerId winnerIds w) in
  default 0 (categoryEarnings (st w2) !! id)
  = default 0 (categoryEarnings (st w) !! id)
    + (if decide (s_winnerId x = Some id) then carryRound (st w) else 0).
Proof.
  intros Hp Hk Hr Hs Hpot Hcar Hpos. cbv zeta.
  rewrite (adminResolveRound_resolves now winnerId winnerIds w x Hp Hr Hs).
  destruct (recordResolution_effects now x w)
    as (_ & _ & _ & Hce & Hp' & _ & _).
  pose proof (isRoundResolved_recordResolution now x w k Hk) as Hr'.
  destruct (settle_roundWins winnerId winnerIds w x Hs) as (Hnd & Hnil & _).
  destruct (pendingResult_recordResolution now x w)
    as (r & Hpe & Hwi & Hwis & Hcat & Hri & Hpay & Hca & Htp).
  destruct (settle_categoryEarnings winnerId winnerIds w x r Hs Hpot Hcar
              Hwi Hpay Hca Htp id) as [Hout Hin].
  assert (Hcr : currentCategory (st (recordResolution now x w))
                = currentCategory (st w)
                /\ roundIndex (st (recordResolution now x w))
                   = roundIndex (st w)).
  { rewrite (recordResolution_only now x w). split; reflexivity. }
  destruct Hcr as [Hc1 Hc2].
  rewrite Hp in Hp'.
  destruct (adminRoundUndo_tallies coinMap carry (recordResolution now x w) r
              Hp' Hr'
              (resultOfRound_pending _ r Hpe (eq_trans Hcat (eq_sym Hc1))
                 (eq_trans Hri (eq_sym Hc2)))) as [_ Htal].
  rewrite Htal, Hwis, Hwi.
  assert (Hwin : match s_winnerIds x with
                 | [] => match s_winnerId x with
                         | Some y => [y]
                         | None => []
                         end
                 | l => l
                 end = s_winnerIds x).
  { destruct (s_winnerIds x) as [|a l] eqn:Hl; [| reflexivity].
    rewrite (Hnil eq_refl). reflexivity. }
  rewrite Hwin, (foldl_uncredit_categoryEarnings r _ _ id Hnd), Hce.
  destruct (decide (id ∈ s_winnerIds x)) as [Hwinner|Hloser].
  - destruct (Hin Hwinner) as (gain & kept & Hb & Hg & Hk0 & Hkept).
    rewrite Hb, Hg, <- Hkept.
    assert (Hold : 0 <= default 0 (categoryEarnings (st w) !! id)).
    { destruct (categoryEarnings (st w) !! id) as [e0|] eqn:He;
        [exact (Hpos id e0 He) | simpl; lia]. }
    remember (default 0 (categoryEarnings (st w) !! id)) as old eqn:Eold.
    simpl.
    destruct (gain - kept =? 0) eqn:Hz; cbn [orb].
    + apply Z.eqb_eq in Hz. lia.
    + destruct (old + gain =? 0) eqn:He0.
      * apply Z.eqb_eq in He0. apply Z.eqb_neq in Hz. lia.
      * lia.
  - rewrite (Hout Hloser).
    assert (Hno : s_winnerId x <> Some id).
    { intros Hsome. apply Hloser.
      destruct (s_winnerIds x) as [|a l] eqn:Hl.
      - rewrite (Hnil eq_refl) in Hsome. discriminate Hsome.
      - clear Hin Hout. revert Hsome Hl. revert Hs. unfold settle.
        destruct (1 <? _); [intros [= <-]; discriminate |].
        destruct (match match uniqueIds (teams w) winnerIds with
                        | [x0] => Str x0
                        | _ => winnerId
                        end with
                  | Str x0 => Some x0
                  | _ => None
                  end) as [y|];
          [destruct (truthy y && bool_decide (is_Some (teams w !! y)))%bool |];
          try (destruct winnerId; intros [= <-]; discriminate).
        intros [= <-]. cbn [s_winnerId s_winnerIds].
        intros [= ->] [= <- <-]. left. }
    destruct (decide (s_winnerId x = Some id)); [contradiction | lia].
Qed.

(** Team A alone wins the second round of "Hase" with a carry of 10 (pot
    30): it is paid 20; after the undo its category earnings are 10. *)
Lemma undo_keeps_carry_in_earnings_witness :
  default 0
    (categoryEarnings
       (st (adminRoundUndo None NonFinite
              (adminResolveRound 7 (Str "A") None
                 (mkWorld (exState CATEGORY 1 ∅ 30 10) (exTeams 15 15)))))
       !! "A") = 10.
Proof.
  exact (undo_keeps_carry_in_earnings 7 (Str "A") None None NonFinite
           (mkWorld (exState CATEGORY 1 ∅ 30 10) (exTeams 15 15))
           ("Hase", 1)
           (mkSettlement
              (credit 20
                 (booksOf (mkWorld (exState CATEGORY 1 ∅ 30 10)
                             (exTeams 15 15))) "A")
              0 (Some "A") ["A"] None)
           "A" eq_refl eq_refl eq_refl eq_refl
           ltac:(vm_compute; discriminate) ltac:(vm_compute; discriminate)
           ltac:(intros y e Hy; vm_compute in Hy; discriminate Hy)).
Defined.

(** * Undo after the result has been announced *)

Lemma lastResult_recordResolution (now : Z) (x : Settlement) (w : World) :
  lastResult (st (recordResolution now x w))
  = pendingResult (st (recordResolution now x w)).
Proof.
  unfold recordResolution. cbn [st].
  unfold emitPendingResult. cbn [pendingResult set_pendingResult].
  reflexivity.
Qed.

Lemma adminRoundEnd_announces (w : World) (r : Result.t) :
  pendingResult (st w) = Some r ->
  Result.category r = currentCategory (st w) ->
  Result.roundIndex r = roundIndex (st w) ->
  adminRoundEnd w = on_state (set_pendingResult None) w.
Proof.
  intros H1 H2 H3. unfold adminRoundEnd. rewrite H1.
  destruct (decide (Result.category r = currentCategory (st w)));
    [| contradiction].
  destruct (decide (Result.roundIndex r = roundIndex (st w)));
    [reflexivity | contradiction].
Qed.

(** Announcement and undo on a resolved round whose result is [r]. *)
Lemma adminRoundEnd_then_undo (coinMap : option (gmap string jsnum))
    (carry : jsnum) (w1 : World) (r : Result.t) (id : string) :
  phase (st w1) = CATEGORY -> isRoundResolved (st w1) = true ->
  pendingResult (st w1) = Some r -> lastResult (st w1) = Some r ->
  Result.category r = currentCategory (st w1) ->
  Result.roundIndex r = roundIndex (st w1) ->
  let winners := match Result.winnerIds r with
                 | [] => match Result.winnerId r with
                         | Some y => [y]
                         | None => []
                         end
                 | l => l
                 end in
  NoDup winners ->
  let w2 := adminRoundEnd w1 in
  let w3 := adminRoundUndo coinMap carry w2 in
  pendingResult (st w2) = None
  /\ lastResult (st w2) = Some r
  /\ teams w2 = teams w1
  /\ isRoundResolved (st w2) = true
  /\ isRoundResolved (st w3) = false
  /\ roundWins (st w3) !! id
     = if decide (id ∈ winners)
       then match roundWins (st w1) !! id with
            | Some n => Some (if n =? 0 then n else Z.max 0 (n - 1))
            | None => None
            end
       else roundWins (st w1) !! id.
Proof.
  intros Hp Hr Hpe Hla Hcat Hri winners Hnd. cbv zeta.
  rewrite (adminRoundEnd_announces w1 r Hpe Hcat Hri).
  assert (Hp2 : phase (st (on_state (set_pendingResult None) w1)) = CATEGORY)
    by exact Hp.
  assert (Hr2 : isRoundResolved (st (on_state (set_pendingResult None) w1))
                = true) by exact Hr.
  assert (Hres2 : resultOfRound (st (on_state (set_pendingResult None) w1))
                  = Some r).
  { apply resultOfRound_last; [reflexivity | exact Hla | exact Hcat
                               | exact Hri]. }
  split; [reflexivity |]. split; [exact Hla |]. split; [reflexivity |].
  split; [exact Hr2 |]. split.
  - destruct (adminRoundUndo_resolved coinMap carry _ Hp2 Hr2)
      as (_ & _ & _ & _ & Hrr).
    unfold isRoundResolved. rewrite adminRoundUndo_key, Hrr.
    destruct (currentRoundKey _) as [k2|]; [| reflexivity].
    apply bool_decide_eq_false. intros Hin.
    apply elem_of_difference in Hin as [_ Hn].
    apply Hn. apply elem_of_singleton. reflexivity.
  - destruct (adminRoundUndo_tallies coinMap carry _ r Hp2 Hr2 Hres2)
      as [Htal _].
    rewrite Htal. fold winners.
    rewrite (foldl_uncredit_roundWins r winners _ id Hnd). reflexivity.
Qed.

(** X28.  Announcing a result does not get in the way of an undo.  After a
    resolution of an open round, [adminRoundEnd] clears the pending result
    and changes nothing else: the result stays on as the last result, the
    teams keep their coins and the round stays resolved.  An undo after
    the announcement still finds the result: it reopens the round and takes
    back the round win of every winner. *)
Theorem undo_after_announcement (now : Z) (winnerId : jsid)
    (winnerIds : option (list jsid)) (coinMap : option (gmap string jsnum))
    (carry : jsnum) (w : World) (k : RoundKey) (x : Settlement) (id : string) :
  phase (st w) = CATEGORY ->
  currentRoundKey (st w) = Some k ->
  isRoundResolved (st w) = false ->
  settle winnerId winnerIds w = Some x ->
  (forall y n, roundWins (st w) !! y = Some n -> 0 <= n) ->
  let w1 := adminResolveRound now winnerId winnerIds w in
  let w2 := adminRoundEnd w1 in
  let w3 := adminRoundUndo coinMap carry w2 in
  pendingResult (st w2) = None
  /\ lastResult (st w2) = pendingResult (st w1)
  /\ teams w2 = teams w1
  /\ isRoundResolved (st w2) = true
  /\ isRoundResolved (st w3) = false
  /\ default 0 (roundWins (st w3) !! id) = default 0 (roundWins (st w) !! id).
Proof.
  intros Hp Hk Hr Hs Hpos. cbv zeta.
  rewrite (adminResolveRound_resolves now winnerId winnerIds w x Hp Hr Hs).
  destruct (recordResolution_effects now x w)
    as (_ & _ & Hrw & _ & Hp' & Hk' & _).
  pose proof (isRoundResolved_recordResolution now x w k Hk) as Hr'.
  pose proof (lastResult_recordResolution now x w) as Hla.
  destruct (settle_roundWins winnerId winnerIds w x Hs) as (Hnd & Hnil & Hb).
  destruct (pendingResult_recordResolution now x w)
    as (r & Hpe & Hwi & Hwis & Hcat & Hri & _).
  assert (Hcr : currentCategory (st (recordResolution now x w))
                = currentCategory (st w)
                /\ roundIndex (st (recordResolution now x w))
                   = roundIndex (st w)).
  { rewrite (recordResolution_only now x w). split; reflexivity. }
  destruct Hcr as [Hc1 Hc2].
  rewrite Hp in Hp'.
  assert (Hwin : match Result.winnerIds r with
                 | [] => match Result.winnerId r with
                         | Some y => [y]
                         | None => []
                         end
                 | l => l
                 end = s_winnerIds x).
  { rewrite Hwis, Hwi.
    destruct (s_winnerIds x) as [|a l] eqn:Hl; [| reflexivity].
    rewrite (Hnil eq_refl). reflexivity. }
  assert (Hnd' : NoDup match Result.winnerIds r with
                       | [] => match Result.winnerId r with
                               | Some y => [y]
                               | None => []
                               end
                       | l => l
                       end) by (rewrite Hwin; exact Hnd).
  rewrite Hpe in Hla.
  destruct (adminRoundEnd_then_undo coinMap carry (recordResolution now x w)
              r id Hp' Hr' Hpe Hla (eq_trans Hcat (eq_sym Hc1))
              (eq_trans Hri (eq_sym Hc2)) Hnd')
    as (H1 & H2 & H3 & H4 & H5 & H6).
  split; [exact H1 |]. split; [rewrite H2, Hpe; reflexivity |].
  split; [exact H3 |]. split; [exact H4 |]. split; [exact H5 |].
  rewrite H6, Hwin, Hrw, Hb.
  destruct (decide (id ∈ s_winnerIds x)); [| reflexivity].
  destruct (roundWins (st w) !! id) as [n|] eqn:Hn;
    unfold default, from_option, Datatypes.id.
  - pose proof (Hpos id n Hn) as Hn0.
    destruct (n + 1 =? 0) eqn:Hz; [apply Z.eqb_eq in Hz; lia | lia].
  - reflexivity.
Qed.

(** Team A wins the first round of "Hase", the result is announced and the
    round is undone. *)
Lemma undo_after_announcement_witness :
  isRoundResolved
    (st (adminRoundUndo None NonFinite
           (adminRoundEnd
              (adminResolveRound 7 (Str "A") None
                 (mkWorld (exState CATEGORY 0 ∅ 30 0) (exTeams 15 15))))))
  = false.
Proof.
  exact (proj1 (proj2 (proj2 (proj2 (proj2
           (undo_after_announcement 7 (Str "A") None None NonFinite
              (mkWorld (exState CATEGORY 0 ∅ 30 0) (exTeams 15 15))
              ("Hase", 0)
              (mkSettlement
                 (credit 10
                    (booksOf (mkWorld (exState CATEGORY 0 ∅ 30 0)
                                (exTeams 15 15))) "A")
                 0 (Some "A") ["A"] None)
              "A" eq_refl eq_refl eq_refl eq_refl
              ltac:(intros y n Hy; vm_compute in Hy; discriminate Hy))))))).
Defined.

(** * The stakes in the reachable states *)

Lemma stakesWf_frame (w w' : World) :
  stakes (st w') = stakes (st w) ->
  (forall id, is_Some (teams w !! id) -> is_Some (teams w' !! id)) ->
  stakesWf w -> stakesWf w'.
Proof.
  intros Hs Ht H id e Hl. rewrite Hs in Hl.
  destruct (H id e Hl) as (Hreg & Hrest). split; [apply Ht, Hreg | exact Hrest].
Qed.

Lemma stakesWf_empty (w : World) : stakes (st w) = ∅ -> stakesWf w.
Proof. intros Hs id e Hl. rewrite Hs, lookup_empty in Hl. discriminate Hl. Qed.

Lemma coerceStake_values (s : State) (t : Team.t) (r : jsnum) :
  coerceStake s t r ∈ [0; 3; 6; 9].
Proof.
  unfold coerceStake.
  assert (H0 : (0 : Z) ∈ [0; 3; 6; 9]) by (left).
  destruct (_ && _)%bool; [exact H0 |].
  destruct (includes (dynamicValid s) r) as [v|] eqn:Hv; [| exact H0].
  simpl. unfold includes in Hv. destruct r as [q|]; [| discriminate Hv].
  apply find_some in Hv as [Hin _]. apply list_elem_of_In in Hin.
  unfold dynamicValid in Hin. destruct (2 <? teamLimit s); [exact Hin |].
  apply elem_of_cons in Hin as [->|Hin]; [left |].
  apply elem_of_cons in Hin as [->|Hin]; [right; left |].
  apply elem_of_cons in Hin as [->|Hin]; [right; right; left |].
  apply elem_of_nil in Hin. contradiction.
Qed.

Lemma stakesWf_adminResolveRound (now : Z) (winnerId : jsid)
    (winnerIds : option (list jsid)) (w : World) :
  stakesWf w -> stakesWf (adminResolveRound now winnerId winnerIds w).
Proof.
  intros H. unfold adminResolveRound.
  destruct (decide _); [| exact H].
  destruct (isRoundResolved _); [exact H |].
  destruct (settle winnerId winnerIds w) as [x|] eqn:Hs; [| exact H].
  apply (stakesWf_frame w); [apply stakes_recordResolution | | exact H].
  intros id Hreg.
  destruct (recordResolution_effects now x w) as (Ht & _). rewrite Ht.
  destruct (settle_teams winnerId winnerIds w x id Hs) as [gain ->].
  apply fmap_is_Some. exact Hreg.
Qed.

(** Every command keeps the stakes well-formed. *)
Lemma stakesWf_step (window now : Z) (c : Command) (w : World) :
  stakesWf w -> stakesWf (step window now c w).
Proof.
  intros H. destruct c; cbn [step].
  - apply (stakesWf_frame w); [| | exact H]; unfold teamJoin;
      destruct (teams w !! id) eqn:Ht; cbn [st teams]; try reflexivity;
      intros k Hk; (destruct (decide (id = k)) as [<-|Hne];
        [rewrite lookup_insert_eq; eexists; reflexivity
        |rewrite lookup_insert_ne by exact Hne; exact Hk]).
  - unfold teamSetStake.
    destruct (decide _); [| exact H].
    destruct (teams w !! id) as [t|] eqn:Ht; [| exact H].
    intros k se. cbn [on_state st teams set_stakes stakes].
    destruct (decide (id = k)) as [<-|Hne].
    + rewrite lookup_insert_eq. intros [= <-]. cbn [stake useJoker].
      split; [rewrite Ht; eexists; reflexivity |].
      split; [apply coerceStake_values |].
      intros Hj. apply andb_true_iff in Hj as [_ Hj].
      apply Z.ltb_lt. exact Hj.
    + rewrite lookup_insert_ne by exact Hne. apply H.
  - apply (stakesWf_frame w); [| | exact H]; unfold teamSubmitBuzz;
      branches; try reflexivity; intros k Hk; exact Hk.
  - apply (stakesWf_frame w); [| | exact H]; unfold adminTeamUpdate;
      destruct (teams w !! id) eqn:Ht; cbn [st teams]; try reflexivity;
      intros k Hk; try exact Hk;
      (destruct (decide (id = k)) as [<-|Hne];
        [rewrite lookup_insert_eq; eexists; reflexivity
        |rewrite lookup_insert_ne by exact Hne; exact Hk]).
  - unfold adminTeamKick. destruct (_ && _)%bool; [| exact H].
    intros k se. cbn [st teams set_elch set_roundWins set_categoryEarnings
                      set_submissions set_stakes stakes].
    intros Hl. apply lookup_delete_Some in Hl as [Hne Hl].
    destruct (H k se Hl) as (Hreg & Hrest). split; [| exact Hrest].
    rewrite lookup_delete_ne by exact Hne. exact Hreg.
  - apply stakesWf_empty. reflexivity.
  - apply (stakesWf_frame w); [| | exact H]; unfold adminSetTeamLimit;
      destruct (_ =? _); try reflexivity; intros k Hk; exact Hk.
  - apply (stakesWf_frame w); [reflexivity | | exact H].
    intros k Hk. cbn [adminLockStakes teams]. rewrite debitStakes_lookup.
    destruct (stakes (st w) !! k); [apply fmap_is_Some |]; exact Hk.
  - apply stakesWf_adminResolveRound, H.
  - apply (stakesWf_frame w); [| | exact H]; unfold adminRoundEnd;
      branches; try reflexivity; intros k Hk; exact Hk.
  - unfold adminRoundUndo.
    destruct (decide _); [| exact H].
    destruct (isRoundResolved _); [| exact H].
    apply (stakesWf_frame w); [| | exact H]; cbn [st teams].
    + rewrite (proj1 (ledger_markRoundResolved false _)).
      cbn [set_lastResult set_pendingResult stakes].
      destruct (resultOfRound _);
        [rewrite (proj1 (ledger_foldl_uncredit _ _ _)) |];
        destruct carry; reflexivity.
    + intros k Hk. destruct coinMap as [m|]; [| exact Hk].
      rewrite restoreCoins_lookup.
      destruct (m !! k) as [[q|]|]; [apply fmap_is_Some | |]; exact Hk.
  - unfold adminRoundNext. destruct (decide _); [| exact H].
    apply (stakesWf_frame w); [| intros k Hk; exact Hk | exact H].
    unfold moveRound; cbn [st].
    destruct (decide _); cbn [set_elch set_submissions set_roundIndex stakes];
      rewrite (proj1 (ledger_markRoundResolved false _)); reflexivity.
  - unfold adminRoundPrev. destruct (decide _); [| exact H].
    apply (stakesWf_frame w); [| intros k Hk; exact Hk | exact H].
    unfold moveRound; cbn [st].
    destruct (decide _); cbn [set_elch set_submissions set_roundIndex stakes];
      rewrite (proj1 (ledger_markRoundResolved false _)); reflexivity.
  - apply stakesWf_empty. reflexivity.
  - apply stakesWf_empty. reflexivity.
  - exact H.
  - apply (stakesWf_frame w); [| intros k Hk; exact Hk | exact H].
    unfold adminTimerStop. simpl.
    destruct (timerEndsAt (st w)); [destruct (negb _) |]; reflexivity.
  - exact H.
  - apply (stakesWf_frame w); [| | exact H]; unfold adminTimerResume;
      destruct (_ && _)%bool; try reflexivity; intros k Hk; exact Hk.
  - apply (stakesWf_frame w); [| | exact H]; unfold adminElchDraw;
      destruct (decide _); try reflexivity; intros k Hk; exact Hk.
  - apply (stakesWf_frame w); [| | exact H]; unfold adminElchSetLock;
      destruct (decide _); try reflexivity; intros k Hk; exact Hk.
  - apply (stakesWf_frame w); [| | exact H]; unfold adminElchClearBuzz;
      destruct (decide _); try reflexivity; intros k Hk; exact Hk.
  - unfold adminElchConfirm.
    destruct (decide _); [| exact H].
    destruct (decide _); [| exact H].
    destruct (isRoundResolved (st w)); [exact H |].
    match goal with
    | |- context [match ?o with Some _ => _ | None => _ end] =>
        destruct o as [x|]
    end; [| exact H].
    destruct (_ && _)%bool; [| exact H].
    apply stakesWf_adminResolveRound. exact H.
  - apply (stakesWf_frame w); [| | exact H]; unfold adminElchUnlock;
      destruct (decide _); [destruct (Elch.exhausted _) | |
                            destruct (Elch.exhausted _) |];
      try reflexivity; intros k Hk; exact Hk.
  - apply (stakesWf_frame w); [| | exact H]; unfold adminRaceSet;
      destruct mode; try reflexivity; intros k Hk; exact Hk.
  - apply stakesWf_empty. reflexivity.
  - apply (stakesWf_frame w); [| | exact H]; unfold timerTick;
      destruct (timerEndsAt (st w)); [destruct (_ && _)%bool | |
                                      destruct (_ && _)%bool |];
      try reflexivity; intros k Hk; exact Hk.
  - apply (stakesWf_frame w); [| | exact H]; unfold elchAutoUnlock;
      branches; try reflexivity; intros k Hk; exact Hk.
  - exact H.
Qed.

(** X29.  In every state reached from the initial state each stake entry
    belongs to a registered team (a kick takes the stake of the team with
    it), its amount is 0, 3, 6 or 9, and it carries a joker only with a
    positive amount; so every entry that is counted into the pot at a lock
    is also debited from a team. *)
Theorem stakes_belong_to_teams (window : Z) (cmds : list (Z * Command))
    (id : string) (e : StakeEntry) :
  let w := run window cmds initial_world in
  stakes (st w) !! id = Some e ->
  (exists t, teams w !! id = Some t
             /\ teams (adminLockStakes w) !! id = Some (debit e t))
  /\ stake e ∈ [0; 3; 6; 9]
  /\ (useJoker e = true -> 0 < stake e).
Proof.
  assert (Hrun : forall w, stakesWf w -> stakesWf (run window cmds w)).
  { unfold run. induction cmds as [|[now c] l IH]; intros w Hw; simpl;
      [exact Hw |].
    apply IH, stakesWf_step, Hw. }
  cbv zeta. intros Hl.
  destruct (Hrun initial_world (stakesWf_empty initial_world eq_refl) id e Hl)
    as ([t Ht] & Hv & Hj).
  split; [| split; assumption].
  exists t. split; [exact Ht |].
  cbn [adminLockStakes teams]. rewrite debitStakes_lookup, Hl, Ht.
  reflexivity.
Qed.

(** Team A has staked 6 in "Hase". *)
Lemma stakes_belong_to_teams_witness :
  stakes (st exStaked) !! "A" = Some (mkStake 6 false)
  /\ (6 : Z) ∈ [0; 3; 6; 9].
Proof.
  assert (H : stakes (st exStaked) !! "A" = Some (mkStake 6 false))
    by (vm_compute; reflexivity).
  split; [exact H |].
  exact (proj1 (proj2 (stakes_belong_to_teams 45000 _ "A" _ H))).
Defined.
